(** * Sieve engine: vacation, duplicate and address-test behaviour

    A shallow embedding of the parts of the Sieve execution engine that the
    verified properties talk about:

    - [cmd-vacation.c]: the [:days] tag validator, the VACATION operation
      ([ext_vacation_operation_execute]), the duplicate and conflict hooks of
      the vacation action, [act_vacation_send] and [act_vacation_commit];
    - the duplicate extension: [act_duplicate_mark_finish],
      [ext_duplicate_hash] and [ext_duplicate_check];
    - the ADDRESS test: [tst_address_opcode_execute].

    Functions, constants and types that these sources use but do not define
    (the code readers of the binary, the result engine, MD5, the string
    sanitiser, the address parser, the host callbacks) are parameters of the
    development, bundled in the classes [Externals] and [BinaryReader]; every
    theorem holds for all of their implementations.

    Numbers ([sieve_number_t], [unsigned int] source lines) are naturals in
    [N]; [time_t] values and C [int]s are integers in [Z].  The widths of
    [sieve_number_t] and [time_t] are declared outside the sources at hand:
    they are parameters ([sieve_number_bits], [time_t_bits]), and the expiry
    that [act_vacation_commit] computes from [days] wraps around as the C
    expression does.  The narrowing the sources make visible
    ([sieve_number_t] to [unsigned int] in [ext_duplicate_check]) is written
    out. *)

From Stdlib Require Import ZArith NArith List String Ascii Bool Lia.
Import ListNotations.

Local Open Scope string_scope.
Local Open Scope Z_scope.
Local Open Scope list_scope.

(* ===================================================================== *)
(** * C strings *)
(* ===================================================================== *)

(** A [const char *] that may be [NULL] is an [option string]; the empty
    C string is [EmptyString].  The comparison functions of libc are
    embedded as the boolean "compares equal" (result [== 0]). *)
Module CStr.

(** [tolower] in the C locale. *)
Definition tolower (c : ascii) : ascii :=
  let n := nat_of_ascii c in
  if ((65 <=? n)%nat && (n <=? 90)%nat)%bool then ascii_of_nat (n + 32) else c.

(** [strcmp(a, b) == 0]. *)
Definition strcmp_eq (a b : string) : bool := String.eqb a b.

(** [strncmp(a, b, n) == 0]: at most [n] characters are compared, and the
    comparison stops at the terminating NUL of either string. *)
Fixpoint strncmp_eq (n : nat) (a b : string) : bool :=
  match n with
  | O => true
  | S n' =>
      match a, b with
      | EmptyString, EmptyString => true
      | String x a', String y b' => (Ascii.eqb x y && strncmp_eq n' a' b')%bool
      | _, _ => false
      end
  end.

(** [strncasecmp(a, b, n) == 0]. *)
Fixpoint strncasecmp_eq (n : nat) (a b : string) : bool :=
  match n with
  | O => true
  | S n' =>
      match a, b with
      | EmptyString, EmptyString => true
      | String x a', String y b' =>
          (Ascii.eqb (tolower x) (tolower y) && strncasecmp_eq n' a' b')%bool
      | _, _ => false
      end
  end.

(** [strcasecmp(a, b) == 0]. *)
Fixpoint strcasecmp_eq (a b : string) : bool :=
  match a, b with
  | EmptyString, EmptyString => true
  | String x a', String y b' =>
      (Ascii.eqb (tolower x) (tolower y) && strcasecmp_eq a' b')%bool
  | _, _ => false
  end.

(** [strstr(haystack, needle) != NULL]. *)
Fixpoint strstr_found (haystack needle : string) : bool :=
  (String.prefix needle haystack ||
   match haystack with
   | EmptyString => false
   | String _ rest => strstr_found rest needle
   end)%bool.

End CStr.

(* ===================================================================== *)
(** * Data shared by the extensions *)
(* ===================================================================== *)

(** An MD5 digest ([unsigned char hash[MD5_RESULTLEN]]). *)
Definition hash_t := string.

(** [struct sieve_action]: the fields of an action definition that the hooks
    below read.  The hooks themselves are the functions [act_*] further
    down. *)
Record sieve_action := {
  name : string;
  flags : Z
}.

(** [struct sieve_action_data]: an entry of the result list as the duplicate
    and conflict hooks see it. *)
Record sieve_action_data := {
  action : sieve_action;
  location : string;
  executed : bool
}.

Module Vac.

(** [struct act_vacation_context]. *)
Record act_vacation_context := {
  reason : string;
  days : N;
  subject : option string;
  handle : string;
  mime : bool;
  from : option string;
  from_normalized : option string;
  addresses : option (list string)
}.

Definition set_subject (ctx : act_vacation_context) (s : option string) :=
  {| reason := reason ctx; days := days ctx; subject := s;
     handle := handle ctx; mime := mime ctx; from := from ctx;
     from_normalized := from_normalized ctx; addresses := addresses ctx |}.

End Vac.

Module Dup.

(** [struct act_duplicate_mark_data]. *)
Record act_duplicate_mark_data := {
  handle : option string;
  period : Z;
  hash : hash_t;
  last : bool
}.

(** [struct ext_duplicate_handle], an element of the [handles] array. *)
Record ext_duplicate_handle := {
  record_handle : string;
  record_last : bool;
  record_duplicate : bool
}.

(** [struct ext_duplicate_context], the per-message context of the duplicate
    extension.  [handles = None] is the array that was not created yet
    ([array_is_created] is false). *)
Record ext_duplicate_context := {
  handles : option (list ext_duplicate_handle);
  nohandle_duplicate : bool;
  nohandle_checked : bool
}.

End Dup.

(** What an operation hands to [sieve_result_add_action]. *)
Inductive action_context :=
| CtxVacation (ctx : Vac.act_vacation_context)
| CtxDuplicateMark (data : Dup.act_duplicate_mark_data).

Record action_request := {
  req_action : sieve_action;
  req_source_line : option N;
  req_context : action_context
}.

(** Everything the engine does that is visible outside the function that
    does it: lines handed to the error handler and to the trace channel,
    calls of the host callbacks, text written to an SMTP session, and
    requests to the result engine. *)
Inductive event :=
| EvTraceError (msg : string)
| EvTrace (msg : string)
| EvRuntimeWarning (loc : option string) (msg : string)
| EvRuntimeError (loc : string) (msg : string)
| EvResultLog (msg : string)
| EvResultWarning (msg : string)
| EvResultError (msg : string)
| EvDuplicateCheck (h : hash_t) (user : option string) (answer : bool)
| EvDuplicateMark (h : hash_t) (user : option string) (expire : Z)
| EvSmtpOpen (destination : option string) (smtp_handle : N)
| EvSmtpHeader (field body : string)
| EvSmtpText (text : string)
| EvSmtpClose (smtp_handle : N) (ok : bool)
| EvAddAction (req : action_request) (ret : Z).

(** Text on an SMTP session, and its opening and closing. *)
Definition is_smtp_event (e : event) : bool :=
  match e with
  | EvSmtpOpen _ _ | EvSmtpHeader _ _ | EvSmtpText _ | EvSmtpClose _ _ => true
  | _ => false
  end.

(** A line reported as an error. *)
Definition is_error_event (e : event) : bool :=
  match e with
  | EvTraceError _ | EvRuntimeError _ _ | EvResultError _ => true
  | _ => false
  end.

(** Neither SMTP traffic nor an error line. *)
Definition quiet (e : event) : Prop :=
  is_smtp_event e = false /\ is_error_event e = false.

(** A query of the duplicate database. *)
Definition is_store_query (e : event) : bool :=
  match e with
  | EvDuplicateCheck _ _ _ => true
  | _ => false
  end.

Definition store_queries (evs : list event) : list event :=
  filter is_store_query evs.

(** [struct sieve_script_env]: the host capabilities.  A callback that the
    host does not provide is [None] (a NULL function pointer).  [H] is the
    state of the host (its duplicate database, its SMTP client). *)
Record sieve_script_env (H : Type) := {
  username : option string;
  smtp_open : option (H -> option string -> N * H);
  smtp_close : option (H -> N -> bool * H);
  duplicate_check : option (H -> hash_t -> option string -> bool * H);
  duplicate_mark : option (H -> hash_t -> option string -> Z -> H)
}.
Arguments username {H} _.
Arguments smtp_open {H} _.
Arguments smtp_close {H} _.
Arguments duplicate_check {H} _.
Arguments duplicate_mark {H} _.

(** [struct message_address] as [message_address_parse] returns it. *)
Record message_address := {
  mailbox : option string;
  domain : option string
}.

(** [struct sieve_message_data].  The mail handle is represented by the two
    header lookups made on it: [mail_get_headers] and
    [mail_get_headers_utf8] answer [Some headers] when they return [>= 0]. *)
Record sieve_message_data := {
  mail_get_headers : string -> option (list string);
  mail_get_headers_utf8 : string -> option (list string);
  return_path : option string;
  to_address : option string;
  id : option string
}.

(* ===================================================================== *)
(** * Collaborators outside the sources at hand *)
(* ===================================================================== *)

Class Externals := {
  (** State of the collaborators: host databases and the result engine. *)
  host_state : Type;
  (** Exit codes of an operation ([sieve.h]). *)
  SIEVE_EXEC_OK : Z;
  SIEVE_EXEC_BIN_CORRUPT : Z;
  (** Action flag ([sieve-actions.h]). *)
  SIEVE_ACTFLAG_SENDS_RESPONSE : Z;
  SIEVE_IMPLEMENTATION : string;
  (** [md5_init], [md5_update]..., [md5_final] over the concatenated input. *)
  md5 : string -> hash_t;
  str_sanitize : string -> nat -> string;
  message_address_parse : string -> list message_address;
  message_date_create : Z -> string;
  (** [sieve_address_normalize]: the normalised address, or the error. *)
  sieve_address_normalize : string -> string + string;
  sieve_error_script_location : N -> string;
  sieve_message_get_new_id : host_state -> string * host_state;
  sieve_action_duplicate_check_available : sieve_script_env host_state -> bool;
  (** The result engine: return value of [sieve_result_add_action]. *)
  sieve_result_add_action_impl : host_state -> action_request -> Z * host_state;
  (** Indeterminate contents of an uninitialised digest buffer. *)
  uninitialised_hash : hash_t;
  (** Widths in bits of two integer types that are declared outside these
      sources: [sieve_number_t], an unsigned type at least as wide as
      [unsigned int], and [time_t], a signed type. *)
  sieve_number_bits : Z;
  time_t_bits : Z
}.

(** The code readers of [sieve-binary] and [sieve-code].  A reader answers
    [None] when it returns FALSE (or NULL); on success it yields the value
    and the advanced address. *)
Class BinaryReader := {
  sieve_binary : Type;
  sieve_coded_stringlist : Type;
  sieve_code_source_line_read : sieve_binary -> N -> option (N * N);
  sieve_operand_optional_present : sieve_binary -> N -> bool * N;
  sieve_operand_optional_read : sieve_binary -> N -> option (Z * N);
  sieve_opr_number_read : sieve_binary -> N -> option (N * N);
  sieve_opr_string_read : sieve_binary -> N -> option (string * N);
  sieve_opr_stringlist_read :
    sieve_binary -> N -> option (sieve_coded_stringlist * N);
  sieve_coded_stringlist_read_all : sieve_coded_stringlist -> option (list string)
}.

(* ===================================================================== *)
(** * The world and its monad *)
(* ===================================================================== *)

Section World.
Context `{Externals}.

(** The state an operation runs against: the collaborators' state, the
    events so far, the per-message context of the duplicate extension
    ([sieve_message_context_extension_get]; [None] before it is set), and
    the clock of the I/O loop. *)
Record world := {
  w_host : host_state;
  w_trace : list event;
  w_msgctx : option Dup.ext_duplicate_context;
  ioloop_time : Z
}.

(** A computation either yields a value and a new world, or yields nothing:
    the process died on an assertion or a NULL dereference, or a loop ran
    out of the fuel it was given. *)
Definition M (A : Type) : Type := world -> option (A * world).

Definition ret {A} (a : A) : M A := fun w => Some (a, w).

Definition bind {A B} (c : M A) (k : A -> M B) : M B :=
  fun w => match c w with
           | Some (a, w') => k a w'
           | None => None
           end.

Definition crash {A} : M A := fun _ => None.

Definition emit (e : event) : M unit :=
  fun w => Some (tt, {| w_host := w_host w; w_trace := w_trace w ++ [e];
                        w_msgctx := w_msgctx w; ioloop_time := ioloop_time w |}).

Definition get_time : M Z := fun w => Some (ioloop_time w, w).

(** Conversion to [sieve_number_t]: arithmetic in an unsigned type wraps
    around. *)
Definition to_sieve_number (z : Z) : Z := z mod 2 ^ sieve_number_bits.

(** Conversion to [time_t], in two's complement: a value out of its range
    wraps around. *)
Definition to_time_t (z : Z) : Z :=
  (z + 2 ^ (time_t_bits - 1)) mod 2 ^ time_t_bits - 2 ^ (time_t_bits - 1).

(** Run a collaborator on the host state. *)
Definition on_host {A} (f : host_state -> A * host_state) : M A :=
  fun w => let (a, h) := f (w_host w) in
           Some (a, {| w_host := h; w_trace := w_trace w;
                       w_msgctx := w_msgctx w; ioloop_time := ioloop_time w |}).

Definition get_msgctx : M (option Dup.ext_duplicate_context) :=
  fun w => Some (w_msgctx w, w).

Definition set_msgctx (c : Dup.ext_duplicate_context) : M unit :=
  fun w => Some (tt, {| w_host := w_host w; w_trace := w_trace w;
                        w_msgctx := Some c; ioloop_time := ioloop_time w |}).

(** The world after the events [evs] were emitted. *)
Definition emitted (w : world) (evs : list event) : world :=
  {| w_host := w_host w; w_trace := w_trace w ++ evs;
     w_msgctx := w_msgctx w; ioloop_time := ioloop_time w |}.

(** The world after the collaborators moved to state [h]. *)
Definition with_host (w : world) (h : host_state) : world :=
  {| w_host := h; w_trace := w_trace w;
     w_msgctx := w_msgctx w; ioloop_time := ioloop_time w |}.

(** Whenever the computation [c] yields a value, the value satisfies [Q],
    the clock is where it was, and the events added all satisfy [P]. *)
Definition yields {A} (P : event -> Prop) (Q : A -> Prop) (c : M A) : Prop :=
  forall w a w', c w = Some (a, w') ->
    Q a /\ ioloop_time w' = ioloop_time w /\
    exists evs, w_trace w' = w_trace w ++ evs /\ Forall P evs.

(** Lift a computation that can only die. *)
Definition lift_option {A} (o : option A) : M A :=
  match o with Some a => ret a | None => crash end.

End World.

Declare Scope sieve_scope.
Delimit Scope sieve_scope with sieve.
Notation "x <- c ;; k" := (bind c (fun x => k))
  (at level 61, c at next level, right associativity) : sieve_scope.
Notation "c ;;; k" := (bind c (fun _ => k))
  (at level 61, right associativity) : sieve_scope.
Local Open Scope sieve_scope.

(* ===================================================================== *)
(** * Runtime services: error handler, trace channel, result engine *)
(* ===================================================================== *)

Section Runtime.
Context `{Externals}.

Definition sieve_runtime_trace_error (msg : string) : M unit :=
  emit (EvTraceError msg).

Definition sieve_runtime_trace (msg : string) : M unit :=
  emit (EvTrace msg).

Definition sieve_runtime_warning (loc : option string) (msg : string) : M unit :=
  emit (EvRuntimeWarning loc msg).

Definition sieve_runtime_error (loc msg : string) : M unit :=
  emit (EvRuntimeError loc msg).

Definition sieve_result_log (msg : string) : M unit := emit (EvResultLog msg).

Definition sieve_result_warning (msg : string) : M unit :=
  emit (EvResultWarning msg).

Definition sieve_result_error (msg : string) : M unit :=
  emit (EvResultError msg).

(** [sieve_result_add_action]: the request goes to the result engine, whose
    answer is the return value. *)
Definition sieve_result_add_action (req : action_request) : M Z :=
  r <- on_host (fun h => sieve_result_add_action_impl h req) ;;
  emit (EvAddAction req r) ;;;
  ret r.

(** Whether an action definition carries the SendsResponse flag, as
    [act_vacation_check_conflict] tests it. *)
Definition sends_response (a : sieve_action) : bool :=
  Z.land (flags a) SIEVE_ACTFLAG_SENDS_RESPONSE >? 0.

End Runtime.

(* ===================================================================== *)
(** * The AST arguments that tag validators walk *)
(* ===================================================================== *)

Module Ast.

Inductive sieve_ast_argument_type :=
| SAAT_NONE | SAAT_NUMBER | SAAT_STRING | SAAT_STRING_LIST | SAAT_TAG.

Inductive sieve_ast_argument :=
| ArgNumber (n : N)
| ArgString (s : string)
| ArgStringList (l : list string)
| ArgTag (identifier : string).

Definition sieve_ast_argument_type_of (a : sieve_ast_argument) :=
  match a with
  | ArgNumber _ => SAAT_NUMBER
  | ArgString _ => SAAT_STRING
  | ArgStringList _ => SAAT_STRING_LIST
  | ArgTag _ => SAAT_TAG
  end.

Definition type_eqb (a b : sieve_ast_argument_type) : bool :=
  match a, b with
  | SAAT_NONE, SAAT_NONE | SAAT_NUMBER, SAAT_NUMBER | SAAT_STRING, SAAT_STRING
  | SAAT_STRING_LIST, SAAT_STRING_LIST | SAAT_TAG, SAAT_TAG => true
  | _, _ => false
  end.

(** The argument list of a command with the validator's cursor [*arg] in
    it: the arguments before the cursor (they stay attached to the command)
    and the arguments from the cursor on.  An empty second part is the NULL
    cursor at the end of the list. *)
Definition cursor : Type := list sieve_ast_argument * list sieve_ast_argument.

(** [sieve_ast_arguments_detach(arg, 1)]: unlink the argument under the
    cursor; the cursor stands on its successor. *)
Definition sieve_ast_arguments_detach (c : cursor) : cursor :=
  (fst c, tl (snd c)).

(** [sieve_ast_argument_next(arg)]. *)
Definition sieve_ast_argument_next (c : cursor) : cursor :=
  match snd c with
  | [] => c
  | a :: rest => ((fst c ++ [a])%list, rest)
  end.

(** Modelled from the spec: [validate_tag_parameter(cmd, tag, value_arg,
    type)] of the validator (§4.2), which is not among the sources at hand.
    It accepts the value argument of a tag when there is one and it has the
    requested type; otherwise it reports an error and fails. *)
Definition sieve_validate_tag_parameter
    (c : cursor) (req_type : sieve_ast_argument_type) : bool :=
  match snd c with
  | a :: _ => type_eqb (sieve_ast_argument_type_of a) req_type
  | [] => false
  end.

(** [sieve_ast_argument_number(arg)], read after the type check. *)
Definition sieve_ast_argument_number (c : cursor) : N :=
  match snd c with
  | ArgNumber n :: _ => n
  | _ => 0%N
  end.

(** [sieve_ast_argument_number_set(arg, n)]. *)
Definition sieve_ast_argument_number_set (c : cursor) (n : N) : cursor :=
  match snd c with
  | ArgNumber _ :: rest => (fst c, ArgNumber n :: rest)
  | _ => c
  end.

End Ast.

(* ===================================================================== *)
(** * The vacation extension ([cmd-vacation.c]) *)
(* ===================================================================== *)

Module Vacation.
Import Ast.

(** ** Tag validation *)

(** [cmd_vacation_validate_number_tag]: [None] is the FALSE return. *)
Definition cmd_vacation_validate_number_tag (arg : cursor) : option cursor :=
  (* Detach the tag itself *)
  let arg := sieve_ast_arguments_detach arg in
  (* Check syntax:  :days number *)
  if negb (sieve_validate_tag_parameter arg SAAT_NUMBER) then None
  else
    (* Enforce :days > 0 *)
    let arg :=
      if (sieve_ast_argument_number arg =? 0)%N
      then sieve_ast_argument_number_set arg 1%N
      else arg in
    (* Skip parameter *)
    Some (sieve_ast_argument_next arg).

(** ** Codes for optional arguments ([enum cmd_vacation_optional]) *)

Definition OPT_END : Z := 0.
Definition OPT_DAYS : Z := 1.
Definition OPT_SUBJECT : Z := 2.
Definition OPT_FROM : Z := 3.
Definition OPT_ADDRESSES : Z := 4.
Definition OPT_MIME : Z := 5.

Section Operation.
Context `{Externals} `{BinaryReader}.

(** The action object [act_vacation]. *)
Definition act_vacation : sieve_action :=
  {| name := "vacation"; flags := SIEVE_ACTFLAG_SENDS_RESPONSE |}.

(** The locals of [ext_vacation_operation_execute] that the optional
    operands assign. *)
Record optional_operands := {
  opt_days : N;
  opt_mime : bool;
  opt_addresses : option sieve_coded_stringlist;
  opt_subject : option string;
  opt_from : option string
}.

(** [days = 7], [mime = FALSE], [addresses = NULL], [subject = NULL],
    [from = NULL]. *)
Definition optional_defaults : optional_operands :=
  {| opt_days := 7%N; opt_mime := false; opt_addresses := None;
     opt_subject := None; opt_from := None |}.

Definition with_days (o : optional_operands) (d : N) :=
  {| opt_days := d; opt_mime := opt_mime o; opt_addresses := opt_addresses o;
     opt_subject := opt_subject o; opt_from := opt_from o |}.
Definition with_subject (o : optional_operands) (s : string) :=
  {| opt_days := opt_days o; opt_mime := opt_mime o;
     opt_addresses := opt_addresses o; opt_subject := Some s;
     opt_from := opt_from o |}.
Definition with_from (o : optional_operands) (s : string) :=
  {| opt_days := opt_days o; opt_mime := opt_mime o;
     opt_addresses := opt_addresses o; opt_subject := opt_subject o;
     opt_from := Some s |}.
Definition with_addresses (o : optional_operands) (l : sieve_coded_stringlist) :=
  {| opt_days := opt_days o; opt_mime := opt_mime o; opt_addresses := Some l;
     opt_subject := opt_subject o; opt_from := opt_from o |}.
Definition with_mime (o : optional_operands) :=
  {| opt_days := opt_days o; opt_mime := true;
     opt_addresses := opt_addresses o; opt_subject := opt_subject o;
     opt_from := opt_from o |}.

(** How the [while ( opt_code != 0 )] loop is left. *)
Inductive loop_exit :=
| LoopCorrupt                                   (* return SIEVE_EXEC_BIN_CORRUPT *)
| LoopDone (address : N) (o : optional_operands). (* opt_code == 0 *)

(** The loop over the optional operands.  Each iteration reads one
    [opt_code] and, according to it, one operand.  [fuel] bounds the number
    of iterations; the loop yields nothing when it is used up. *)
Fixpoint optional_operands_loop
    (fuel : nat) (sbin : sieve_binary) (address : N) (o : optional_operands)
    : M loop_exit :=
  match fuel with
  | O => crash
  | S fuel =>
      match sieve_operand_optional_read sbin address with
      | None =>
          sieve_runtime_trace_error "invalid optional operand" ;;;
          ret LoopCorrupt
      | Some (opt_code, address) =>
          if opt_code =? 0 then ret (LoopDone address o)
          else if opt_code =? OPT_DAYS then
            match sieve_opr_number_read sbin address with
            | None =>
                sieve_runtime_trace_error "invalid days operand" ;;;
                ret LoopCorrupt
            | Some (days, address) =>
                (* Enforce days > 0 (just to be sure) *)
                let days := if (days =? 0)%N then 1%N else days in
                optional_operands_loop fuel sbin address (with_days o days)
            end
          else if opt_code =? OPT_SUBJECT then
            match sieve_opr_string_read sbin address with
            | None =>
                sieve_runtime_trace_error "invalid subject operand" ;;;
                ret LoopCorrupt
            | Some (subject, address) =>
                optional_operands_loop fuel sbin address (with_subject o subject)
            end
          else if opt_code =? OPT_FROM then
            match sieve_opr_string_read sbin address with
            | None =>
                sieve_runtime_trace_error "invalid from address operand" ;;;
                ret LoopCorrupt
            | Some (from, address) =>
                optional_operands_loop fuel sbin address (with_from o from)
            end
          else if opt_code =? OPT_ADDRESSES then
            match sieve_opr_stringlist_read sbin address with
            | None =>
                sieve_runtime_trace_error "invalid addresses operand" ;;;
                ret LoopCorrupt
            | Some (addresses, address) =>
                optional_operands_loop fuel sbin address
                  (with_addresses o addresses)
            end
          else if opt_code =? OPT_MIME then
            optional_operands_loop fuel sbin address (with_mime o)
          else
            sieve_runtime_trace_error "unknown optional operand" ;;;
            ret LoopCorrupt
      end
  end.

(** [ext_vacation_operation_execute].  The value is the [int] the function
    returns.  (The cursor [*address] is an in/out parameter of the source;
    the properties below are about the return value and the effects, so the
    final address is not returned.) *)
Definition ext_vacation_operation_execute
    (fuel : nat) (sbin : sieve_binary) (address : N) : M Z :=
  (* Source line *)
  match sieve_code_source_line_read sbin address with
  | None =>
      sieve_runtime_trace_error "invalid source line" ;;;
      ret SIEVE_EXEC_BIN_CORRUPT
  | Some (source_line, address) =>
      (* Optional operands *)
      let (present, address) := sieve_operand_optional_present sbin address in
      r <- (if present
            then optional_operands_loop fuel sbin address optional_defaults
            else ret (LoopDone address optional_defaults)) ;;
      match r with
      | LoopCorrupt => ret SIEVE_EXEC_BIN_CORRUPT
      | LoopDone address o =>
          (* Reason operand *)
          match sieve_opr_string_read sbin address with
          | None =>
              sieve_runtime_trace_error "invalid reason operand" ;;;
              ret SIEVE_EXEC_BIN_CORRUPT
          | Some (reason, address) =>
              (* Handle operand *)
              match sieve_opr_string_read sbin address with
              | None =>
                  sieve_runtime_trace_error "invalid handle operand" ;;;
                  ret SIEVE_EXEC_BIN_CORRUPT
              | Some (handle, address) =>
                  sieve_runtime_trace "VACATION action" ;;;
                  (* Check and normalize :from address *)
                  from_normalized <-
                    match opt_from o with
                    | None => ret None
                    | Some from =>
                        match sieve_address_normalize from with
                        | inl normalized => ret (Some normalized)
                        | inr error =>
                            sieve_runtime_error
                              (sieve_error_script_location source_line)
                              ("specified :from address '" ++ str_sanitize from 128
                               ++ "' is invalid for vacation action: " ++ error) ;;;
                            ret None
                        end
                    end ;;
                  (* Add vacation action to the result *)
                  let act :=
                    {| Vac.reason := reason;
                       Vac.handle := handle;
                       Vac.days := opt_days o;
                       Vac.mime := opt_mime o;
                       Vac.subject := opt_subject o;
                       Vac.from := opt_from o;
                       Vac.from_normalized := from_normalized;
                       Vac.addresses :=
                         match opt_addresses o with
                         | None => None
                         | Some addresses =>
                             sieve_coded_stringlist_read_all addresses
                         end |} in
                  r <- sieve_result_add_action
                         {| req_action := act_vacation;
                            req_source_line := Some source_line;
                            req_context := CtxVacation act |} ;;
                  ret (if r >=? 0 then 1 else 0)
              end
          end
      end
  end.


(** ** The optional-operand block as the specification describes it

    "Optional-operand block: prefix of (non-zero) (opt_code, operand) pairs
    terminated by opt_code 0."  The definitions below say what it means that
    such pairs stand in the binary at an address, and that what stands at
    an address is no pair; they are compared with the loop above. *)

Inductive opt_pair :=
| PairDays (n : N)
| PairSubject (s : string)
| PairFrom (s : string)
| PairAddresses (l : sieve_coded_stringlist)
| PairMime.

(** The pair [p] is read at [a], and leaves the cursor at [a']. *)
Definition reads_pair (sbin : sieve_binary) (a : N) (p : opt_pair) (a' : N)
    : Prop :=
  match p with
  | PairDays n =>
      exists a1, sieve_operand_optional_read sbin a = Some (OPT_DAYS, a1)
                 /\ sieve_opr_number_read sbin a1 = Some (n, a')
  | PairSubject s =>
      exists a1, sieve_operand_optional_read sbin a = Some (OPT_SUBJECT, a1)
                 /\ sieve_opr_string_read sbin a1 = Some (s, a')
  | PairFrom s =>
      exists a1, sieve_operand_optional_read sbin a = Some (OPT_FROM, a1)
                 /\ sieve_opr_string_read sbin a1 = Some (s, a')
  | PairAddresses l =>
      exists a1, sieve_operand_optional_read sbin a = Some (OPT_ADDRESSES, a1)
                 /\ sieve_opr_stringlist_read sbin a1 = Some (l, a')
  | PairMime => sieve_operand_optional_read sbin a = Some (OPT_MIME, a')
  end.

(** The pairs [ps] are read one after the other from [a] to [a']. *)
Fixpoint reads_pairs (sbin : sieve_binary) (a : N) (ps : list opt_pair)
    (a' : N) : Prop :=
  match ps with
  | [] => a = a'
  | p :: ps => exists a1, reads_pair sbin a p a1 /\ reads_pairs sbin a1 ps a'
  end.

(** What the pairs assign. *)
Definition apply_pair (o : optional_operands) (p : opt_pair) : optional_operands :=
  match p with
  | PairDays n => with_days o (if (n =? 0)%N then 1%N else n)
  | PairSubject s => with_subject o s
  | PairFrom s => with_from o s
  | PairAddresses l => with_addresses o l
  | PairMime => with_mime o
  end.

(** What stands at [a] is not a pair and not the terminator: the code
    cannot be read, it is outside [{0, days, subject, from, addresses,
    mime}], or its operand cannot be decoded. *)
Definition corrupt_at (sbin : sieve_binary) (a : N) : Prop :=
  sieve_operand_optional_read sbin a = None
  \/ (exists c a1, sieve_operand_optional_read sbin a = Some (c, a1)
                   /\ ~ In c [OPT_END; OPT_DAYS; OPT_SUBJECT; OPT_FROM;
                              OPT_ADDRESSES; OPT_MIME])
  \/ (exists a1, sieve_operand_optional_read sbin a = Some (OPT_DAYS, a1)
                 /\ sieve_opr_number_read sbin a1 = None)
  \/ (exists a1, sieve_operand_optional_read sbin a = Some (OPT_SUBJECT, a1)
                 /\ sieve_opr_string_read sbin a1 = None)
  \/ (exists a1, sieve_operand_optional_read sbin a = Some (OPT_FROM, a1)
                 /\ sieve_opr_string_read sbin a1 = None)
  \/ (exists a1, sieve_operand_optional_read sbin a = Some (OPT_ADDRESSES, a1)
                 /\ sieve_opr_stringlist_read sbin a1 = None).

(** The readers move forward in a binary of [size] bytes: reading an
    opt_code consumes at least one byte and stays inside the binary, and
    reading an operand never moves back. *)
Definition forward_reader (sbin : sieve_binary) (size : N) : Prop :=
  (forall a c a',
     sieve_operand_optional_read sbin a = Some (c, a') -> (a < a' <= size)%N)
  /\ (forall a n a', sieve_opr_number_read sbin a = Some (n, a') -> (a <= a')%N)
  /\ (forall a s a', sieve_opr_string_read sbin a = Some (s, a') -> (a <= a')%N)
  /\ (forall a l a',
        sieve_opr_stringlist_read sbin a = Some (l, a') -> (a <= a')%N).

(** An event that is no request to the result engine, or a request for a
    vacation action whose [days] is at least 1. *)
Definition days_ok (e : event) : Prop :=
  match e with
  | EvAddAction req _ =>
      exists ctx, req_context req = CtxVacation ctx /\ (1 <= Vac.days ctx)%N
  | _ => True
  end.

(** ** Runtime verification hooks of the action *)

(** [act_vacation_check_duplicate]. *)
Definition act_vacation_check_duplicate
    (act act_other : sieve_action_data) : M Z :=
  if negb (executed act_other) then
    sieve_runtime_error (location act)
      ("duplicate vacation action not allowed "
       ++ "(previously triggered one was here: " ++ location act_other ++ ")") ;;;
    ret (-1)
  else
    (* Not an error if executed in preceeding script *)
    ret 1.

(** [act_vacation_check_conflict]. *)
Definition act_vacation_check_conflict
    (act act_other : sieve_action_data) : M Z :=
  if Z.land (flags (action act_other)) SIEVE_ACTFLAG_SENDS_RESPONSE >? 0 then
    if negb (executed act_other) then
      sieve_runtime_error (location act)
        ("vacation action conflicts with other action: "
         ++ "the " ++ name (action act_other) ++ " action ("
         ++ location act_other
         ++ ") also sends a response back to the sender") ;;;
      ret (-1)
    else
      (* Not an error if executed in preceeding script *)
      ret 1
  else ret 0.

(** ** Result execution *)

(** Headers known to be associated with mailing lists. *)
Definition _list_headers : list string :=
  ["list-id"; "list-owner"; "list-subscribe"; "list-post";
   "list-unsubscribe"; "list-help"; "list-archive"].

(** Headers that should be searched for the user's own mail address(es). *)
Definition _my_address_headers : list string :=
  ["to"; "cc"; "bcc"; "resent-to"; "resent-cc"; "resent-bcc"].

(** [_is_system_address]. *)
Definition _is_system_address (address : string) : bool :=
  if CStr.strncasecmp_eq 13 address "MAILER-DAEMON" then true
  else if CStr.strncasecmp_eq 8 address "LISTSERV" then true
  else if CStr.strncasecmp_eq 9 address "majordomo" then true
  else if CStr.strstr_found address "-request@" then true
  else if CStr.strncmp_eq 6 address "owner-" then true
  else false.

(** The inner loop of [_contains_my_address] over one parsed header.
    [None]: the assertion [i_assert(addr->mailbox != NULL)] failed. *)
Fixpoint address_list_contains
    (addr : list message_address) (my_address : string) : option bool :=
  match addr with
  | [] => Some false
  | a :: next =>
      match domain a with
      | Some d =>
          match mailbox a with
          | None => None
          | Some m =>
              if CStr.strcmp_eq (m ++ "@" ++ d) my_address then Some true
              else address_list_contains next my_address
          end
      | None => address_list_contains next my_address
      end
  end.

(** [_contains_my_address]. *)
Fixpoint _contains_my_address
    (headers : list string) (my_address : string) : option bool :=
  match headers with
  | [] => Some false
  | hd :: rest =>
      match address_list_contains (message_address_parse hd) my_address with
      | None => None
      | Some true => Some true
      | Some false => _contains_my_address rest my_address
      end
  end.

(** A C string handed to [strlen], [strcmp] or a [%s] conversion: a NULL
    pointer there ends the process. *)
Definition deref (s : option string) : M string := lift_option s.

Definition CRLF : string :=
  String (ascii_of_nat 13) (String (ascii_of_nat 10) EmptyString).

Definition rfc2822_header_field_write (field body : string) : M unit :=
  emit (EvSmtpHeader field body).

Definition smtp_write (text : string) : M unit := emit (EvSmtpText text).

Section Commit.
Variable senv : sieve_script_env host_state.
Variable msgdata : sieve_message_data.

(** [act_vacation_send]. *)
Definition act_vacation_send (ctx : Vac.act_vacation_context) : M bool :=
  (* Check smpt functions just to be sure *)
  match smtp_open senv, smtp_close senv with
  | Some smtp_open, Some smtp_close =>
      (* Open smtp session *)
      smtp_handle <- on_host (fun h => smtp_open h (return_path msgdata)) ;;
      emit (EvSmtpOpen (return_path msgdata) smtp_handle) ;;;
      outmsgid <- on_host sieve_message_get_new_id ;;
      (* Produce a proper reply *)
      rfc2822_header_field_write "X-Sieve" SIEVE_IMPLEMENTATION ;;;
      rfc2822_header_field_write "Message-ID" outmsgid ;;;
      now <- get_time ;;
      rfc2822_header_field_write "Date" (message_date_create now) ;;;
      match Vac.from ctx with
      | Some (String c f) => rfc2822_header_field_write "From" (String c f)
      | _ =>
          to <- deref (to_address msgdata) ;;
          rfc2822_header_field_write "From" ("<" ++ to ++ ">")
      end ;;;
      rp <- deref (return_path msgdata) ;;
      rfc2822_header_field_write "To" ("<" ++ rp ++ ">") ;;;
      subject <- deref (Vac.subject ctx) ;;
      rfc2822_header_field_write "Subject" (str_sanitize subject 256) ;;;
      (* Compose proper in-reply-to and references headers *)
      let ret_headers := mail_get_headers msgdata "references" in
      match id msgdata with
      | Some msgid =>
          rfc2822_header_field_write "In-Reply-To" msgid ;;;
          match ret_headers with
          | Some (h0 :: _) =>
              rfc2822_header_field_write "References" (h0 ++ " " ++ msgid)
          | _ => rfc2822_header_field_write "References" msgid
          end
      | None =>
          match ret_headers with
          | Some (h0 :: _) => rfc2822_header_field_write "References" h0
          | _ => ret tt
          end
      end ;;;
      rfc2822_header_field_write "Auto-Submitted" "auto-replied (vacation)" ;;;
      rfc2822_header_field_write "Precedence" "bulk" ;;;
      rfc2822_header_field_write "MIME-Version" "1.0" ;;;
      (if negb (Vac.mime ctx) then
         rfc2822_header_field_write "Content-Type" "text/plain; charset=utf-8" ;;;
         rfc2822_header_field_write "Content-Transfer-Encoding" "8bit" ;;;
         smtp_write CRLF
       else ret tt) ;;;
      smtp_write (Vac.reason ctx ++ CRLF) ;;;
      (* Close smtp session *)
      ok <- on_host (fun h => smtp_close h smtp_handle) ;;
      emit (EvSmtpClose smtp_handle ok) ;;;
      if negb ok then
        sieve_result_error
          ("failed to send vacation response to <" ++ str_sanitize rp 128
           ++ "> (refer to server log for more information)") ;;;
        ret true
      else ret true
  | _, _ =>
      sieve_result_warning "vacation action has no means to send mail." ;;;
      ret true
  end.

(** [act_vacation_hash]. *)
Definition act_vacation_hash (vctx : Vac.act_vacation_context) : M hash_t :=
  rp <- deref (return_path msgdata) ;;
  ret (md5 (rp ++ Vac.handle vctx)).

(** "Are we trying to respond to a mailing list?" *)
Definition is_mailinglist_message : bool :=
  existsb (fun hd => match mail_get_headers msgdata hd with
                     | Some (_ :: _) => true
                     | _ => false
                     end) _list_headers.

(** "Is the message that we are replying to an automatic reply?" *)
Definition is_auto_submitted : bool :=
  match mail_get_headers msgdata "auto-submitted" with
  | Some headers => existsb (fun v => negb (CStr.strcasecmp_eq v "no")) headers
  | None => false
  end.

(** "Check for the non-standard precedence header": the first value that is
    junk, bulk or list. *)
Definition precedence_match : option string :=
  match mail_get_headers msgdata "precedence" with
  | Some headers =>
      find (fun v => (CStr.strcasecmp_eq v "junk" || CStr.strcasecmp_eq v "bulk"
                      || CStr.strcasecmp_eq v "list")%bool) headers
  | None => None
  end.

(** The loop [while ( !found && *my_address != NULL )] over [:addresses]. *)
Fixpoint contains_one_of
    (headers : list string) (my_addresses : list string) : option bool :=
  match my_addresses with
  | [] => Some false
  | my_address :: rest =>
      match _contains_my_address headers my_address with
      | None => None
      | Some true => Some true
      | Some false => contains_one_of headers rest
      end
  end.

(** The loop over [_my_address_headers]: [Some true] when it is left by
    [break] ([*hdsp != NULL] afterwards). *)
Fixpoint is_addressed_to_me
    (to : string) (ctx : Vac.act_vacation_context) (hdsp : list string)
    : option bool :=
  match hdsp with
  | [] => Some false
  | hd :: rest =>
      match mail_get_headers_utf8 msgdata hd with
      | Some ((_ :: _) as headers) =>
          match _contains_my_address headers to with
          | None => None
          | Some true => Some true
          | Some false =>
              match Vac.addresses ctx with
              | Some my_addresses =>
                  match contains_one_of headers my_addresses with
                  | None => None
                  | Some true => Some true
                  | Some false => is_addressed_to_me to ctx rest
                  end
              | None => is_addressed_to_me to ctx rest
              end
          end
      | _ => is_addressed_to_me to ctx rest
      end
  end.

(** "Make sure we have a subject for our reply". *)
Definition ensure_subject (ctx : Vac.act_vacation_context)
    : Vac.act_vacation_context :=
  match Vac.subject ctx with
  | Some (String _ _) => ctx
  | _ =>
      match mail_get_headers_utf8 msgdata "subject" with
      | Some (h0 :: _) => Vac.set_subject ctx (Some ("Auto: " ++ h0)%string)
      | _ => Vac.set_subject ctx (Some "Automated reply")
      end
  end.

(** [act_vacation_commit]; [ctx] is the action's [tr_context]. *)
Definition act_vacation_commit (ctx : Vac.act_vacation_context) : M bool :=
  (* Is the return_path unset ? *)
  match return_path msgdata with
  | None | Some EmptyString =>
      sieve_result_log "discarded vacation reply to <>" ;;;
      ret true
  | Some rp =>
      (* Are we perhaps trying to respond to ourselves ? *)
      to <- deref (to_address msgdata) ;;
      if CStr.strcmp_eq rp to then
        sieve_result_log "discarded vacation reply to own address" ;;;
        ret true
      else
        (* Did whe respond to this user before? *)
        checked <-
          match duplicate_check senv with
          | Some duplicate_check =>
              dupl_hash <- act_vacation_hash ctx ;;
              seen <- on_host (fun h => duplicate_check h dupl_hash (username senv)) ;;
              emit (EvDuplicateCheck dupl_hash (username senv) seen) ;;;
              ret (dupl_hash, seen)
          | None => ret (uninitialised_hash, false)
          end ;;
        let (dupl_hash, seen) := checked in
        if seen then
          sieve_result_log
            ("discarded duplicate vacation response to <"
             ++ str_sanitize rp 128 ++ ">") ;;;
          ret true
        (* Are we trying to respond to a mailing list ? *)
        else if is_mailinglist_message then
          sieve_result_log
            ("discarding vacation response to mailinglist recipient <"
             ++ str_sanitize rp 128 ++ ">") ;;;
          ret true
        (* Is the message that we are replying to an automatic reply ? *)
        else if is_auto_submitted then
          sieve_result_log
            ("discardig vacation response to auto-submitted message from <"
             ++ str_sanitize rp 128 ++ ">") ;;;
          ret true
        else
          (* Check for the non-standard precedence header *)
          match precedence_match with
          | Some hd =>
              sieve_result_log
                ("discarding vacation response to precedence=" ++ hd
                 ++ " message from <" ++ str_sanitize rp 128 ++ ">") ;;;
              ret true
          | None =>
              (* Do not reply to system addresses *)
              if _is_system_address rp then
                sieve_result_log
                  ("not sending vacation response to system address <"
                   ++ str_sanitize rp 128 ++ ">") ;;;
                ret true
              else
                (* Is the original message directly addressed to the user or
                   the addresses specified using the :addresses tag? *)
                mine <- lift_option (is_addressed_to_me to ctx _my_address_headers) ;;
                if negb mine then
                  sieve_result_log
                    ("discarding vacation response for message implicitly "
                     ++ "delivered to <"
                     ++ match to_address msgdata with
                        | None => "UNKNOWN"
                        | Some a => a
                        end ++ ">") ;;;
                  ret true
                else
                  (* Make sure we have a subject for our reply *)
                  let ctx := ensure_subject ctx in
                  (* Send the message *)
                  sent <- act_vacation_send ctx ;;
                  if sent then
                    sieve_result_log
                      ("sent vacation response to <" ++ str_sanitize rp 128 ++ ">") ;;;
                    (* Mark as replied *)
                    match duplicate_mark senv with
                    | Some duplicate_mark =>
                        now <- get_time ;;
                        (* ioloop_time + ctx->days * (24 * 60 * 60): the
                           product is taken in sieve_number_t, the type of
                           days; the sum, taken in sieve_number_t or in
                           time_t as the usual arithmetic conversions have
                           it, is passed as a time_t *)
                        let expire :=
                          to_time_t
                            (now + to_sieve_number
                                     (Z.of_N (Vac.days ctx) * (24 * 60 * 60))) in
                        on_host (fun h =>
                          (tt, duplicate_mark h dupl_hash (username senv) expire)) ;;;
                        emit (EvDuplicateMark dupl_hash (username senv) expire)
                    | None => ret tt
                    end ;;;
                    ret true
                  else ret false
          end
  end.

End Commit.
End Operation.
End Vacation.

(* ===================================================================== *)
(** * The duplicate extension ([ext-duplicate-common.c]) *)
(* ===================================================================== *)

Module Duplicate.
Section Ext.
Context `{Externals}.

(** The action object [act_duplicate_mark]: only [name], [print] and
    [finish] are set, so its flags are zero. *)
Definition act_duplicate_mark : sieve_action :=
  {| name := "duplicate_mark"; flags := 0 |}.

(** Modelled from the spec: [sieve_action_duplicate_mark], the wrapper of
    [sieve-actions.c] around the host's
    [duplicate_mark(hash, user, expire_unix)] (§6), is not among the sources
    at hand.  It forwards to the host callback when the host provides one
    ("any field may be absent"). *)
Definition sieve_action_duplicate_mark
    (senv : sieve_script_env host_state) (h : hash_t) (time : Z) : M unit :=
  match duplicate_mark senv with
  | Some duplicate_mark =>
      on_host (fun hs => (tt, duplicate_mark hs h (username senv) time)) ;;;
      emit (EvDuplicateMark h (username senv) time)
  | None => ret tt
  end.

(** Modelled from the spec: [sieve_action_duplicate_check], the wrapper
    around the host's [duplicate_check(hash, user) -> bool] (§6); without
    the callback the answer is FALSE. *)
Definition sieve_action_duplicate_check
    (senv : sieve_script_env host_state) (h : hash_t) : M bool :=
  match duplicate_check senv with
  | Some duplicate_check =>
      seen <- on_host (fun hs => duplicate_check hs h (username senv)) ;;
      emit (EvDuplicateCheck h (username senv) seen) ;;;
      ret seen
  | None => ret false
  end.

(** ** Duplicate_mark action *)

(** [act_duplicate_mark_finish]; [data] is [action->context]. *)
Definition act_duplicate_mark_finish
    (senv : sieve_script_env host_state)
    (data : Dup.act_duplicate_mark_data) (status : Z) : M unit :=
  if status =? SIEVE_EXEC_OK then
    (* Message was handled successfully, so track duplicate for this
       message. *)
    now <- get_time ;;
    sieve_action_duplicate_mark senv (Dup.hash data) (now + Dup.period data)
  else ret tt.

(** ** Duplicate checking *)

(** [ext_duplicate_hash]: the digest of the identifier, the [:last] marker,
    the handle and the value. *)
Definition ext_duplicate_hash
    (handle : option string) (value : string) (last : bool) : hash_t :=
  md5 ("sieve duplicate"
       ++ (if last then "0" else "+")
       ++ match handle with
          | Some h => "h-" ++ h
          | None => "default"
          end
       ++ value).

(** The [array_foreach] over the cached handles: the verdict of the first
    record with this handle and this [last] flag. *)
Fixpoint handles_lookup
    (records : list Dup.ext_duplicate_handle) (handle : string) (last : bool)
    : option bool :=
  match records with
  | [] => None
  | record :: rest =>
      if (CStr.strcmp_eq (Dup.record_handle record) handle
          && Bool.eqb (Dup.record_last record) last)%bool
      then Some (Dup.record_duplicate record)
      else handles_lookup rest handle last
  end.

(** "find out whether duplicate was checked earlier" in an existing
    context. *)
Definition cached_verdict
    (rctx : Dup.ext_duplicate_context) (handle : option string) (last : bool)
    : option bool :=
  match handle with
  | None =>
      if Dup.nohandle_checked rctx then Some (Dup.nohandle_duplicate rctx)
      else None
  | Some h =>
      match Dup.handles rctx with
      | Some records => handles_lookup records h last
      | None => None
      end
  end.

(** "Cache result". *)
Definition cache_result
    (rctx : Dup.ext_duplicate_context) (handle : option string) (last : bool)
    (duplicate : bool) : Dup.ext_duplicate_context :=
  match handle with
  | None =>
      {| Dup.handles := Dup.handles rctx;
         Dup.nohandle_duplicate := duplicate;
         Dup.nohandle_checked := true |}
  | Some h =>
      let record :=
        {| Dup.record_handle := h; Dup.record_last := last;
           Dup.record_duplicate := duplicate |} in
      {| Dup.handles :=
           Some (match Dup.handles rctx with
                 | Some records => (records ++ [record])%list
                 | None => [record]
                 end);
         Dup.nohandle_duplicate := Dup.nohandle_duplicate rctx;
         Dup.nohandle_checked := Dup.nohandle_checked rctx |}
  end.

Definition bool_to_int (b : bool) : Z := if b then 1 else 0.

(** A context fresh from [p_new]: zeroed. *)
Definition empty_context : Dup.ext_duplicate_context :=
  {| Dup.handles := None; Dup.nohandle_duplicate := false;
     Dup.nohandle_checked := false |}.

(** [ext_duplicate_check].  [value_len] is the length of [value]; [period]
    is narrowed to the [unsigned int] field of the action data. *)
Definition ext_duplicate_check
    (senv : sieve_script_env host_state)
    (handle : option string) (value : option string) (period : N)
    (last : bool) : M Z :=
  if negb (sieve_action_duplicate_check_available senv) then
    sieve_runtime_warning None
      ("duplicate test: "
       ++ "duplicate checking not available in this context") ;;;
    ret 0
  else
    match value with
    | None => ret 0
    | Some value =>
        (* Get context; find out whether duplicate was checked earlier *)
        found <- get_msgctx ;;
        lookup <-
          match found with
          | None =>
              (* Create context *)
              let rctx := empty_context in
              set_msgctx rctx ;;;
              ret (rctx, None)
          | Some rctx => ret (rctx, cached_verdict rctx handle last)
          end ;;
        let (rctx, cached) := lookup in
        match cached with
        | Some duplicate =>
            (* Already checked for duplicate *)
            ret (bool_to_int duplicate)
        | None =>
            let act :=
              {| Dup.handle := handle;
                 Dup.period := Z.of_N period mod 2 ^ 32;
                 Dup.last := last;
                 (* Create hash *)
                 Dup.hash := ext_duplicate_hash handle value last |} in
            (* Check duplicate *)
            duplicate <- sieve_action_duplicate_check senv (Dup.hash act) ;;
            (if (negb duplicate && last)%bool then
               (* Check for entry without :last *)
               sieve_action_duplicate_check senv
                 (ext_duplicate_hash handle value false) ;;;
               ret tt
             else ret tt) ;;;
            (* We may only mark the message as duplicate when Sieve script
               executes successfully; therefore defer this operation until
               successful result execution. *)
            failed <-
              (if (negb duplicate || last)%bool then
                 r <- sieve_result_add_action
                        {| req_action := act_duplicate_mark;
                           req_source_line := None;
                           req_context := CtxDuplicateMark act |} ;;
                 ret (r <? 0)
               else ret false) ;;
            if failed then ret (-1)
            else
              (* Cache result *)
              set_msgctx (cache_result rctx handle last duplicate) ;;;
              ret (bool_to_int duplicate)
        end
    end.

(** The worlds that can follow [w] while one message is processed: any
    number of calls of [ext_duplicate_check], whatever their arguments, and
    any other activity, which leaves the per-message context of the
    duplicate extension alone. *)
Inductive later : world -> world -> Prop :=
| later_refl w : later w w
| later_check w w1 w2 senv handle value period last r :
    later w w1 ->
    ext_duplicate_check senv handle value period last w1 = Some (r, w2) ->
    later w w2
| later_other w w1 w2 :
    later w w1 -> w_msgctx w2 = w_msgctx w1 -> later w w2.

End Ext.
End Duplicate.

(* ===================================================================== *)
(** * The ADDRESS test ([tst-address.c]) *)
(* ===================================================================== *)

Module AddressTest.

(** ** The match engine

    The comparator, match-type and address-part objects and the functions
    [sieve_match_begin], [sieve_address_match] and [sieve_match_end] live in
    [sieve-comparators.c], [sieve-match-types.c] and
    [sieve-address-parts.c], which are not among the sources at hand. *)

(** Modelled from the spec: a comparator (§4.6) with its [equals]
    capability, the one the [:is] match type uses. *)
Record sieve_comparator := {
  cmp_identifier : string;
  cmp_equals : string -> string -> bool
}.

(** Modelled from the spec: the built-in comparator [i;octet] compares
    octet by octet. *)
Definition i_octet_comparator : sieve_comparator :=
  {| cmp_identifier := "i;octet"; cmp_equals := String.eqb |}.

(** Modelled from the spec: the built-in comparator [i;ascii-casemap]
    compares after folding the case of ASCII letters. *)
Definition i_ascii_casemap_comparator : sieve_comparator :=
  {| cmp_identifier := "i;ascii-casemap"; cmp_equals := CStr.strcasecmp_eq |}.

(** Modelled from the spec: a match type (§4.6) exposes
    [match(ctx, value) -> bool] and [match_finalize(ctx) -> bool], the final
    verdict of accumulating types.  The context gives it the comparator, the
    keys and the values seen so far. *)
Record sieve_match_type := {
  mt_identifier : string;
  mt_match : sieve_comparator -> list string -> list string -> string -> bool;
  mt_finalize : sieve_comparator -> list string -> list string -> bool
}.

(** Modelled from the spec: [:is] holds when the value equals one of the
    keys under the comparator; it accumulates nothing. *)
Definition is_match_type : sieve_match_type :=
  {| mt_identifier := "is";
     mt_match := fun cmp keys _ value => existsb (cmp_equals cmp value) keys;
     mt_finalize := fun _ _ _ => false |}.

(** Modelled from the spec: an address part (§4.6) returns the part string
    of an address, or nothing (the address is skipped). *)
Record sieve_address_part := {
  ap_identifier : string;
  ap_extract : message_address -> option string
}.

(** Modelled from the spec: [:all] is [local@domain]. *)
Definition all_address_part : sieve_address_part :=
  {| ap_identifier := "all";
     ap_extract := fun a =>
       match mailbox a, domain a with
       | Some m, Some d => Some (m ++ "@" ++ d)%string
       | _, _ => None
       end |}.

(** Modelled from the spec: the match context (§3), per-test state
    [{ comparator, match_type, key_list, accumulator }]. *)
Record sieve_match_context := {
  mctx_match_type : sieve_match_type;
  mctx_comparator : sieve_comparator;
  mctx_keys : list string;
  mctx_seen : list string
}.

(** The optional operands of an address-match test and the iteration over
    a coded string list, as the binary yields them. *)
Class AddrMatchReader `{BinaryReader} := {
  (** [sieve_addrmatch_default_get_optionals]: [None] when it returns
      FALSE; otherwise the advanced address and, for each of its three
      out-parameters, the object it stored there ([None]: the operand is
      not present and the caller's value is left as it was). *)
  sieve_addrmatch_default_get_optionals :
    sieve_binary -> N ->
    option (N * option sieve_address_part * option sieve_match_type
            * option sieve_comparator);
  (** The items [sieve_coded_stringlist_next_item] yields until the end of
      the list (or until it fails). *)
  sieve_coded_stringlist_items : sieve_coded_stringlist -> list string
}.

Section Test.
Context `{Externals} `{AddrMatchReader}.

(** Modelled from the spec: [sieve_match_begin] ([match_init(ctx, keys)]). *)
Definition sieve_match_begin
    (mtch : sieve_match_type) (cmp : sieve_comparator)
    (key_list : sieve_coded_stringlist) : sieve_match_context :=
  {| mctx_match_type := mtch; mctx_comparator := cmp;
     mctx_keys := sieve_coded_stringlist_items key_list; mctx_seen := [] |}.

(** Modelled from the spec: one value fed into the match type. *)
Definition sieve_match_value
    (mctx : sieve_match_context) (value : string)
    : bool * sieve_match_context :=
  (mt_match (mctx_match_type mctx) (mctx_comparator mctx) (mctx_keys mctx)
     (mctx_seen mctx) value,
   {| mctx_match_type := mctx_match_type mctx;
      mctx_comparator := mctx_comparator mctx;
      mctx_keys := mctx_keys mctx;
      mctx_seen := (mctx_seen mctx ++ [value])%list |}).

(** Modelled from the spec: [sieve_match_end] ([match_finalize(ctx)]). *)
Definition sieve_match_end (mctx : sieve_match_context) : bool :=
  mt_finalize (mctx_match_type mctx) (mctx_comparator mctx) (mctx_keys mctx)
    (mctx_seen mctx).

(** Modelled from the spec: [sieve_address_match] on the addresses of one
    header value: "for each, project via address-part; feed into match-type
    with comparator; bail early on match" (§4.6). *)
Fixpoint address_list_match
    (addrp : sieve_address_part) (mctx : sieve_match_context)
    (addrs : list message_address) : bool * sieve_match_context :=
  match addrs with
  | [] => (false, mctx)
  | a :: rest =>
      match ap_extract addrp a with
      | None => address_list_match addrp mctx rest
      | Some part =>
          let (matched, mctx) := sieve_match_value mctx part in
          if matched then (true, mctx)
          else address_list_match addrp mctx rest
      end
  end.

(** Modelled from the spec: [sieve_address_match]: "parse header value into
    list of addresses" and match them. *)
Definition sieve_address_match
    (addrp : sieve_address_part) (mctx : sieve_match_context)
    (header : string) : bool * sieve_match_context :=
  address_list_match addrp mctx (message_address_parse header).

(** [for ( i = 0; !matched && headers[i] != NULL; i++ )]. *)
Fixpoint headers_match
    (addrp : sieve_address_part) (mctx : sieve_match_context)
    (headers : list string) : bool * sieve_match_context :=
  match headers with
  | [] => (false, mctx)
  | hd :: rest =>
      let (matched, mctx) := sieve_address_match addrp mctx hd in
      if matched then (true, mctx) else headers_match addrp mctx rest
  end.

(** "Iterate through all requested headers to match". *)
Fixpoint hdr_list_match
    (msgdata : sieve_message_data)
    (addrp : sieve_address_part) (mctx : sieve_match_context)
    (hdr_items : list string) : bool * sieve_match_context :=
  match hdr_items with
  | [] => (false, mctx)
  | hdr_item :: rest =>
      match mail_get_headers_utf8 msgdata hdr_item with
      | Some headers =>
          let (matched, mctx) := headers_match addrp mctx headers in
          if matched then (true, mctx)
          else hdr_list_match msgdata addrp mctx rest
      | None => hdr_list_match msgdata addrp mctx rest
      end
  end.

(** The matching part of [tst_address_opcode_execute], from "Initialize
    match context" to the value given to
    [sieve_interpreter_set_test_result]. *)
Definition address_match_run
    (msgdata : sieve_message_data)
    (addrp : sieve_address_part) (mtch : sieve_match_type)
    (cmp : sieve_comparator)
    (hdr_list key_list : sieve_coded_stringlist) : bool :=
  (* Initialize match context *)
  let mctx := sieve_match_begin mtch cmp key_list in
  (* Iterate through all requested headers to match *)
  let (matched, mctx) :=
    hdr_list_match msgdata addrp mctx (sieve_coded_stringlist_items hdr_list) in
  (sieve_match_end mctx || matched)%bool.

Definition or_default {A} (o : option A) (d : A) : A :=
  match o with Some a => a | None => d end.

(** [tst_address_opcode_execute].  [None] is the FALSE return; [Some b] is
    the TRUE return with the test result set to [b].  (The debugging
    [printf] of the source is left out.) *)
Definition tst_address_opcode_execute
    (msgdata : sieve_message_data) (sbin : sieve_binary) (address : N)
    : option bool :=
  let cmp := i_octet_comparator in
  let mtch := is_match_type in
  let addrp := all_address_part in
  match sieve_addrmatch_default_get_optionals sbin address with
  | None => None
  | Some (address, o_addrp, o_mtch, o_cmp) =>
      let addrp := or_default o_addrp addrp in
      let mtch := or_default o_mtch mtch in
      let cmp := or_default o_cmp cmp in
      (* Read header-list *)
      match sieve_opr_stringlist_read sbin address with
      | None => None
      | Some (hdr_list, address) =>
          (* Read key-list *)
          match sieve_opr_stringlist_read sbin address with
          | None => None
          | Some (key_list, address) =>
              Some (address_match_run msgdata addrp mtch cmp hdr_list key_list)
          end
      end
  end.

(** ** The default match, said directly *)

(** An address equals one of the keys, octet by octet. *)
Definition address_is_key (keys : list string) (a : message_address) : bool :=
  match mailbox a, domain a with
  | Some m, Some d => existsb (String.eqb (m ++ "@" ++ d)) keys
  | _, _ => false
  end.

(** Some address of some value of some listed header is one of the keys. *)
Definition some_address_is_key
    (msgdata : sieve_message_data) (hdr_items keys : list string) : bool :=
  existsb
    (fun hdr_item =>
       match mail_get_headers_utf8 msgdata hdr_item with
       | Some headers =>
           existsb
             (fun hd => existsb (address_is_key keys) (message_address_parse hd))
             headers
       | None => false
       end)
    hdr_items.

(** A match context of [:is] under [i;octet] with the keys [keys]. *)
Definition is_octet_context
    (keys : list string) (mctx : sieve_match_context) : Prop :=
  mctx_match_type mctx = is_match_type /\
  mctx_comparator mctx = i_octet_comparator /\
  mctx_keys mctx = keys.

End Test.
End AddressTest.

(* ===================================================================== *)
(** * A concrete host and a concrete binary

    One implementation of the collaborators, small enough to run the
    embedded functions on examples: the binary is a sequence of already
    separated operands, the duplicate database is the list of the marks
    made so far, MD5 is replaced by the identity and mail is always
    accepted by the SMTP client. *)
(* ===================================================================== *)

Module Demo.

(** The duplicate database: the marks recorded so far. *)
Definition database : Type := list (hash_t * option string * Z).

Definition user_eqb (a b : option string) : bool :=
  match a, b with
  | Some x, Some y => String.eqb x y
  | None, None => true
  | _, _ => false
  end.

Definition db_check (db : database) (h : hash_t) (user : option string)
    : bool * database :=
  (existsb (fun '(h', user', _) => (String.eqb h h' && user_eqb user user')%bool) db,
   db).

Definition db_mark (db : database) (h : hash_t) (user : option string)
    (expire : Z) : database :=
  (h, user, expire) :: db.

(** A host with every capability. *)
Definition full_senv : sieve_script_env database :=
  {| username := Some "jane";
     smtp_open := Some (fun db _ => (1%N, db));
     smtp_close := Some (fun db _ => (true, db));
     duplicate_check := Some db_check;
     duplicate_mark := Some db_mark |}.

(** A host without SMTP and without a duplicate database. *)
Definition bare_senv : sieve_script_env database :=
  {| username := Some "jane";
     smtp_open := None;
     smtp_close := None;
     duplicate_check := None;
     duplicate_mark := None |}.

Fixpoint split_at (c : ascii) (s : string) : option (string * string) :=
  match s with
  | EmptyString => None
  | String x rest =>
      if Ascii.eqb x c then Some (EmptyString, rest)
      else match split_at c rest with
           | Some (a, b) => Some (String x a, b)
           | None => None
           end
  end.

(** A header value that is one bare address [local@domain]. *)
Definition parse_bare_address (s : string) : list message_address :=
  match split_at "@"%char s with
  | Some (m, d) => [{| mailbox := Some m; domain := Some d |}]
  | None => [{| mailbox := Some s; domain := None |}]
  end.

Definition externals : Externals :=
  {| host_state := database;
     SIEVE_EXEC_OK := 1;
     SIEVE_EXEC_BIN_CORRUPT := -1;
     SIEVE_ACTFLAG_SENDS_RESPONSE := 2;
     SIEVE_IMPLEMENTATION := "sieve";
     md5 := fun s => s;
     str_sanitize := fun s _ => s;
     message_address_parse := parse_bare_address;
     message_date_create := fun _ => "now";
     sieve_address_normalize := fun s => inl s;
     sieve_error_script_location := fun _ => "line";
     sieve_message_get_new_id := fun db => ("<new-id>", db);
     sieve_action_duplicate_check_available := fun senv =>
       match duplicate_check senv with Some _ => true | None => false end;
     sieve_result_add_action_impl := fun db _ => (0, db);
     uninitialised_hash := "";
     sieve_number_bits := 64;
     time_t_bits := 64 |}.

(** One separately readable unit of the code. *)
Inductive cell :=
| CSourceLine (line : N)
| COptionalBlock
| COptCode (code : Z)
| CNumber (n : N)
| CString (s : string)
| CStringList (l : list string).

Definition cell_at (sbin : list cell) (address : N) : option cell :=
  nth_error sbin (N.to_nat address).

Definition reader : BinaryReader :=
  {| sieve_binary := list cell;
     sieve_coded_stringlist := list string;
     sieve_code_source_line_read := fun sbin a =>
       match cell_at sbin a with
       | Some (CSourceLine n) => Some (n, (a + 1)%N)
       | _ => None
       end;
     sieve_operand_optional_present := fun sbin a =>
       match cell_at sbin a with
       | Some COptionalBlock => (true, (a + 1)%N)
       | _ => (false, a)
       end;
     sieve_operand_optional_read := fun sbin a =>
       match cell_at sbin a with
       | Some (COptCode c) => Some (c, (a + 1)%N)
       | _ => None
       end;
     sieve_opr_number_read := fun sbin a =>
       match cell_at sbin a with
       | Some (CNumber n) => Some (n, (a + 1)%N)
       | _ => None
       end;
     sieve_opr_string_read := fun sbin a =>
       match cell_at sbin a with
       | Some (CString s) => Some (s, (a + 1)%N)
       | _ => None
       end;
     sieve_opr_stringlist_read := fun sbin a =>
       match cell_at sbin a with
       | Some (CStringList l) => Some (l, (a + 1)%N)
       | _ => None
       end;
     sieve_coded_stringlist_read_all := fun l => Some l |}.

(** An address test compiled without optional operands. *)
Definition addrmatch_reader : @AddressTest.AddrMatchReader reader :=
  @AddressTest.Build_AddrMatchReader reader
    (fun _ a => Some (a, None, None, None))
    (fun l : list string => l).

Definition world0 : @world externals :=
  @Build_world externals [] [] None 1000.

(** A message from [root@host] delivered to [jane@example.org]. *)
Definition message : sieve_message_data :=
  {| mail_get_headers := fun hd =>
       if String.eqb hd "references" then Some [] else Some [];
     mail_get_headers_utf8 := fun hd =>
       if String.eqb hd "from" then Some ["root@host"]
       else if String.eqb hd "to" then Some ["jane@example.org"]
       else Some [];
     return_path := Some "root@host";
     to_address := Some "jane@example.org";
     id := Some "<msg-1>" |}.

(** A bounce: the same message without a return path. *)
Definition bounce : sieve_message_data :=
  {| mail_get_headers := mail_get_headers message;
     mail_get_headers_utf8 := mail_get_headers_utf8 message;
     return_path := None;
     to_address := to_address message;
     id := id message |}.

(** A message the recipient sent to herself. *)
Definition own_message : sieve_message_data :=
  {| mail_get_headers := mail_get_headers message;
     mail_get_headers_utf8 := mail_get_headers_utf8 message;
     return_path := Some "jane@example.org";
     to_address := Some "jane@example.org";
     id := id message |}.

(** [vacation :days 0 :subject "Away" "I am away"] with handle ["h1"]. *)
Definition vacation_code : list cell :=
  [CSourceLine 3; COptionalBlock; COptCode 1; CNumber 0;
   COptCode 2; CString "Away"; COptCode 0;
   CString "I am away"; CString "h1"].

(** The same operation with an optional code that no tag owns. *)
Definition corrupt_code : list cell :=
  [CSourceLine 3; COptionalBlock; COptCode 1; CNumber 7;
   COptCode 9; CString "Away"; COptCode 0;
   CString "I am away"; CString "h1"].

(** [address "from" "ROOT@HOST"] without optional operands. *)
Definition address_code : list cell :=
  [CStringList ["from"]; CStringList ["ROOT@HOST"]].

(** The world after a reply to [root@host] was recorded. *)
Definition world_replied : @world externals :=
  @Build_world externals [("root@hosth1", Some "jane", 605800)] [] None 2000.

(** The world in which the value ["v"] was already tracked under the
    handle ["h"]. *)
Definition world_tracked : @world externals :=
  @Build_world externals [("sieve duplicate+h-hv", Some "jane", 5000)] [] None 2000.

Definition vacation_ctx : Vac.act_vacation_context :=
  {| Vac.reason := "I am away"; Vac.days := 7%N; Vac.subject := Some "Away";
     Vac.handle := "h1"; Vac.mime := false; Vac.from := None;
     Vac.from_normalized := None; Vac.addresses := None |}.

End Demo.

(* ===================================================================== *)
(** * The vacation command: validation ([cmd-vacation.c]) *)
(* ===================================================================== *)

Module VacationCommand.
Import Ast.

(** [struct cmd_vacation_context_data], the command's validation context:
    what the tag validators leave for [cmd_vacation_validate] and
    [cmd_vacation_generate]. *)
Record cmd_vacation_context_data := {
  from : option string;
  subject : option string;
  mime : bool;
  handle : option string
}.

(** The services of the validator that [cmd_vacation_validate] calls
    ([sieve-validator.c]); they answer TRUE or FALSE. *)
Class ValidatorServices := {
  sieve_validate_positional_argument :
    option sieve_ast_argument -> string -> N -> sieve_ast_argument_type -> bool;
  sieve_validator_argument_activate : option sieve_ast_argument -> bool
}.

(** [cmd_vacation_pre_validate]: the context fresh from [p_new], zeroed. *)
Definition cmd_vacation_pre_validate : cmd_vacation_context_data :=
  {| from := None; subject := None; mime := false; handle := None |}.

Definition _handle_empty_subject : string := "<default-subject>".
Definition _handle_empty_from : string := "<default-from>".
Definition _handle_mime_enabled : string := "<MIME>".
Definition _handle_mime_disabled : string := "<NO-MIME>".

(** [sizeof] of a [char] array initialised with a string literal: its
    characters and the terminating NUL. *)
Definition sizeof (literal : string) : Z := Z.of_nat (String.length literal) + 1.

(** [str_len]. *)
Definition str_len (s : string) : Z := Z.of_nat (String.length s).

(** Conversion to [unsigned int]. *)
Definition to_unsigned_int (z : Z) : Z := z mod 2 ^ 32.

(** [sieve_ast_argument_str(arg)], read after the type check. *)
Definition sieve_ast_argument_str (arg : option sieve_ast_argument) : string :=
  match arg with
  | Some (ArgString s) => s
  | _ => EmptyString
  end.

(** [str_new(pool, initial_size)]: an empty string buffer; the size is the
    room it starts with. *)
Definition str_new (initial_size : Z) : string := EmptyString.

(** [str_append] and [str_append_str]. *)
Definition str_append (s : string) (cstr : string) : string := s ++ cstr.
Definition str_append_str (s : string) (other : string) : string := s ++ other.

(** "Precalculate the size of it all": the [unsigned int size] of
    [cmd_vacation_validate] after its four assignments. *)
Definition handle_size
    (reason : string) (ctx_data : cmd_vacation_context_data) : Z :=
  let size := to_unsigned_int (str_len reason) in
  let size :=
    to_unsigned_int
      (size + match subject ctx_data with
              | None => sizeof _handle_empty_subject - 1
              | Some s => str_len s
              end) in
  let size :=
    to_unsigned_int
      (size + match from ctx_data with
              | None => sizeof _handle_empty_from - 1
              | Some f => str_len f
              end) in
  let size :=
    to_unsigned_int
      (size + if mime ctx_data
              then sizeof _handle_mime_enabled - 1
              else sizeof _handle_mime_disabled - 1) in
  size.

Section Validate.
Context `{ValidatorServices}.

(** [cmd_vacation_validate]; [arg] is [cmd->first_positional], [ctx_data]
    is [cmd->data].  [None] is the FALSE return, [Some] the context after a
    TRUE return. *)
Definition cmd_vacation_validate
    (arg : option sieve_ast_argument) (ctx_data : cmd_vacation_context_data)
    : option cmd_vacation_context_data :=
  if negb (sieve_validate_positional_argument arg "reason" 1%N SAAT_STRING)
  then None
  else if negb (sieve_validator_argument_activate arg) then None
  else
    (* Construct handle if not set explicitly *)
    match handle ctx_data with
    | None =>
        let reason := sieve_ast_argument_str arg in
        (* Precalculate the size of it all *)
        let size := handle_size reason ctx_data in
        (* Construct the string *)
        let h := str_new size in
        let h := str_append_str h reason in
        let h :=
          match subject ctx_data with
          | Some s => str_append_str h s
          | None => str_append h _handle_empty_subject
          end in
        let h :=
          match from ctx_data with
          | Some f => str_append_str h f
          | None => str_append h _handle_empty_from
          end in
        let h :=
          str_append h (if mime ctx_data then _handle_mime_enabled
                        else _handle_mime_disabled) in
        Some {| from := from ctx_data; subject := subject ctx_data;
                mime := mime ctx_data; handle := Some h |}
    | Some _ => Some ctx_data
    end.

End Validate.
End VacationCommand.

(* ===================================================================== *)
(** * The LDA plugin ([lda-sieve-plugin.c]) *)
(* ===================================================================== *)

Module LdaSieve.

(** [struct sieve_message_data] as [lda_sieve_run] fills it in. *)
Record message_data (mail : Type) := {
  msg_mail : mail;
  msg_return_path : option string;
  msg_to_address : option string;
  msg_auth_user : option string;
  msg_id : option string
}.
Arguments msg_mail {mail} _.
Arguments msg_return_path {mail} _.
Arguments msg_to_address {mail} _.
Arguments msg_auth_user {mail} _.
Arguments msg_id {mail} _.

(** The functions that [lda_sieve_run] hands to the library. *)
Inductive callback :=
| lda_sieve_smtp_open
| lda_sieve_smtp_close
| duplicate_mark
| duplicate_check.

(** [struct sieve_script_env] as [lda_sieve_run] fills it in; a function
    pointer left NULL is [None]. *)
Record script_env (namespaces : Type) := {
  env_inbox : option string;
  env_namespaces : namespaces;
  env_username : option string;
  env_hostname : option string;
  env_postmaster_address : option string;
  env_smtp_open : option callback;
  env_smtp_close : option callback;
  env_duplicate_mark : option callback;
  env_duplicate_check : option callback
}.
Arguments env_inbox {namespaces} _.
Arguments env_namespaces {namespaces} _.
Arguments env_username {namespaces} _.
Arguments env_hostname {namespaces} _.
Arguments env_postmaster_address {namespaces} _.
Arguments env_smtp_open {namespaces} _.
Arguments env_smtp_close {namespaces} _.
Arguments env_duplicate_mark {namespaces} _.
Arguments env_duplicate_check {namespaces} _.

(** The process the plugin runs in: its environment variables and the
    files it can see.  [stat path] is [None] when [stat] succeeds, and the
    [errno] it leaves when it returns [< 0]. *)
Record process := {
  getenv : string -> option string;
  stat : string -> option Z
}.

(** The parts of the LDA, of the C library and of the Sieve library that
    the plugin calls. *)
Class Deliver := {
  ENOENT : Z;
  home_expand : string -> string;
  (** The text of [%m] for an [errno]. *)
  strerror : Z -> string;
  mail : Type;
  mail_namespaces : Type;
  deliver_get_return_address : mail -> option string;
  mail_get_first_header : mail -> string -> option string;
  (** [deliver_set->hostname] and [deliver_set->postmaster_address]. *)
  deliver_set_hostname : option string;
  deliver_set_postmaster_address : option string;
  (** [sieve_open]: whether a binary was obtained for the script. *)
  sieve_open : string -> bool;
  (** [sieve_execute] on the binary of the script. *)
  sieve_execute :
    string -> message_data mail -> script_env mail_namespaces -> Z
}.

(** What the plugin does that is visible outside it: lines for the log,
    and the calls into the Sieve library with their results. *)
Inductive lda_event `{Deliver} :=
| I_error (msg : string)
| I_info (msg : string)
| SieveOpen (script_path : string) (opened : bool)
| SieveExecute (script_path : string) (msgdata : message_data mail)
    (scriptenv : script_env mail_namespaces) (ret : Z).

Definition SIEVE_SCRIPT_PATH : string := "~/.dovecot.sieve".

(** [*s == c] for a C string [s]. *)
Definition first_char_is (s : string) (c : ascii) : bool :=
  match s with
  | String x _ => Ascii.eqb x c
  | EmptyString => false
  end.

(** [*s == '\0']. *)
Definition is_empty (s : string) : bool :=
  match s with
  | EmptyString => true
  | String _ _ => false
  end.

(** [lda_sieve_smtp_close]: TRUE when [smtp_client_close] is not negative. *)
Definition lda_sieve_smtp_close_result (smtp_client_close : Z) : bool :=
  smtp_client_close >=? 0.

Section Plugin.
Context `{Deliver}.
Variable proc : process.

(** The second half of [lda_sieve_get_path], from [stat] on. *)
Definition script_or_global (script_path : string)
    : list lda_event * option string :=
  match stat proc script_path with
  | Some errno =>
      ((if negb (errno =? ENOENT)
        then [I_error ("stat(" ++ script_path ++ ") failed: " ++ strerror errno)]
        else []),
       (* use global script instead, if one exists *)
       match getenv proc "SIEVE_GLOBAL_PATH" with
       | Some script_path => Some script_path
       | None =>
           (* for backwards compatibility *)
           getenv proc "GLOBAL_SCRIPT_PATH"
       end)
  | None => ([], Some script_path)
  end.

(** [lda_sieve_get_path]: the lines it logs and the path it returns.  The
    outer [None] is the one call the sources at hand do not determine:
    [t_strconcat] with NULL as its first string, for a relative path when
    HOME is not set. *)
Definition lda_sieve_get_path : option (list lda_event * option string) :=
  let home := getenv proc "HOME" in
  (* userdb may specify Sieve path *)
  match getenv proc "SIEVE" with
  | Some script_path =>
      if is_empty script_path then
        (* disabled *)
        Some ([], None)
      else
        let script_path := home_expand script_path in
        if (negb (first_char_is script_path "/")
            && negb (is_empty script_path))%bool
        then
          (* relative path. change to absolute. *)
          match getenv proc "HOME" with
          | Some h => Some (script_or_global (h ++ "/" ++ script_path))
          | None => None
          end
        else Some (script_or_global script_path)
  | None =>
      match home with
      | None =>
          Some ([I_error ("Per-user script path is unknown. See "
                          ++ "http://wiki.dovecot.org/LDA/Sieve#location")],
                None)
      | Some _ => Some (script_or_global (home_expand SIEVE_SCRIPT_PATH))
      end
  end.

(** [lda_sieve_run]: what it logs and calls, and the value it returns. *)
Definition lda_sieve_run
    (namespaces : mail_namespaces) (m : mail) (script_path : string)
    (destaddr username mailbox : option string)
    : list lda_event * Z :=
  let debug :=
    match getenv proc "DEBUG" with Some _ => true | None => false end in
  let scriptlog := (script_path ++ ".log")%string in
  let opening :=
    if debug then [I_info ("sieve: Opening script " ++ script_path)] else [] in
  if negb (sieve_open script_path) then
    (opening
     ++ [SieveOpen script_path false;
         I_error ("sieve: Failed to open script. "
                  ++ "Log should be available as " ++ scriptlog)],
     -1)
  else
    (* Collect necessary message data *)
    let msgdata :=
      {| msg_mail := m;
         msg_return_path := deliver_get_return_address m;
         msg_to_address := destaddr;
         msg_auth_user := username;
         msg_id := mail_get_first_header m "Message-ID" |} in
    let scriptenv :=
      {| env_inbox := mailbox;
         env_namespaces := namespaces;
         env_username := username;
         env_hostname := deliver_set_hostname;
         env_postmaster_address := deliver_set_postmaster_address;
         env_smtp_open := Some lda_sieve_smtp_open;
         env_smtp_close := Some lda_sieve_smtp_close;
         env_duplicate_mark := Some duplicate_mark;
         env_duplicate_check := Some duplicate_check |} in
    let executing :=
      if debug
      then [I_info ("sieve: Executing (in-memory) script " ++ script_path)]
      else [] in
    let ret := sieve_execute script_path msgdata scriptenv in
    (opening ++ [SieveOpen script_path true] ++ executing
     ++ [SieveExecute script_path msgdata scriptenv ret]
     ++ (if ret <? 0
         then [I_error ("sieve: Failed to execute script " ++ script_path)]
         else []),
     ret).

(** [lda_sieve_deliver_mail]. *)
Definition lda_sieve_deliver_mail
    (namespaces : mail_namespaces) (m : mail)
    (destaddr mailbox : option string)
    : option (list lda_event * Z) :=
  match lda_sieve_get_path with
  | None => None
  | Some (log, None) => Some (log, 0)
  | Some (log, Some script_path) =>
      let path_line :=
        match getenv proc "DEBUG" with
        | Some _ => [I_info ("sieve: Using sieve path: " ++ script_path)]
        | None => []
        end in
      let (ran, ret) :=
        lda_sieve_run namespaces m script_path destaddr (getenv proc "USER")
          mailbox in
      Some (log ++ path_line ++ ran, if ret >=? 0 then 1 else -1)
  end.

End Plugin.

(** A [deliver_mail_func_t *]: the plugin's own function, or another one
    (NULL included). *)
Inductive deliver_mail_func :=
| lda_sieve_deliver_mail_func
| other_deliver_mail_func (which : N).

(** The two function pointers the plugin reads and writes: the LDA's
    [deliver_mail] hook and the plugin's [next_deliver_mail]. *)
Record hooks := {
  deliver_mail : deliver_mail_func;
  next_deliver_mail : deliver_mail_func
}.

(** [sieve_plugin_init], on the hooks. *)
Definition sieve_plugin_init (s : hooks) : hooks :=
  {| next_deliver_mail := deliver_mail s;
     deliver_mail := lda_sieve_deliver_mail_func |}.

(** [sieve_plugin_deinit], on the hooks. *)
Definition sieve_plugin_deinit (s : hooks) : hooks :=
  {| deliver_mail := next_deliver_mail s;
     next_deliver_mail := next_deliver_mail s |}.

End LdaSieve.

(* ===================================================================== *)
(** * Vocabulary of the further properties *)
(* ===================================================================== *)

(** The opening or the closing of an SMTP session. *)
Definition is_session_event (e : event) : bool :=
  match e with
  | EvSmtpOpen _ _ | EvSmtpClose _ _ => true
  | _ => false
  end.

(** Text written to an SMTP session. *)
Definition is_smtp_line (e : event) : bool :=
  match e with
  | EvSmtpHeader _ _ | EvSmtpText _ => true
  | _ => false
  end.

(** A mark made in the duplicate database. *)
Definition is_store_mark (e : event) : bool :=
  match e with
  | EvDuplicateMark _ _ _ => true
  | _ => false
  end.

(** A request to the result engine. *)
Definition is_add_action (e : event) : bool :=
  match e with
  | EvAddAction _ _ => true
  | _ => false
  end.

(** Neither SMTP traffic nor a mark in the duplicate database: what a
    commit that does not reply may still do. *)
Definition no_reply (e : event) : Prop :=
  is_smtp_event e = false /\ is_store_mark e = false.

Section Vocabulary.
Context `{Externals}.

(** The computation [c] yields a value in every world: it neither dies nor
    runs out of fuel. *)
Definition returns {A} (c : M A) : Prop :=
  forall w, exists a w', c w = Some (a, w').

(** Every address with a domain that the parser finds in the header value
    [hd] has a mailbox, so that the assertion of [_contains_my_address]
    holds for it. *)
Definition parsed_with_mailbox (hd : string) : Prop :=
  forall a, In a (message_address_parse hd) ->
            domain a <> None -> mailbox a <> None.

(** The message carries one of the headers of mailing-list software. *)
Definition from_mailing_list (msgdata : sieve_message_data) : Prop :=
  exists hd v vs,
    In hd Vacation._list_headers /\ mail_get_headers msgdata hd = Some (v :: vs).

(** The message carries an Auto-Submitted header other than [no]. *)
Definition auto_submitted (msgdata : sieve_message_data) : Prop :=
  exists vs v,
    mail_get_headers msgdata "auto-submitted" = Some vs /\ In v vs /\
    CStr.strcasecmp_eq v "no" = false.

(** The message carries the Precedence [junk], [bulk] or [list]. *)
Definition bulk_precedence (msgdata : sieve_message_data) : Prop :=
  exists vs v,
    mail_get_headers msgdata "precedence" = Some vs /\ In v vs /\
    (CStr.strcasecmp_eq v "junk" = true \/ CStr.strcasecmp_eq v "bulk" = true
     \/ CStr.strcasecmp_eq v "list" = true).

(** The address [local@domain] is one of [mine]. *)
Definition address_in (mine : list string) (a : message_address) : bool :=
  match mailbox a, domain a with
  | Some m, Some d => existsb (String.eqb (m ++ "@" ++ d)) mine
  | _, _ => false
  end.

(** Some address in a To, Cc, Bcc, Resent-To, Resent-Cc or Resent-Bcc
    header of the message is one of [mine]. *)
Definition addressed_to (msgdata : sieve_message_data) (mine : list string)
    : bool :=
  existsb
    (fun hd =>
       match mail_get_headers_utf8 msgdata hd with
       | Some headers =>
           existsb
             (fun v => existsb (address_in mine) (message_address_parse v))
             headers
       | None => false
       end)
    Vacation._my_address_headers.

(** The addresses the user answers to: the delivery address and the
    [:addresses] of the action. *)
Definition my_addresses (to : string) (ctx : Vac.act_vacation_context)
    : list string :=
  to :: match Vac.addresses ctx with
        | Some l => l
        | None => []
        end.

(** A duplicate database that finds what was marked in it. *)
Definition store_remembers
    (check : host_state -> hash_t -> option string -> bool * host_state)
    (mark : host_state -> hash_t -> option string -> Z -> host_state) : Prop :=
  forall hs h user expire, fst (check (mark hs h user expire) h user) = true.

(** The context of the duplicate extension that a call of
    [ext_duplicate_check] works on: the one of the message, or a fresh
    one. *)
Definition context_of (w : world) : Dup.ext_duplicate_context :=
  match w_msgctx w with
  | Some rctx => rctx
  | None => Duplicate.empty_context
  end.

(** The request for the deferred mark that [ext_duplicate_check] makes to
    the result engine. *)
Definition mark_request
    (handle : option string) (value : string) (period : N) (last : bool)
    : action_request :=
  {| req_action := Duplicate.act_duplicate_mark;
     req_source_line := None;
     req_context :=
       CtxDuplicateMark
         {| Dup.handle := handle;
            Dup.period := Z.of_N period mod 2 ^ 32;
            Dup.hash := Duplicate.ext_duplicate_hash handle value last;
            Dup.last := last |} |}.

(** What [ext_duplicate_hash] feeds to MD5, one [md5_update] after the
    other. *)
Definition ext_duplicate_hash_input
    (handle : option string) (value : string) (last : bool) : string :=
  "sieve duplicate"
  ++ (if last then "0" else "+")
  ++ match handle with
     | Some h => "h-" ++ h
     | None => "default"
     end
  ++ value.

End Vocabulary.

Section OperandVocabulary.
Context `{Externals} `{BinaryReader}.

(** The days operand that stands last among the pairs [ps], if one of them
    is a days operand. *)
Fixpoint last_days (ps : list Vacation.opt_pair) : option N :=
  match ps with
  | [] => None
  | p :: ps =>
      match last_days ps, p with
      | Some d, _ => Some d
      | None, Vacation.PairDays d => Some d
      | None, _ => None
      end
  end.

End OperandVocabulary.

(** The string with its ASCII capitals made small. *)
Fixpoint lower (s : string) : string :=
  match s with
  | EmptyString => EmptyString
  | String c rest => String (CStr.tolower c) (lower rest)
  end.

(** The string [a] starts with [p], the case of ASCII letters set aside. *)
Definition has_prefix_nocase (p a : string) : Prop :=
  exists x rest : string,
    a = (x ++ rest)%string /\ String.length x = String.length p
    /\ lower x = lower p.

(* ===================================================================== *)
(** * More concrete hosts *)
(* ===================================================================== *)

Module Demo2.

(** A validator that accepts a string as the reason. *)
Definition validator : VacationCommand.ValidatorServices :=
  {| VacationCommand.sieve_validate_positional_argument := fun arg _ _ t =>
       match arg with
       | Some a => Ast.type_eqb (Ast.sieve_ast_argument_type_of a) t
       | None => false
       end;
     VacationCommand.sieve_validator_argument_activate := fun _ => true |}.

(** An LDA whose Sieve library opens every script but [/broken] and
    executes it with result 1. *)
Definition deliver : LdaSieve.Deliver :=
  {| LdaSieve.ENOENT := 2;
     LdaSieve.home_expand := fun p => p;
     LdaSieve.strerror := fun _ => "error";
     LdaSieve.mail := unit;
     LdaSieve.mail_namespaces := unit;
     LdaSieve.deliver_get_return_address := fun _ => Some "root@host";
     LdaSieve.mail_get_first_header := fun _ _ => None;
     LdaSieve.deliver_set_hostname := Some "mail.example.org";
     LdaSieve.deliver_set_postmaster_address := Some "postmaster@example.org";
     LdaSieve.sieve_open := fun p => negb (String.eqb p "/broken");
     LdaSieve.sieve_execute := fun _ _ _ => 1 |}.

(** A process with the given environment in which only [/home/jane/sieve]
    exists. *)
Definition process_of (env : list (string * string)) : LdaSieve.process :=
  {| LdaSieve.getenv := fun name =>
       match find (fun kv => String.eqb (fst kv) name) env with
       | Some kv => Some (snd kv)
       | None => None
       end;
     LdaSieve.stat := fun p =>
       if String.eqb p "/home/jane/sieve" then None else Some 2 |}.

(** A message that is itself a vacation reply. *)
Definition auto_reply : sieve_message_data :=
  {| mail_get_headers := fun hd =>
       if String.eqb hd "auto-submitted" then Some ["auto-replied (vacation)"]
       else Some [];
     mail_get_headers_utf8 := mail_get_headers_utf8 Demo.message;
     return_path := Some "root@host";
     to_address := Some "jane@example.org";
     id := Some "<msg-2>" |}.

(** A message that reached the user through a Bcc or an alias: her address
    is in none of its headers. *)
Definition forwarded : sieve_message_data :=
  {| mail_get_headers := mail_get_headers Demo.message;
     mail_get_headers_utf8 := fun hd =>
       if String.eqb hd "to" then Some ["staff@example.org"] else Some [];
     return_path := Some "root@host";
     to_address := Some "jane@example.org";
     id := Some "<msg-3>" |}.

(** A host whose SMTP client refuses the mail. *)
Definition failing_senv : sieve_script_env Demo.database :=
  {| username := Some "jane";
     smtp_open := Some (fun db _ => (1%N, db));
     smtp_close := Some (fun db _ => (false, db));
     duplicate_check := Some Demo.db_check;
     duplicate_mark := Some Demo.db_mark |}.

(** A host that can mark but not check. *)
Definition marking_senv : sieve_script_env Demo.database :=
  {| username := Some "jane";
     smtp_open := Some (fun db _ => (1%N, db));
     smtp_close := Some (fun db _ => (true, db));
     duplicate_check := None;
     duplicate_mark := Some Demo.db_mark |}.

(** A stricter host: its address normaliser rejects an address without a
    domain, and its result engine refuses the requests that come without a
    source line. *)
Definition strict_externals : Externals :=
  {| host_state := Demo.database;
     SIEVE_EXEC_OK := 1;
     SIEVE_EXEC_BIN_CORRUPT := -1;
     SIEVE_ACTFLAG_SENDS_RESPONSE := 2;
     SIEVE_IMPLEMENTATION := "sieve";
     md5 := fun s => s;
     str_sanitize := fun s _ => s;
     message_address_parse := Demo.parse_bare_address;
     message_date_create := fun _ => "now";
     sieve_address_normalize := fun s =>
       match Demo.split_at "@" s with
       | Some _ => inl s
       | None => inr "no domain"
       end;
     sieve_error_script_location := fun _ => "line";
     sieve_message_get_new_id := fun db => ("<new-id>", db);
     sieve_action_duplicate_check_available := fun senv =>
       match duplicate_check senv with Some _ => true | None => false end;
     sieve_result_add_action_impl := fun db req =>
       match req_source_line req with
       | Some _ => (0, db)
       | None => (-1, db)
       end;
     uninitialised_hash := "";
     sieve_number_bits := 64;
     time_t_bits := 64 |}.

Definition strict_world0 : @world strict_externals :=
  @Build_world strict_externals [] [] None 1000.

(** [vacation :from "nobody" "I am away"] with handle ["h1"]. *)
Definition invalid_from_code : list Demo.cell :=
  [Demo.CSourceLine 3; Demo.COptionalBlock; Demo.COptCode 3;
   Demo.CString "nobody"; Demo.COptCode 0;
   Demo.CString "I am away"; Demo.CString "h1"].

End Demo2.

(* ===================================================================== *)
(** * Properties *)
(* ===================================================================== *)

Section WorldFacts.
Context `{Externals}.

Lemma emitted_emitted (w : world) (a b : list event) :
  emitted (emitted w a) b = emitted w (a ++ b).
Proof. unfold emitted; simpl; now rewrite app_assoc. Qed.

Lemma yields_ret {A} P (Q : A -> Prop) a : Q a -> yields P Q (ret a).
Proof.
  intros HQ w a' w' E. inversion E; subst. repeat split; auto.
  exists []. now rewrite app_nil_r.
Qed.

Lemma yields_crash {A} P (Q : A -> Prop) : yields P Q crash.
Proof. intros w a w' E. discriminate. Qed.

Lemma yields_bind {A B} P (Q : A -> Prop) (R : B -> Prop) c k :
  yields P Q c -> (forall a, Q a -> yields P R (k a)) -> yields P R (bind c k).
Proof.
  intros Hc Hk w b w' E. unfold bind in E.
  destruct (c w) as [[a w1] |] eqn:E1; [| discriminate].
  destruct (Hc _ _ _ E1) as (HQ & Ht & evs1 & Hev1 & HP1).
  destruct (Hk a HQ _ _ _ E) as (HR & Ht2 & evs2 & Hev2 & HP2).
  repeat split; auto; [congruence |].
  exists (evs1 ++ evs2). split.
  - rewrite Hev2, Hev1. now rewrite app_assoc.
  - apply Forall_app; auto.
Qed.

Lemma yields_emit P e : P e -> yields P (fun _ => True) (emit e).
Proof.
  intros HP w a w' E. inversion E; subst; simpl. repeat split; auto.
  exists [e]. split; auto.
Qed.

Lemma yields_on_host {A} P (f : host_state -> A * host_state) :
  yields P (fun _ => True) (on_host f).
Proof.
  intros w a w' E. unfold on_host in E. destruct (f (w_host w)) as [a' h].
  inversion E; subst; simpl. repeat split; auto.
  exists []. now rewrite app_nil_r.
Qed.

Lemma yields_get_time P : yields P (fun _ => True) get_time.
Proof.
  intros w a w' E. inversion E; subst. repeat split; auto.
  exists []. now rewrite app_nil_r.
Qed.

Lemma yields_lift_option {A} P (o : option A) :
  yields P (fun a => o = Some a) (lift_option o).
Proof.
  destruct o; simpl.
  - apply yields_ret. reflexivity.
  - apply yields_crash.
Qed.

Lemma yields_weaken {A} (P P' : event -> Prop) (Q Q' : A -> Prop) c :
  yields P Q c -> (forall e, P e -> P' e) -> (forall a, Q a -> Q' a) ->
  yields P' Q' c.
Proof.
  intros Hc HP HQ w a w' E. destruct (Hc _ _ _ E) as (Ha & Ht & evs & Hev & HF).
  repeat split; auto. exists evs. split; auto.
  eapply Forall_impl; eauto.
Qed.

End WorldFacts.

(** Proofs of [yields] follow the shape of the computation. *)
Ltac yields_prim :=
  first [ apply yields_emit | apply yields_on_host | apply yields_get_time
        | apply yields_lift_option ].

Ltac yields_go :=
  match goal with
  | |- yields _ _ (bind _ _) =>
      first [ eapply yields_bind; [yields_prim | intros ? ?]
            | eapply yields_bind with (Q := fun _ => True); [| intros ? _] ]
  | |- yields _ _ (ret _) => apply yields_ret
  | |- yields _ _ crash => apply yields_crash
  | |- yields _ _ (match ?x with _ => _ end) => destruct x eqn:?
  | |- yields _ _ (if ?x then _ else _) => destruct x eqn:?
  | |- yields _ _ (let (_, _) := ?x in _) => destruct x eqn:?
  | |- yields ?ev _ _ =>
      eapply yields_weaken with (P := ev); [yields_prim | auto | auto]
  end.

Section VacationOperation.
Context `{Externals} `{BinaryReader}.
Import Vacation.

Lemma loop_reads_pair fuel sbin a p a' o :
  reads_pair sbin a p a' ->
  optional_operands_loop (S fuel) sbin a o =
  optional_operands_loop fuel sbin a' (apply_pair o p).
Proof.
  destruct p; simpl; [intros (a1 & E1 & E2) .. | intros E1];
    rewrite E1; simpl; try rewrite E2; reflexivity.
Qed.

Lemma loop_reads_pairs sbin ps : forall fuel a a' o,
  reads_pairs sbin a ps a' ->
  optional_operands_loop (List.length ps + fuel) sbin a o =
  optional_operands_loop fuel sbin a' (fold_left apply_pair ps o).
Proof.
  induction ps as [| p ps IH]; intros fuel a a' o Hr.
  - simpl in Hr. now subst.
  - destruct Hr as (a1 & Hp & Hps).
    change (List.length (p :: ps) + fuel)%nat with (S (List.length ps + fuel)).
    rewrite (loop_reads_pair _ _ _ _ _ _ Hp). now apply IH.
Qed.

Lemma loop_corrupt fuel sbin a o w :
  corrupt_at sbin a ->
  exists msg, optional_operands_loop (S fuel) sbin a o w =
              Some (LoopCorrupt, emitted w [EvTraceError msg]).
Proof.
  intros [E | [(c & a1 & E & Hc) | [(a1 & E & E') | [(a1 & E & E')
           | [(a1 & E & E') | (a1 & E & E')]]]]];
    simpl; rewrite E; try (simpl; rewrite E'); try (eexists; reflexivity).
  assert (Hne : forall k, In k [OPT_END; OPT_DAYS; OPT_SUBJECT; OPT_FROM;
                                OPT_ADDRESSES; OPT_MIME] -> (c =? k) = false).
  { intros k Hk. apply Z.eqb_neq. intros ->. contradiction. }
  change 0 with OPT_END.
  rewrite !Hne by (simpl; auto 10).
  eexists; reflexivity.
Qed.

Lemma loop_done fuel sbin a a' o w :
  sieve_operand_optional_read sbin a = Some (OPT_END, a') ->
  optional_operands_loop (S fuel) sbin a o w = Some (LoopDone a' o, w).
Proof. intros E. simpl. rewrite E. reflexivity. Qed.

(** C7.  The VACATION operation reads its optional operands as
    (opt_code, operand) pairs until opt_code 0: when the pairs [ps] stand at
    the start of the block and opt_code 0 follows them, the loop ends with
    what the pairs assign, having reported nothing.  When what follows them
    is corrupt (an opt_code that cannot be read or is outside
    {0, days, subject, from, addresses, mime}, or an operand that cannot be
    decoded), the operation returns SIEVE_EXEC_BIN_CORRUPT after one line
    on the trace channel and nothing else: no request reaches the result
    engine.  Fuel beyond the number of pairs is enough for both. *)
Theorem vacation_corrupt_optional_block
    (fuel : nat) (sbin : sieve_binary) (address : N) (w : world)
    (source_line a1 a2 : N) (ps : list opt_pair) (a3 : N) :
  sieve_code_source_line_read sbin address = Some (source_line, a1) ->
  sieve_operand_optional_present sbin a1 = (true, a2) ->
  reads_pairs sbin a2 ps a3 ->
  (List.length ps < fuel)%nat ->
  (forall a4 o w0,
     sieve_operand_optional_read sbin a3 = Some (OPT_END, a4) ->
     optional_operands_loop fuel sbin a2 o w0 =
     Some (LoopDone a4 (fold_left apply_pair ps o), w0))
  /\
  (corrupt_at sbin a3 ->
   exists msg,
     ext_vacation_operation_execute fuel sbin address w =
     Some (SIEVE_EXEC_BIN_CORRUPT, emitted w [EvTraceError msg])).
Proof.
  intros Hline Hpresent Hreads Hfuel.
  assert (Hf : exists k, fuel = (List.length ps + S k)%nat)
    by (exists (fuel - List.length ps - 1)%nat; lia).
  destruct Hf as [k ->].
  split.
  - intros a4 o w0 Hend.
    rewrite (loop_reads_pairs _ _ _ _ _ _ Hreads).
    now apply loop_done.
  - intros Hc. unfold ext_vacation_operation_execute.
    rewrite Hline, Hpresent. unfold bind.
    rewrite (loop_reads_pairs _ _ _ _ _ _ Hreads).
    destruct (loop_corrupt k sbin a3 (fold_left apply_pair ps optional_defaults)
                w Hc) as [msg ->].
    exists msg. reflexivity.
Qed.

Lemma loop_yields fuel sbin : forall a o,
  (1 <= opt_days o)%N ->
  yields days_ok
    (fun r => match r with
              | LoopCorrupt => True
              | LoopDone _ o' => (1 <= opt_days o')%N
              end)
    (optional_operands_loop fuel sbin a o).
Proof.
  induction fuel as [| fuel IH]; intros a o Ho; simpl.
  - apply yields_crash.
  - unfold sieve_runtime_trace_error.
    repeat yields_go; simpl; auto; try (apply IH; simpl; auto).
    match goal with
    | |- (1 <= (if (?d =? 0)%N then _ else _))%N =>
        destruct (d =? 0)%N eqn:E; [lia | apply N.eqb_neq in E; lia]
    end.
Qed.

Lemma execute_yields fuel sbin a :
  yields days_ok (fun _ => True) (ext_vacation_operation_execute fuel sbin a).
Proof.
  unfold ext_vacation_operation_execute, sieve_runtime_trace_error,
    sieve_runtime_trace, sieve_runtime_error, sieve_result_add_action.
  destruct (sieve_code_source_line_read sbin a) as [[source_line a1] |];
    [| repeat yields_go; simpl; auto].
  destruct (sieve_operand_optional_present sbin a1) as [present a2].
  eapply yields_bind.
  - destruct present; [apply loop_yields | apply yields_ret]; simpl; lia.
  - intros [| a3 o] Ho; repeat yields_go; simpl; auto.
    eexists; split; [reflexivity | exact Ho].
Qed.

(** The loop ends: with forward readers, more fuel than the binary has
    bytes left is never used up. *)
Lemma loop_returns sbin size :
  forward_reader sbin size ->
  forall fuel a o w,
    (N.to_nat (size - a) < fuel)%nat ->
    optional_operands_loop fuel sbin a o w <> None.
Proof.
  intros (Hcode & Hnum & Hstr & Hlist).
  induction fuel as [| fuel IH]; intros a o w Hfuel; [lia |].
  simpl.
  destruct (sieve_operand_optional_read sbin a) as [[c a1] |] eqn:Ec;
    [| discriminate].
  specialize (Hcode _ _ _ Ec).
  destruct (c =? 0); [discriminate |].
  destruct (c =? OPT_DAYS).
  { destruct (sieve_opr_number_read sbin a1) as [[d a2] |] eqn:E;
      [| discriminate].
    specialize (Hnum _ _ _ E). apply IH. lia. }
  destruct (c =? OPT_SUBJECT).
  { destruct (sieve_opr_string_read sbin a1) as [[s a2] |] eqn:E;
      [| discriminate].
    specialize (Hstr _ _ _ E). apply IH. lia. }
  destruct (c =? OPT_FROM).
  { destruct (sieve_opr_string_read sbin a1) as [[s a2] |] eqn:E;
      [| discriminate].
    specialize (Hstr _ _ _ E). apply IH. lia. }
  destruct (c =? OPT_ADDRESSES).
  { destruct (sieve_opr_stringlist_read sbin a1) as [[l a2] |] eqn:E;
      [| discriminate].
    specialize (Hlist _ _ _ E). apply IH. lia. }
  destruct (c =? OPT_MIME); [apply IH; lia | discriminate].
Qed.

(** So does the operation: it returns, whatever the binary holds. *)
Lemma execute_returns sbin size fuel address w :
  forward_reader sbin size ->
  (N.to_nat size < fuel)%nat ->
  exists r w', ext_vacation_operation_execute fuel sbin address w = Some (r, w').
Proof.
  intros Hfwd Hfuel. unfold ext_vacation_operation_execute.
  destruct (sieve_code_source_line_read sbin address) as [[source_line a1] |];
    [| eexists; eexists; reflexivity].
  destruct (sieve_operand_optional_present sbin a1) as [present a2].
  unfold bind at 1.
  assert (Hloop : exists r w1,
            (if present
             then optional_operands_loop fuel sbin a2 optional_defaults
             else ret (LoopDone a2 optional_defaults)) w = Some (r, w1)).
  { destruct present; [| eexists; eexists; reflexivity].
    destruct (optional_operands_loop fuel sbin a2 optional_defaults w)
      as [[r w1] |] eqn:E; [eauto |].
    exfalso. revert E. apply (loop_returns _ _ Hfwd). lia. }
  destruct Hloop as (r & w1 & ->).
  destruct r as [| a3 o]; [eexists; eexists; reflexivity |].
  destruct (sieve_opr_string_read sbin a3) as [[reason a4] |];
    [| eexists; eexists; reflexivity].
  destruct (sieve_opr_string_read sbin a4) as [[handle a5] |];
    [| eexists; eexists; reflexivity].
  unfold sieve_runtime_trace, sieve_runtime_error, sieve_result_add_action,
    bind, emit, on_host, ret.
  destruct (opt_from o) as [from |];
    [destruct (sieve_address_normalize from) |];
    simpl;
    match goal with
    | |- context [sieve_result_add_action_impl ?h ?req] =>
        destruct (sieve_result_add_action_impl h req)
    end; eexists; eexists; reflexivity.
Qed.

End VacationOperation.

Lemma vacation_corrupt_optional_block_witness :
  exists msg,
    @Vacation.ext_vacation_operation_execute Demo.externals Demo.reader
      10 Demo.corrupt_code 0%N Demo.world0
    = Some (-1, emitted Demo.world0 [EvTraceError msg]).
Proof.
  apply (proj2 (@vacation_corrupt_optional_block Demo.externals Demo.reader
                  10 Demo.corrupt_code 0%N Demo.world0 3%N 1%N 2%N
                  [Vacation.PairDays 7] 4%N
                  eq_refl eq_refl
                  (ex_intro _ 4%N
                     (conj (ex_intro _ 3%N (conj eq_refl eq_refl)) eq_refl))
                  ltac:(simpl; lia))).
  right. left. exists 9, 5%N. split; [reflexivity |].
  simpl. intros [E | [E | [E | [E | [E | [E | []]]]]]]; discriminate.
Defined.

(** The readers of the concrete binary move forward. *)
Lemma demo_reader_forward (sbin : list Demo.cell) :
  @Vacation.forward_reader Demo.reader sbin (N.of_nat (List.length sbin)).
Proof.
  assert (Hin : forall a c, Demo.cell_at sbin a = Some c ->
                            (a < a + 1 <= N.of_nat (List.length sbin))%N).
  { intros a c E. unfold Demo.cell_at in E.
    assert (N.to_nat a < List.length sbin)%nat
      by (apply nth_error_Some; congruence).
    lia. }
  unfold Vacation.forward_reader; simpl.
  split; [| split; [| split]]; intros a x a' E;
    destruct (Demo.cell_at sbin a) as [[] |] eqn:Ec; inversion E; subst;
    specialize (Hin _ _ Ec); lia.
Qed.

Section VacationHooks.
Context `{Externals}.

(** C5.  When a vacation action [act] is added and the result list already
    holds a vacation action [act_other], the duplicate check of the vacation
    action reports a runtime error at the new action's location that names
    the location of the previously triggered one and fails with -1, unless
    [act_other] was executed in a preceding script: then it answers 1 and
    reports nothing.  The check never looks at the contexts, so this holds
    in particular for entries with equal context. *)
Theorem vacation_duplicate_check (act act_other : sieve_action_data) (w : world) :
  Vacation.act_vacation_check_duplicate act act_other w =
  if executed act_other then Some (1, w)
  else Some (-1,
             emitted w
               [EvRuntimeError (location act)
                  ("duplicate vacation action not allowed "
                   ++ "(previously triggered one was here: "
                   ++ location act_other ++ ")")]).
Proof.
  unfold Vacation.act_vacation_check_duplicate.
  destruct (executed act_other); reflexivity.
Qed.

(** The conflict check of the vacation action decides by the other action
    alone.  Against an action that carries the SendsResponse flag and was
    not executed, it reports a runtime error at the location of the
    vacation action that names the other action and its location, and
    answers -1; when that action was executed in a preceding script it
    answers 1 and reports nothing; against an action without the flag it
    answers 0 and reports nothing. *)
Lemma vacation_conflict_hook (act act_other : sieve_action_data) (w : world) :
  Vacation.act_vacation_check_conflict act act_other w =
  if sends_response (action act_other) then
    if executed act_other then Some (1, w)
    else Some (-1,
               emitted w
                 [EvRuntimeError (location act)
                    ("vacation action conflicts with other action: "
                     ++ "the " ++ name (action act_other) ++ " action ("
                     ++ location act_other
                     ++ ") also sends a response back to the sender")])
  else Some (0, w).
Proof.
  unfold Vacation.act_vacation_check_conflict, sends_response.
  destruct (Z.land (flags (action act_other)) SIEVE_ACTFLAG_SENDS_RESPONSE >? 0);
    [destruct (executed act_other) |]; reflexivity.
Qed.

End VacationHooks.

Section VacationCommit.
Context `{Externals}.
Variable senv : sieve_script_env host_state.
Variable msgdata : sieve_message_data.
Import Vacation.

(** C10.  The commit of the vacation action sends nothing and still
    succeeds for two kinds of sender: when the return path of the message
    is NULL or empty it logs "discarded vacation reply to <>", and when the
    return path equals the delivery address it logs "discarded vacation
    reply to own address"; in both cases that log line is all it does and
    it returns TRUE. *)
Theorem vacation_commit_sender_edge_cases
    (ctx : Vac.act_vacation_context) (w : world) :
  ((return_path msgdata = None \/ return_path msgdata = Some "") ->
   Vacation.act_vacation_commit senv msgdata ctx w =
   Some (true, emitted w [EvResultLog "discarded vacation reply to <>"]))
  /\
  (forall rp,
     return_path msgdata = Some rp -> rp <> "" ->
     to_address msgdata = Some rp ->
     Vacation.act_vacation_commit senv msgdata ctx w =
     Some (true,
           emitted w [EvResultLog "discarded vacation reply to own address"])).
Proof.
  split.
  - intros [Hrp | Hrp]; unfold Vacation.act_vacation_commit; rewrite Hrp;
      reflexivity.
  - intros rp Hrp Hne Hto. unfold Vacation.act_vacation_commit.
    rewrite Hrp, Hto. destruct rp as [| c rp]; [congruence |].
    unfold bind, Vacation.deref, lift_option, ret.
    unfold CStr.strcmp_eq. rewrite String.eqb_refl. reflexivity.
Qed.


Lemma send_without_smtp ctx w :
  smtp_open senv = None \/ smtp_close senv = None ->
  act_vacation_send senv msgdata ctx w =
  Some (true, emitted w [EvResultWarning "vacation action has no means to send mail."]).
Proof.
  intros [E | E]; unfold act_vacation_send; rewrite E;
    [| destruct (smtp_open senv)]; reflexivity.
Qed.

Lemma send_yields ctx :
  yields (fun _ => True) (fun b => b = true) (act_vacation_send senv msgdata ctx).
Proof.
  unfold act_vacation_send, rfc2822_header_field_write, smtp_write,
    deref, sieve_result_error, sieve_result_warning.
  repeat yields_go; auto.
Qed.

Lemma send_without_smtp_yields ctx :
  smtp_open senv = None \/ smtp_close senv = None ->
  yields quiet (fun b => b = true) (act_vacation_send senv msgdata ctx).
Proof.
  intros Hno w b w' E. rewrite (send_without_smtp ctx w Hno) in E.
  inversion E; subst; simpl. repeat split; auto.
  eexists; split; [reflexivity |]. repeat constructor.
Qed.

Lemma commit_without_smtp_yields ctx :
  smtp_open senv = None \/ smtp_close senv = None ->
  yields quiet (fun b => b = true) (act_vacation_commit senv msgdata ctx).
Proof.
  intros Hno.
  unfold act_vacation_commit, act_vacation_hash, deref, sieve_result_log.
  repeat first
    [ match goal with
      | |- yields _ _ (bind (act_vacation_send _ _ _) _) =>
          eapply yields_bind; [apply send_without_smtp_yields; exact Hno | intros ? ?]
      end
    | yields_go ]; try (split; reflexivity); auto.
Qed.

Lemma ensure_subject_days ctx :
  Vac.days (ensure_subject msgdata ctx) = Vac.days ctx.
Proof.
  unfold ensure_subject.
  destruct (Vac.subject ctx) as [[| ? ?] |];
    destruct (mail_get_headers_utf8 msgdata "subject") as [[| ? ?] |];
    reflexivity.
Qed.

(** The duplicate check of the commit, run on its own. *)
Lemma commit_check_run ctx w rp check :
  return_path msgdata = Some rp ->
  bind (act_vacation_hash msgdata ctx)
    (fun dupl_hash =>
       bind (on_host (fun h => check h dupl_hash (username senv)))
         (fun seen =>
            bind (emit (EvDuplicateCheck dupl_hash (username senv) seen))
              (fun _ => ret (dupl_hash, seen)))) w
  = Some ((md5 (rp ++ Vac.handle ctx),
           fst (check (w_host w) (md5 (rp ++ Vac.handle ctx)) (username senv))),
          emitted
            (with_host w
               (snd (check (w_host w) (md5 (rp ++ Vac.handle ctx)) (username senv))))
            [EvDuplicateCheck (md5 (rp ++ Vac.handle ctx)) (username senv)
               (fst (check (w_host w) (md5 (rp ++ Vac.handle ctx)) (username senv)))]).
Proof.
  intros Hrp. unfold act_vacation_hash, deref, bind, on_host. rewrite Hrp. simpl.
  destruct (check (w_host w) (md5 (rp ++ Vac.handle ctx)) (username senv));
    reflexivity.
Qed.

Lemma log_run (msg : string) (w : world) :
  bind (sieve_result_log msg) (fun _ => ret true) w =
  Some (true, emitted w [EvResultLog msg]).
Proof. reflexivity. Qed.

(** The expiry that the commit passes to [duplicate_mark] is the exact
    [ioloop_time + days * 86400] when the product fits [sieve_number_t] and
    the sum fits [time_t]. *)
Lemma expiry_exact (now : Z) (days : N) :
  Z.of_N days * 86400 < 2 ^ sieve_number_bits ->
  - 2 ^ (time_t_bits - 1) <= now + Z.of_N days * 86400
                          < 2 ^ (time_t_bits - 1) ->
  to_time_t (now + to_sieve_number (Z.of_N days * 86400))
  = now + Z.of_N days * 86400.
Proof.
  intros Hprod Hsum. unfold to_time_t, to_sieve_number.
  rewrite (Z.mod_small (Z.of_N days * 86400)) by lia.
  destruct (Z_lt_le_dec (time_t_bits - 1) 0) as [Hneg | Hpos].
  - rewrite (Z.pow_neg_r 2 (time_t_bits - 1)) in Hsum by exact Hneg. lia.
  - assert (Hpow : 2 ^ time_t_bits = 2 * 2 ^ (time_t_bits - 1)).
    { replace time_t_bits with (Z.succ (time_t_bits - 1)) at 1 by lia.
      apply Z.pow_succ_r. exact Hpos. }
    rewrite Z.mod_small by lia. lia.
Qed.

(** Whatever the width of [sieve_number_t], the product wraps around for
    some number of days that the type holds. *)
Lemma expiry_product_wraps :
  0 < sieve_number_bits ->
  exists days : N,
    Z.of_N days < 2 ^ sieve_number_bits /\
    to_sieve_number (Z.of_N days * 86400) <> Z.of_N days * 86400.
Proof.
  intros Hbits. unfold to_sieve_number.
  assert (Hpow : 2 ^ 1 <= 2 ^ sieve_number_bits)
    by (apply Z.pow_le_mono_r; lia).
  change (2 ^ 1) with 2 in Hpow.
  exists (Z.to_N (2 ^ sieve_number_bits - 1)).
  rewrite Z2N.id by lia. split; [lia |].
  pose proof (Z.mod_pos_bound ((2 ^ sieve_number_bits - 1) * 86400)
                (2 ^ sieve_number_bits)) as Hmod.
  nia.
Qed.

(** C6.  Take a message with a return path that is not the delivery
    address, and a host that provides [duplicate_check] and
    [duplicate_mark].  The hash looked up is the MD5 of the return path
    followed by the vacation handle.  When [duplicate_check] answers that
    this hash was seen, the commit does that lookup, logs "discarded
    duplicate vacation response to <...>" and returns TRUE: nothing is
    written to an SMTP session.  And whenever a commit closes an SMTP
    session successfully (a response was sent), it returns TRUE and calls
    [duplicate_mark] with that hash and the expiry time
    [ioloop_time + days * (24 * 60 * 60)] as C computes it: the product in
    [sieve_number_t], where it wraps around, and the sum passed as a
    [time_t].  That expiry is the current time plus [days] times 86400
    seconds whenever the product fits [sieve_number_t] and the sum fits
    [time_t]. *)
Theorem vacation_commit_duplicate_and_mark
    (ctx : Vac.act_vacation_context) (w : world) (rp to : string)
    (check : host_state -> hash_t -> option string -> bool * host_state)
    (mark : host_state -> hash_t -> option string -> Z -> host_state) :
  return_path msgdata = Some rp -> rp <> "" ->
  to_address msgdata = Some to -> rp <> to ->
  duplicate_check senv = Some check ->
  duplicate_mark senv = Some mark ->
  (fst (check (w_host w) (md5 (rp ++ Vac.handle ctx)) (username senv)) = true ->
   act_vacation_commit senv msgdata ctx w =
   Some (true,
         emitted
           (with_host w
              (snd (check (w_host w) (md5 (rp ++ Vac.handle ctx)) (username senv))))
           [EvDuplicateCheck (md5 (rp ++ Vac.handle ctx)) (username senv) true;
            EvResultLog ("discarded duplicate vacation response to <"
                         ++ str_sanitize rp 128 ++ ">")]))
  /\
  (forall b w',
     act_vacation_commit senv msgdata ctx w = Some (b, w') ->
     exists evs,
       w_trace w' = w_trace w ++ evs /\
       (forall smtp_handle,
          In (EvSmtpClose smtp_handle true) evs ->
          b = true /\
          In (EvDuplicateMark (md5 (rp ++ Vac.handle ctx)) (username senv)
                (to_time_t
                   (ioloop_time w
                    + to_sieve_number (Z.of_N (Vac.days ctx) * 86400)))) evs))
  /\
  (Z.of_N (Vac.days ctx) * 86400 < 2 ^ sieve_number_bits ->
   - 2 ^ (time_t_bits - 1) <= ioloop_time w + Z.of_N (Vac.days ctx) * 86400
                           < 2 ^ (time_t_bits - 1) ->
   to_time_t (ioloop_time w + to_sieve_number (Z.of_N (Vac.days ctx) * 86400))
   = ioloop_time w + Z.of_N (Vac.days ctx) * 86400).
Proof.
  intros Hrp Hne Hto Hown Hcheck Hmark.
  refine ((fun P => conj (proj1 P) (conj (proj2 P) (expiry_exact _ _))) _).
  assert (Hcmp : CStr.strcmp_eq rp to = false).
  { unfold CStr.strcmp_eq. now apply String.eqb_neq. }
  set (h := md5 (rp ++ Vac.handle ctx)).
  destruct (check (w_host w) h (username senv)) as [seen hst] eqn:Echeck.
  set (w1 := emitted (with_host w hst) [EvDuplicateCheck h (username senv) seen]).
  assert (Hw1 : w_trace w1 = w_trace w ++ [EvDuplicateCheck h (username senv) seen])
    by reflexivity.
  assert (Ht1 : ioloop_time w1 = ioloop_time w) by reflexivity.
  destruct rp as [| c0 rp0]; [congruence |].
  (* Run the commit up to the answer of the duplicate check. *)
  split; [intros Hseen | intros b w'];
    unfold act_vacation_commit; rewrite Hrp, Hto;
    unfold bind at 1; unfold deref at 1; unfold lift_option, ret at 1;
    rewrite Hcmp, Hcheck, Hmark;
    unfold bind at 1; rewrite (commit_check_run ctx w _ check Hrp);
    fold h; rewrite Echeck; cbn [fst snd]; fold w1;
    set (rp := String c0 rp0) in *.
  - simpl in Hseen. subst seen. cbv iota. rewrite log_run.
    unfold w1. rewrite emitted_emitted. reflexivity.
  - intros Hc.
    assert (Hearly : forall msg,
              bind (sieve_result_log msg) (fun _ => ret true) w1 = Some (b, w') ->
              exists evs,
                w_trace w' = w_trace w ++ evs /\
                (forall smtp_handle,
                   In (EvSmtpClose smtp_handle true) evs ->
                   b = true /\
                   In (EvDuplicateMark h (username senv)
                         (to_time_t
                            (ioloop_time w
                             + to_sieve_number
                                 (Z.of_N (Vac.days ctx) * 86400)))) evs)).
    { intros msg E. rewrite log_run in E. inversion E; subst b w'.
      exists [EvDuplicateCheck h (username senv) seen; EvResultLog msg].
      split.
      - simpl. rewrite <- app_assoc. reflexivity.
      - intros hd [Hin | [Hin | []]]; discriminate. }
    (* The reasons not to reply. *)
    destruct seen; [eapply Hearly; eassumption |].
    destruct (is_mailinglist_message msgdata); [eapply Hearly; eassumption |].
    destruct (is_auto_submitted msgdata); [eapply Hearly; eassumption |].
    destruct (precedence_match msgdata); [eapply Hearly; eassumption |].
    destruct (_is_system_address rp); [eapply Hearly; eassumption |].
    unfold bind at 1 in Hc.
    destruct (is_addressed_to_me msgdata to ctx _my_address_headers)
      as [[|] |]; simpl in Hc; [| eapply Hearly; eassumption | discriminate].
    (* The reply is sent. *)
    unfold bind at 1 in Hc.
    destruct (act_vacation_send senv msgdata (ensure_subject msgdata ctx) w1)
      as [[sent w2] |] eqn:Esend; [| discriminate].
    destruct (send_yields _ _ _ _ Esend) as (Hsent & Ht2 & sevs & Hw2 & _).
    subst sent.
    unfold bind, sieve_result_log, emit, get_time, on_host, ret in Hc.
    simpl in Hc. inversion Hc; subst b w'. clear Hc. simpl.
    exists ([EvDuplicateCheck h (username senv) false] ++ sevs ++
            [EvResultLog ("sent vacation response to <" ++ str_sanitize rp 128 ++ ">");
             EvDuplicateMark h (username senv)
               (to_time_t
                  (ioloop_time w
                   + to_sieve_number (Z.of_N (Vac.days ctx) * 86400)))]).
    split.
    + rewrite Hw2, Hw1, Ht2, Ht1, ensure_subject_days.
      rewrite <- !app_assoc. reflexivity.
    + intros _ _. split; [reflexivity |].
      apply in_or_app. right. apply in_or_app. right. simpl. auto.
Qed.

End VacationCommit.


Lemma vacation_commit_sender_edge_cases_witness :
  @Vacation.act_vacation_commit Demo.externals Demo.full_senv Demo.bounce
    Demo.vacation_ctx Demo.world0
  = Some (true,
          emitted Demo.world0 [EvResultLog "discarded vacation reply to <>"])
  /\
  @Vacation.act_vacation_commit Demo.externals Demo.full_senv Demo.own_message
    Demo.vacation_ctx Demo.world0
  = Some (true,
          emitted Demo.world0
            [EvResultLog "discarded vacation reply to own address"]).
Proof.
  split.
  - apply (proj1 (@vacation_commit_sender_edge_cases Demo.externals
                    Demo.full_senv Demo.bounce Demo.vacation_ctx Demo.world0)).
    left. reflexivity.
  - apply (proj2 (@vacation_commit_sender_edge_cases Demo.externals
                    Demo.full_senv Demo.own_message Demo.vacation_ctx
                    Demo.world0) "jane@example.org").
    + reflexivity.
    + discriminate.
    + reflexivity.
Defined.

Lemma vacation_commit_duplicate_and_mark_witness :
  @Vacation.act_vacation_commit Demo.externals Demo.full_senv Demo.message
    Demo.vacation_ctx Demo.world_replied
  = Some (true,
          emitted Demo.world_replied
            [EvDuplicateCheck "root@hosth1" (Some "jane") true;
             EvResultLog "discarded duplicate vacation response to <root@host>"])
  /\
  (exists w' evs,
     @Vacation.act_vacation_commit Demo.externals Demo.full_senv Demo.message
       Demo.vacation_ctx Demo.world0 = Some (true, w')
     /\ w_trace w' = w_trace Demo.world0 ++ evs
     /\ In (EvSmtpClose 1 true) evs
     /\ In (EvDuplicateMark "root@hosth1" (Some "jane") (1000 + 7 * 86400)) evs)
  /\
  @to_time_t Demo.externals
    (1000 + @to_sieve_number Demo.externals (Z.of_N 7 * 86400))
  = 1000 + Z.of_N 7 * 86400.
Proof.
  pose proof (@vacation_commit_duplicate_and_mark Demo.externals
                Demo.full_senv Demo.message Demo.vacation_ctx
                Demo.world_replied "root@host" "jane@example.org"
                Demo.db_check Demo.db_mark
                eq_refl ltac:(discriminate) eq_refl ltac:(discriminate)
                eq_refl eq_refl) as Hreplied.
  pose proof (@vacation_commit_duplicate_and_mark Demo.externals
                Demo.full_senv Demo.message Demo.vacation_ctx
                Demo.world0 "root@host" "jane@example.org"
                Demo.db_check Demo.db_mark
                eq_refl ltac:(discriminate) eq_refl ltac:(discriminate)
                eq_refl eq_refl) as Hfresh.
  split; [| split].
  - apply (proj1 Hreplied). vm_compute. reflexivity.
  - match eval vm_compute in
          (@Vacation.act_vacation_commit Demo.externals Demo.full_senv
             Demo.message Demo.vacation_ctx Demo.world0) with
    | Some (_, ?w1) =>
        assert (Hrun : @Vacation.act_vacation_commit Demo.externals
                         Demo.full_senv Demo.message Demo.vacation_ctx
                         Demo.world0 = Some (true, w1))
          by (vm_compute; reflexivity);
        exists w1
    end.
    destruct (proj1 (proj2 Hfresh) true _ Hrun) as (evs & Hevs & Hmark).
    exists evs. split; [exact Hrun |].
    split; [exact Hevs |].
    assert (Hclose : In (EvSmtpClose 1 true) evs).
    { vm_compute in Hevs. subst evs. repeat (try (left; reflexivity); right). }
    split; [exact Hclose |].
    exact (proj2 (Hmark _ Hclose)).
  - apply (proj2 (proj2 Hfresh)); vm_compute; split; congruence.
Defined.

(** [:days 213503982334602]: the product [days * 86400] is 61184 past
    [2 ^ 64], so with a 64-bit [sieve_number_t] the sender is marked until
    [1000 + 61184], not until the current time plus [days] times 86400
    seconds. *)
Lemma vacation_expiry_wraps_around :
  exists w' evs,
    @Vacation.act_vacation_commit Demo.externals Demo.full_senv Demo.message
      {| Vac.reason := "I am away"; Vac.days := 213503982334602%N;
         Vac.subject := Some "Away"; Vac.handle := "h1"; Vac.mime := false;
         Vac.from := None; Vac.from_normalized := None;
         Vac.addresses := None |}
      Demo.world0 = Some (true, w')
    /\ w_trace w' = w_trace Demo.world0 ++ evs
    /\ In (EvSmtpClose 1 true) evs
    /\ In (EvDuplicateMark "root@hosth1" (Some "jane") 62184) evs
    /\ ~ In (EvDuplicateMark "root@hosth1" (Some "jane")
               (1000 + 213503982334602 * 86400)) evs.
Proof.
  match eval vm_compute in
    (@Vacation.act_vacation_commit Demo.externals Demo.full_senv Demo.message
       {| Vac.reason := "I am away"; Vac.days := 213503982334602%N;
          Vac.subject := Some "Away"; Vac.handle := "h1"; Vac.mime := false;
          Vac.from := None; Vac.from_normalized := None;
          Vac.addresses := None |}
       Demo.world0) with
  | Some (_, ?w1) =>
      exists w1;
      match eval vm_compute in (w_trace w1) with
      | ?evs => exists evs
      end
  end.
  split; [vm_compute; reflexivity |].
  split; [reflexivity |].
  split; [repeat (try (left; reflexivity); right) |].
  split; [repeat (try (left; reflexivity); right) |].
  intros Hin.
  repeat (destruct Hin as [Hin | Hin]; [discriminate Hin |]).
  exact Hin.
Qed.

Section DuplicateExt.
Context `{Externals}.
Import Duplicate.

Lemma handles_lookup_app records extra handle last d :
  handles_lookup records handle last = Some d ->
  handles_lookup (records ++ extra) handle last = Some d.
Proof.
  induction records as [| r records IH]; simpl; [discriminate |].
  destruct (CStr.strcmp_eq (Dup.record_handle r) handle
            && Bool.eqb (Dup.record_last r) last)%bool; auto.
Qed.

Lemma handles_lookup_last records handle last d :
  handles_lookup records handle last = None ->
  handles_lookup
    (records ++ [{| Dup.record_handle := handle; Dup.record_last := last;
                    Dup.record_duplicate := d |}]) handle last = Some d.
Proof.
  induction records as [| r records IH]; simpl.
  - intros _. unfold CStr.strcmp_eq. now rewrite String.eqb_refl, Bool.eqb_reflx.
  - destruct (CStr.strcmp_eq (Dup.record_handle r) handle
              && Bool.eqb (Dup.record_last r) last)%bool; [discriminate | auto].
Qed.

(** Caching a verdict makes it the cached verdict. *)
Lemma cache_result_hit rctx handle last d :
  cached_verdict rctx handle last = None ->
  cached_verdict (cache_result rctx handle last d) handle last = Some d.
Proof.
  destruct handle as [h |]; simpl.
  - destruct (Dup.handles rctx) as [records |].
    + apply handles_lookup_last.
    + intros _. simpl. unfold CStr.strcmp_eq.
      now rewrite String.eqb_refl, Bool.eqb_reflx.
  - reflexivity.
Qed.

(** Caching the verdict of one key keeps the verdicts cached before. *)
Lemma cache_result_keeps rctx handle last d handle' last' d' :
  cached_verdict rctx handle last = Some d ->
  cached_verdict rctx handle' last' = None ->
  cached_verdict (cache_result rctx handle' last' d') handle last = Some d.
Proof.
  destruct handle as [h |], handle' as [h' |]; simpl; auto.
  - destruct (Dup.handles rctx) as [records |]; [| discriminate].
    intros Hd _. now apply handles_lookup_app.
  - destruct (Dup.nohandle_checked rctx); [| discriminate]. discriminate.
Qed.

Ltac run_check :=
  unfold ext_duplicate_check, sieve_runtime_warning, sieve_action_duplicate_check,
    sieve_result_add_action, bind, ret, emit, on_host, get_msgctx, set_msgctx.

(** Case analysis on the host answers met along a call. *)
Ltac host_cases :=
  repeat match goal with
         | |- context [let (_, _) := ?f ?a ?b ?c in _] =>
             destruct (f a b c) as [? ?]; simpl
         | |- context [let (_, _) := ?f ?a ?b in _] =>
             destruct (f a b) as [? ?]; simpl
         | |- context [if ?z <? 0 then _ else _] => destruct (z <? 0); simpl
         end.

Lemma empty_context_miss handle last :
  cached_verdict empty_context handle last = None.
Proof. destruct handle; reflexivity. Qed.

Ltac context_case rc :=
  first [ now left
        | right; left; now repeat split
        | right; right; exists rc, true;
          solve [repeat split; auto using empty_context_miss]
        | right; right; exists rc, false;
          solve [repeat split; auto using empty_context_miss] ].

(** What a call does to the context of the extension. *)
Lemma check_context senv handle value period last w r w1 :
  ext_duplicate_check senv handle value period last w = Some (r, w1) ->
  w_msgctx w1 = w_msgctx w
  \/ (w_msgctx w = None /\ r = -1 /\ w_msgctx w1 = Some empty_context)
  \/ exists rctx d,
       r = bool_to_int d /\
       w_msgctx w1 = Some (cache_result rctx handle last d) /\
       cached_verdict rctx handle last = None /\
       (w_msgctx w = Some rctx \/ (w_msgctx w = None /\ rctx = empty_context)).
Proof.
  run_check.
  destruct (sieve_action_duplicate_check_available senv); simpl;
    [| intros E; inversion E; subst; auto].
  destruct value as [value |]; [| intros E; inversion E; subst; auto].
  destruct (w_msgctx w) as [rctx |] eqn:Ectx; simpl.
  - destruct (cached_verdict rctx handle last) as [d |] eqn:Ecache; simpl;
      [intros E; inversion E; subst; auto |].
    destruct (duplicate_check senv) as [chk |]; simpl;
      [destruct (chk (w_host w) _ _) as [dup hst]; simpl; destruct dup |];
      destruct last; simpl; host_cases;
      intros E; inversion E; subst; simpl; context_case rctx.
  - destruct (duplicate_check senv) as [chk |]; simpl;
      [destruct (chk (w_host w) _ _) as [dup hst]; simpl; destruct dup |];
      destruct last; simpl; host_cases;
      intros E; inversion E; subst; simpl; context_case empty_context.
Qed.

(** A call keeps the verdicts that are cached. *)
Lemma check_keeps_cache senv handle' value period last' w r w1 rctx handle last d :
  ext_duplicate_check senv handle' value period last' w = Some (r, w1) ->
  w_msgctx w = Some rctx ->
  cached_verdict rctx handle last = Some d ->
  exists rctx1,
    w_msgctx w1 = Some rctx1 /\ cached_verdict rctx1 handle last = Some d.
Proof.
  intros E Hctx Hd.
  destruct (check_context _ _ _ _ _ _ _ _ E)
    as [Hsame | [(Hnone & _) | (rc & d' & _ & Hw1 & Hmiss & [Hrc | (Hnone & _)])]];
    try congruence.
  - exists rctx. split; congruence.
  - assert (rc = rctx) by congruence. subst rc.
    eexists. split; [exact Hw1 |]. now apply cache_result_keeps.
Qed.

Lemma later_keeps_cache w1 w2 :
  later w1 w2 ->
  forall rctx handle last d,
    w_msgctx w1 = Some rctx ->
    cached_verdict rctx handle last = Some d ->
    exists rctx2,
      w_msgctx w2 = Some rctx2 /\ cached_verdict rctx2 handle last = Some d.
Proof.
  induction 1 as [w | w wa wb senv handle' value period last' r Hl IH E
                    | w wa wb Hl IH Hsame];
    intros rctx handle last d Hctx Hd.
  - eauto.
  - destruct (IH _ _ _ _ Hctx Hd) as (rca & Hca & Hda).
    eapply check_keeps_cache; eauto.
  - destruct (IH _ _ _ _ Hctx Hd) as (rca & Hca & Hda).
    exists rca. split; congruence.
Qed.

(** A call that answers with a verdict leaves that verdict cached. *)
Lemma check_caches senv handle value period last w r w1 :
  sieve_action_duplicate_check_available senv = true ->
  ext_duplicate_check senv handle (Some value) period last w = Some (r, w1) ->
  r <> -1 ->
  exists rctx d,
    w_msgctx w1 = Some rctx /\ cached_verdict rctx handle last = Some d
    /\ r = bool_to_int d.
Proof.
  intros Havail E Hr.
  destruct (check_context _ _ _ _ _ _ _ _ E)
    as [Hsame | [(_ & Hm & _) | (rc & d' & Hrd & Hw1 & Hmiss & _)]];
    [| contradiction |].
  - (* the context is as it was: the answer came from the cache *)
    revert E. run_check. rewrite Havail. simpl.
    destruct (w_msgctx w) as [rctx |] eqn:Ectx; simpl.
    + destruct (cached_verdict rctx handle last) as [d |] eqn:Ecache; simpl.
      * intros E. inversion E; subst. exists rctx, d. rewrite Ectx. auto.
      * destruct (duplicate_check senv) as [chk |]; simpl;
          [destruct (chk (w_host w) _ _) as [dup hst]; simpl; destruct dup |];
          destruct last; simpl; host_cases;
          intros E; inversion E; subst; simpl in *; try congruence;
          eexists; eexists; (split; [reflexivity |]);
          (split; [now apply cache_result_hit | reflexivity]).
    + destruct (duplicate_check senv) as [chk |]; simpl;
        [destruct (chk (w_host w) _ _) as [dup hst]; simpl; destruct dup |];
        destruct last; simpl; host_cases;
        intros E; inversion E; subst; simpl in *; congruence.
  - exists (cache_result rc handle last d'), d'.
    split; [exact Hw1 |]. split; [now apply cache_result_hit | exact Hrd].
Qed.

(** With the verdict cached, a call answers it and does nothing else. *)
Lemma check_cached senv handle value period last w rctx d :
  sieve_action_duplicate_check_available senv = true ->
  w_msgctx w = Some rctx ->
  cached_verdict rctx handle last = Some d ->
  ext_duplicate_check senv handle (Some value) period last w
  = Some (bool_to_int d, w).
Proof.
  intros Havail Hctx Hd. run_check. rewrite Havail. simpl.
  rewrite Hctx. simpl. rewrite Hd. reflexivity.
Qed.

(** A call looks into the database at most twice, and at most once without
    [:last]. *)
Lemma check_queries senv handle value period last w r w1 :
  ext_duplicate_check senv handle value period last w = Some (r, w1) ->
  exists evs,
    w_trace w1 = w_trace w ++ evs /\
    (List.length (store_queries evs) <= (if last then 2 else 1))%nat.
Proof.
  run_check.
  destruct (sieve_action_duplicate_check_available senv); simpl;
    [| intros E; inversion E; subst; simpl; eexists; split;
       [reflexivity | destruct last; simpl; lia]].
  destruct value as [value |];
    [| intros E; inversion E; subst; exists []; rewrite app_nil_r; split;
       [reflexivity | destruct last; simpl; lia]].
  destruct (w_msgctx w) as [rctx |] eqn:Ectx; simpl;
    [destruct (cached_verdict rctx handle last) as [d |] eqn:Ecache; simpl;
       [intros E; inversion E; subst; exists []; rewrite app_nil_r; split;
          [reflexivity | destruct last; simpl; lia] |] |];
    (destruct (duplicate_check senv) as [chk |]; simpl;
      [destruct (chk (w_host w) _ _) as [dup hst]; simpl; destruct dup |];
      destruct last; simpl; host_cases;
      intros E; inversion E; subst; simpl;
      rewrite <- ?app_assoc; simpl;
      try (eexists; split; [reflexivity | simpl; lia]);
      try (exists []; rewrite app_nil_r; split; [reflexivity | simpl; lia])).
Qed.

(** C3.  With a host that provides [duplicate_mark], the finish hook of the
    duplicate_mark action calls it (with the hash of the action and the
    expiry time [ioloop_time + period]) exactly when the status it is given
    is SIEVE_EXEC_OK; given any other status it does nothing at all. *)
Theorem duplicate_mark_only_on_success
    (senv : sieve_script_env host_state) (data : Dup.act_duplicate_mark_data)
    (status : Z) (w : world)
    (mark : host_state -> hash_t -> option string -> Z -> host_state) :
  duplicate_mark senv = Some mark ->
  (status = SIEVE_EXEC_OK ->
   act_duplicate_mark_finish senv data status w =
   Some (tt,
         emitted
           (with_host w
              (mark (w_host w) (Dup.hash data) (username senv)
                 (ioloop_time w + Dup.period data)))
           [EvDuplicateMark (Dup.hash data) (username senv)
              (ioloop_time w + Dup.period data)]))
  /\
  (status <> SIEVE_EXEC_OK ->
   act_duplicate_mark_finish senv data status w = Some (tt, w)).
Proof.
  intros Hmark. unfold act_duplicate_mark_finish. split.
  - intros ->. rewrite Z.eqb_refl.
    unfold sieve_action_duplicate_mark, bind, get_time. rewrite Hmark.
    reflexivity.
  - intros Hne. apply Z.eqb_neq in Hne. rewrite Hne. reflexivity.
Qed.

(** C9 (as amended).  Within one message context, once a call of
    [ext_duplicate_check] for a handle (or for no handle) and a [last] flag
    has passed the availability and value checks and answered with a verdict
    (0 or 1), the verdict is cached in the per-message context of the
    extension: every later call that passes those checks with an equal
    handle and the same [last] flag answers the same verdict and does
    nothing else; in particular it does not query the database.  The
    answering call itself queries the database at most once without
    [:last], and at most twice with it. *)
Theorem duplicate_verdict_cached
    (senv senv' : sieve_script_env host_state) (handle : option string)
    (value value' : string) (period period' : N) (last : bool)
    (w w1 w2 : world) (r : Z) :
  sieve_action_duplicate_check_available senv = true ->
  ext_duplicate_check senv handle (Some value) period last w = Some (r, w1) ->
  r <> -1 ->
  later w1 w2 ->
  sieve_action_duplicate_check_available senv' = true ->
  (exists evs,
     w_trace w1 = w_trace w ++ evs /\
     (List.length (store_queries evs) <= (if last then 2 else 1))%nat)
  /\
  ext_duplicate_check senv' handle (Some value') period' last w2 = Some (r, w2).
Proof.
  intros Havail E Hr Hlater Havail'. split.
  - eapply check_queries; eauto.
  - destruct (check_caches _ _ _ _ _ _ _ _ Havail E Hr) as (rctx & d & Hctx & Hd & ->).
    destruct (later_keeps_cache _ _ Hlater _ _ _ _ Hctx Hd) as (rctx2 & Hctx2 & Hd2).
    eapply check_cached; eauto.
Qed.

End DuplicateExt.

Lemma duplicate_mark_only_on_success_witness :
  @Duplicate.act_duplicate_mark_finish Demo.externals Demo.full_senv
    {| Dup.handle := Some "h"; Dup.period := 600;
       Dup.hash := "digest"; Dup.last := false |} 1 Demo.world0
  = Some (tt,
          emitted
            (with_host Demo.world0 [("digest", Some "jane", 1600)])
            [EvDuplicateMark "digest" (Some "jane") 1600])
  /\
  @Duplicate.act_duplicate_mark_finish Demo.externals Demo.full_senv
    {| Dup.handle := Some "h"; Dup.period := 600;
       Dup.hash := "digest"; Dup.last := false |} 0 Demo.world0
  = Some (tt, Demo.world0).
Proof.
  split.
  - apply (proj1 (@duplicate_mark_only_on_success Demo.externals Demo.full_senv
                    {| Dup.handle := Some "h"; Dup.period := 600;
                       Dup.hash := "digest"; Dup.last := false |}
                    1 Demo.world0 Demo.db_mark eq_refl)).
    reflexivity.
  - apply (proj2 (@duplicate_mark_only_on_success Demo.externals Demo.full_senv
                    {| Dup.handle := Some "h"; Dup.period := 600;
                       Dup.hash := "digest"; Dup.last := false |}
                    0 Demo.world0 Demo.db_mark eq_refl)).
    discriminate.
Defined.

(** C9, as it was stated, fails on both counts.  The database is consulted
    more than once for one key: a first call with handle [h] and [:last],
    for a message the database does not know, looks up the hash with
    [:last] and then the hash without it.  And a later call with an equal
    handle and the same [last] flag need not answer the cached verdict: with
    the verdict 1 cached for handle [h], a call that has no value to check
    answers 0. *)
Lemma duplicate_check_not_once_per_key :
  (exists w',
     @Duplicate.ext_duplicate_check Demo.externals Demo.full_senv
       (Some "h") (Some "v") 10%N true Demo.world0 = Some (0, w')
     /\ store_queries (w_trace w')
        = [EvDuplicateCheck "sieve duplicate0h-hv" (Some "jane") false;
           EvDuplicateCheck "sieve duplicate+h-hv" (Some "jane") false])
  /\
  (exists w1,
     @Duplicate.ext_duplicate_check Demo.externals Demo.full_senv
       (Some "h") (Some "v") 10%N false Demo.world_tracked = Some (1, w1)
     /\ @Duplicate.ext_duplicate_check Demo.externals Demo.full_senv
          (Some "h") None 10%N false w1 = Some (0, w1)).
Proof.
  split; eexists; split; vm_compute; reflexivity.
Qed.

Lemma duplicate_verdict_cached_witness :
  exists w1,
    @Duplicate.ext_duplicate_check Demo.externals Demo.full_senv
      (Some "h") (Some "v") 10%N true Demo.world0 = Some (0, w1)
    /\ @Duplicate.ext_duplicate_check Demo.externals Demo.full_senv
         (Some "h") (Some "another value") 99%N true w1 = Some (0, w1).
Proof.
  match eval vm_compute in
    (@Duplicate.ext_duplicate_check Demo.externals Demo.full_senv
       (Some "h") (Some "v") 10%N true Demo.world0) with
  | Some (_, ?w1) =>
      assert (Hrun : @Duplicate.ext_duplicate_check Demo.externals
                       Demo.full_senv (Some "h") (Some "v") 10%N true
                       Demo.world0 = Some (0, w1))
        by (vm_compute; reflexivity);
      exists w1
  end.
  split; [exact Hrun |].
  exact (proj2 (@duplicate_verdict_cached Demo.externals
                  Demo.full_senv Demo.full_senv (Some "h") "v" "another value"
                  10%N 99%N true Demo.world0 _ _ 0
                  eq_refl Hrun ltac:(discriminate)
                  (@Duplicate.later_refl Demo.externals _) eq_refl)).
Defined.

Section Capabilities.
Context `{Externals}.

(** C8.  A host capability that is missing degrades to a warning.  When the
    script environment has no [duplicate_check] (so that the availability
    test of the duplicate extension fails), [ext_duplicate_check] reports
    one runtime warning and answers 0, not a duplicate.  When it has no
    [smtp_open] or no [smtp_close], [act_vacation_send] reports one warning,
    writes nothing and returns TRUE, and every commit of the vacation action
    returns TRUE without SMTP traffic and without an error line. *)
Theorem missing_capability_is_a_warning
    (senv : sieve_script_env host_state) (msgdata : sieve_message_data)
    (handle value : option string) (period : N) (last : bool)
    (ctx : Vac.act_vacation_context) (w : world) :
  (duplicate_check senv = None ->
   sieve_action_duplicate_check_available senv = false) ->
  (duplicate_check senv = None ->
   Duplicate.ext_duplicate_check senv handle value period last w =
   Some (0,
         emitted w
           [EvRuntimeWarning None
              ("duplicate test: "
               ++ "duplicate checking not available in this context")]))
  /\
  (smtp_open senv = None \/ smtp_close senv = None ->
   Vacation.act_vacation_send senv msgdata ctx w =
   Some (true,
         emitted w [EvResultWarning "vacation action has no means to send mail."])
   /\
   forall b w',
     Vacation.act_vacation_commit senv msgdata ctx w = Some (b, w') ->
     b = true /\ exists evs, w_trace w' = w_trace w ++ evs /\ Forall quiet evs).
Proof.
  intros Havail. split.
  - intros Hnone. unfold Duplicate.ext_duplicate_check.
    rewrite (Havail Hnone). reflexivity.
  - intros Hno. split.
    + now apply send_without_smtp.
    + intros b w' Hc.
      destruct (commit_without_smtp_yields senv msgdata ctx Hno _ _ _ Hc)
        as (Hb & _ & evs & Hevs & Hq).
      split; [exact Hb |]. exists evs. split; assumption.
Qed.

End Capabilities.

Lemma missing_capability_is_a_warning_witness :
  @Duplicate.ext_duplicate_check Demo.externals Demo.bare_senv
    (Some "h") (Some "v") 10%N false Demo.world0
  = Some (0,
          emitted Demo.world0
            [EvRuntimeWarning None
               "duplicate test: duplicate checking not available in this context"])
  /\
  @Vacation.act_vacation_send Demo.externals Demo.bare_senv Demo.message
    Demo.vacation_ctx Demo.world0
  = Some (true,
          emitted Demo.world0
            [EvResultWarning "vacation action has no means to send mail."]).
Proof.
  split.
  - apply (proj1 (@missing_capability_is_a_warning Demo.externals
                    Demo.bare_senv Demo.message (Some "h") (Some "v") 10%N
                    false Demo.vacation_ctx Demo.world0 (fun _ => eq_refl))).
    reflexivity.
  - apply (proj2 (@missing_capability_is_a_warning Demo.externals
                    Demo.bare_senv Demo.message (Some "h") (Some "v") 10%N
                    false Demo.vacation_ctx Demo.world0 (fun _ => eq_refl))).
    left. reflexivity.
Defined.

Section AddressTestFacts.
Context `{Externals} `{AddressTest.AddrMatchReader}.
Import AddressTest.

Lemma address_list_match_is keys addrs : forall mctx,
  is_octet_context keys mctx ->
  fst (address_list_match all_address_part mctx addrs)
  = existsb (address_is_key keys) addrs
  /\ is_octet_context keys (snd (address_list_match all_address_part mctx addrs)).
Proof.
  induction addrs as [| a addrs IH]; intros mctx Hm; simpl; [auto |].
  unfold address_is_key at 1.
  destruct (mailbox a) as [m |]; [destruct (domain a) as [d |] |]; simpl; try (apply IH; assumption).
  destruct Hm as (Hmt & Hcmp & Hkeys).
  unfold sieve_match_value. rewrite Hmt, Hcmp, Hkeys. simpl.
  destruct (existsb (String.eqb (m ++ "@" ++ d)) keys) eqn:E;
    simpl in E |- *; rewrite ?E; simpl.
  - split; [reflexivity |]. repeat split; assumption.
  - apply IH. repeat split; assumption.
Qed.

Lemma headers_match_is keys headers : forall mctx,
  is_octet_context keys mctx ->
  fst (headers_match all_address_part mctx headers)
  = existsb (fun hd => existsb (address_is_key keys) (message_address_parse hd)) headers
  /\ is_octet_context keys (snd (headers_match all_address_part mctx headers)).
Proof.
  induction headers as [| hd headers IH]; intros mctx Hm; simpl; [auto |].
  unfold sieve_address_match.
  destruct (address_list_match_is keys (message_address_parse hd) mctx Hm) as [Hf Hs].
  destruct (address_list_match all_address_part mctx (message_address_parse hd))
    as [matched mctx']. simpl in Hf, Hs. subst matched.
  destruct (existsb (address_is_key keys) (message_address_parse hd)); simpl; auto.
Qed.

Lemma hdr_list_match_is msgdata keys hdr_items : forall mctx,
  is_octet_context keys mctx ->
  fst (hdr_list_match msgdata all_address_part mctx hdr_items)
  = some_address_is_key msgdata hdr_items keys
  /\ is_octet_context keys (snd (hdr_list_match msgdata all_address_part mctx hdr_items)).
Proof.
  induction hdr_items as [| hdr_item hdr_items IH]; intros mctx Hm; simpl; [auto |].
  destruct (mail_get_headers_utf8 msgdata hdr_item) as [headers |]; simpl; [| apply IH; assumption].
  destruct (headers_match_is keys headers mctx Hm) as [Hf Hs].
  destruct (headers_match all_address_part mctx headers) as [matched mctx'].
  simpl in Hf, Hs. subst matched.
  destruct (existsb _ headers); simpl; auto.
Qed.

(** C1 (as amended).  When the ADDRESS test is executed and no comparator,
    match-type or address-part optional operand is present, it matches with
    the defaults it starts from: the [i;octet] comparator, the [:is] match
    type and the [:all] address part.  So the default match is exact: the
    test holds just when some address [local@domain] of a listed header
    equals a key octet by octet, case included. *)
Theorem address_test_defaults
    (msgdata : sieve_message_data) (sbin : sieve_binary) (address a1 a2 a3 : N)
    (hdr_list key_list : sieve_coded_stringlist) :
  sieve_addrmatch_default_get_optionals sbin address = Some (a1, None, None, None) ->
  sieve_opr_stringlist_read sbin a1 = Some (hdr_list, a2) ->
  sieve_opr_stringlist_read sbin a2 = Some (key_list, a3) ->
  tst_address_opcode_execute msgdata sbin address
  = Some (address_match_run msgdata all_address_part is_match_type
            i_octet_comparator hdr_list key_list)
  /\
  address_match_run msgdata all_address_part is_match_type i_octet_comparator
    hdr_list key_list
  = some_address_is_key msgdata (sieve_coded_stringlist_items hdr_list)
      (sieve_coded_stringlist_items key_list).
Proof.
  intros Hopt Hhdr Hkey. split.
  - unfold tst_address_opcode_execute. rewrite Hopt. simpl. rewrite Hhdr, Hkey.
    reflexivity.
  - unfold address_match_run.
    destruct (hdr_list_match_is msgdata (sieve_coded_stringlist_items key_list)
                (sieve_coded_stringlist_items hdr_list)
                (sieve_match_begin is_match_type i_octet_comparator key_list))
      as [Hf Hs].
    { repeat split. }
    destruct (hdr_list_match msgdata all_address_part _ _) as [matched mctx].
    simpl in Hf, Hs. subst matched. destruct Hs as (Hmt & _ & _).
    unfold sieve_match_end. rewrite Hmt. reflexivity.
Qed.

End AddressTestFacts.

(** C1, as it was stated, fails: with no optional operand the test does not
    match [root@host] against the key [ROOT@HOST], which the
    [i;ascii-casemap] comparator would match. *)
Lemma address_test_default_is_not_casemap :
  @AddressTest.tst_address_opcode_execute Demo.externals Demo.reader
    Demo.addrmatch_reader Demo.message Demo.address_code 0%N = Some false
  /\
  @AddressTest.address_match_run Demo.externals Demo.reader Demo.addrmatch_reader
    Demo.message AddressTest.all_address_part AddressTest.is_match_type
    AddressTest.i_ascii_casemap_comparator ["from"] ["ROOT@HOST"] = true.
Proof. split; vm_compute; reflexivity. Qed.

Lemma address_test_defaults_witness :
  @AddressTest.tst_address_opcode_execute Demo.externals Demo.reader
    Demo.addrmatch_reader Demo.message
    [Demo.CStringList ["from"]; Demo.CStringList ["root@host"]] 0%N
  = Some true.
Proof.
  rewrite (proj1 (@address_test_defaults Demo.externals Demo.reader
                    Demo.addrmatch_reader Demo.message
                    [Demo.CStringList ["from"]; Demo.CStringList ["root@host"]]
                    0%N 0%N 1%N 2%N ["from"] ["root@host"]
                    eq_refl eq_refl eq_refl)).
  vm_compute. reflexivity.
Defined.

(* ===================================================================== *)
(** * The model at work *)
(* ===================================================================== *)

(** The C string helpers behave as their libc counterparts. *)
Example is_system_address_examples :
  Vacation._is_system_address "MAILER-DAEMON@example.org" = true
  /\ Vacation._is_system_address "mailer-daemon" = true
  /\ Vacation._is_system_address "Majordomo@lists.example.org" = true
  /\ Vacation._is_system_address "users-request@lists.example.org" = true
  /\ Vacation._is_system_address "owner-users@lists.example.org" = true
  /\ Vacation._is_system_address "Owner-users@lists.example.org" = false
  /\ Vacation._is_system_address "mailer" = false
  /\ Vacation._is_system_address "jane@example.org" = false.
Proof. repeat split; reflexivity. Qed.

(** [vacation :days 7 :subject "Away" :handle "h1" "I am away"] delivered
    twice to the same sender: the first delivery sends the reply and marks
    the sender, the second one only looks the sender up and logs that the
    duplicate was discarded. *)
Example vacation_delivered_twice :
  exists w1 w2,
    @Vacation.act_vacation_commit Demo.externals Demo.full_senv Demo.message
      Demo.vacation_ctx Demo.world0 = Some (true, w1)
    /\ In (EvSmtpClose 1 true) (w_trace w1)
    /\ In (EvDuplicateMark "root@hosth1" (Some "jane") 605800) (w_trace w1)
    /\ @Vacation.act_vacation_commit Demo.externals Demo.full_senv Demo.message
         Demo.vacation_ctx w1 = Some (true, w2)
    /\ w_trace w2
       = w_trace w1
         ++ [EvDuplicateCheck "root@hosth1" (Some "jane") true;
             EvResultLog "discarded duplicate vacation response to <root@host>"].
Proof.
  match eval vm_compute in
    (@Vacation.act_vacation_commit Demo.externals Demo.full_senv Demo.message
       Demo.vacation_ctx Demo.world0) with
  | Some (_, ?w1) =>
      exists w1;
      match eval vm_compute in
        (@Vacation.act_vacation_commit Demo.externals Demo.full_senv
           Demo.message Demo.vacation_ctx w1) with
      | Some (_, ?w2) => exists w2
      end
  end.
  repeat split; try (vm_compute; reflexivity);
    vm_compute; repeat (try (left; reflexivity); right).
Qed.

(** The VACATION operation on [vacation :days 0 :subject "Away"]: the
    action is requested with [days = 1]. *)
Example vacation_days_zero_runs :
  @Vacation.ext_vacation_operation_execute Demo.externals Demo.reader
    10 Demo.vacation_code 0%N Demo.world0
  = Some (1,
          emitted Demo.world0
            [EvTrace "VACATION action";
             EvAddAction
               {| req_action := @Vacation.act_vacation Demo.externals;
                  req_source_line := Some 3%N;
                  req_context :=
                    CtxVacation
                      {| Vac.reason := "I am away"; Vac.days := 1%N;
                         Vac.subject := Some "Away"; Vac.handle := "h1";
                         Vac.mime := false; Vac.from := None;
                         Vac.from_normalized := None;
                         Vac.addresses := None |} |} 0]).
Proof. vm_compute. reflexivity. Qed.
(* ===================================================================== *)
(** * Further properties: tools *)
(* ===================================================================== *)

Section Inversion.
Context `{Externals}.

Lemma bind_inv {A B} (c : M A) (k : A -> M B) w b w' :
  bind c k w = Some (b, w') ->
  exists a w1, c w = Some (a, w1) /\ k a w1 = Some (b, w').
Proof.
  unfold bind. destruct (c w) as [[a w1] |]; [eauto | discriminate].
Qed.

Lemma ret_inv {A} (a b : A) w w' : ret a w = Some (b, w') -> b = a /\ w' = w.
Proof. intros E. inversion E. auto. Qed.

Lemma emit_inv e w (a : unit) w' :
  emit e w = Some (a, w') -> w' = emitted w [e].
Proof. intros E. inversion E. reflexivity. Qed.

Lemma on_host_inv {A} (f : host_state -> A * host_state) w a w' :
  on_host f w = Some (a, w') ->
  exists h, f (w_host w) = (a, h) /\ w' = with_host w h.
Proof.
  unfold on_host. destruct (f (w_host w)) as [a' h]. intros E.
  inversion E; subst. eauto.
Qed.

Lemma get_time_inv w a w' :
  get_time w = Some (a, w') -> a = ioloop_time w /\ w' = w.
Proof. intros E. inversion E. auto. Qed.

Lemma lift_option_inv {A} (o : option A) w a w' :
  lift_option o w = Some (a, w') -> o = Some a /\ w' = w.
Proof. destruct o; simpl; intros E; inversion E; auto. Qed.

Lemma returns_ret {A} (a : A) : returns (ret a).
Proof. intros w. eexists; eexists; reflexivity. Qed.

Lemma returns_bind {A B} (c : M A) (k : A -> M B) :
  returns c -> (forall a, returns (k a)) -> returns (bind c k).
Proof.
  intros Hc Hk w. unfold bind. destruct (Hc w) as (a & w1 & ->). apply Hk.
Qed.

Lemma returns_bind_ret {A B} (a : A) (k : A -> M B) :
  returns (k a) -> returns (bind (ret a) k).
Proof. intros Hk w. unfold bind, ret. apply Hk. Qed.

Lemma returns_emit e : returns (emit e).
Proof. intros w. eexists; eexists; reflexivity. Qed.

Lemma returns_on_host {A} (f : host_state -> A * host_state) :
  returns (on_host f).
Proof.
  intros w. unfold on_host. destruct (f (w_host w)). eexists; eexists; reflexivity.
Qed.

Lemma returns_get_time : returns get_time.
Proof. intros w. eexists; eexists; reflexivity. Qed.

End Inversion.

(** What a run [E1 : c w = Some (a, w1)] whose events all satisfy [P] adds
    to the trace. *)
Ltac events_of E1 P :=
  match type of E1 with
  | ?c ?w0 = Some (_, ?w1) =>
      let Hy := fresh "Hy" in
      let evs := fresh "evs" in
      let Ht := fresh "Ht" in
      let Hevs := fresh "Hevs" in
      let HF := fresh "HF" in
      assert (Hy : yields P (fun _ => True) c)
        by (repeat yields_go; auto);
      destruct (Hy _ _ _ E1) as (_ & Ht & evs & Hevs & HF); clear Hy E1
  end.

(** Take the first step of the run [E : bind c k w = Some _] apart.  A first
    step that is no primitive is summarised by the events it adds, which
    all satisfy [P]. *)
Ltac step P E :=
  let a := fresh "a" in
  let w1 := fresh "w" in
  let E1 := fresh "E" in
  apply bind_inv in E; destruct E as (a & w1 & E1 & E);
  first
    [ apply emit_inv in E1; subst w1
    | apply get_time_inv in E1; destruct E1 as [-> ->]
    | apply lift_option_inv in E1; destruct E1 as [E1 ->]
    | let h := fresh "h" in let Eh := fresh "Eh" in
      apply on_host_inv in E1; destruct E1 as (h & Eh & ->)
    | events_of E1 P ];
  cbn [w_host ioloop_time w_trace emitted with_host] in *.

(** An event is found in a trace given piece by piece. *)
Ltac in_trace :=
  repeat first [ left; reflexivity | right | apply in_or_app; right ].

(** Proofs of [returns] follow the shape of the computation. *)
Ltac returns_go :=
  match goal with
  | |- returns (bind _ _) => apply returns_bind; [| intros ?]
  | |- returns (ret _) => apply returns_ret
  | |- returns (emit _) => apply returns_emit
  | |- returns (on_host _) => apply returns_on_host
  | |- returns get_time => apply returns_get_time
  | |- returns (match ?x with _ => _ end) => destruct x
  | |- returns (if ?x then _ else _) => destruct x
  | |- returns (let (_, _) := ?x in _) => destruct x
  end.

Lemma filter_none {A} (f : A -> bool) (P : A -> Prop) (l : list A) :
  (forall a, P a -> f a = false) -> Forall P l -> filter f l = [].
Proof.
  intros Hf HP. induction HP as [| a l Ha _ IH]; simpl; [reflexivity |].
  now rewrite (Hf _ Ha).
Qed.

Lemma smtp_line_no_session e : is_smtp_line e = true -> is_session_event e = false.
Proof. destruct e; simpl; congruence. Qed.

Lemma smtp_line_no_error e : is_smtp_line e = true -> is_error_event e = false.
Proof. destruct e; simpl; congruence. Qed.

Lemma smtp_line_smtp e :
  is_smtp_line e = true -> is_smtp_event e = true \/ is_error_event e = true.
Proof. destruct e; simpl; auto. Qed.

(* ===================================================================== *)
(** * Further properties: the vacation reply *)
(* ===================================================================== *)

Section VacationReply.
Context `{Externals}.
Variable senv : sieve_script_env host_state.
Variable msgdata : sieve_message_data.
Import Vacation.

(** The anatomy of a run of [act_vacation_send] on a host with SMTP. *)
Lemma send_session ctx w b w' so sc :
  smtp_open senv = Some so -> smtp_close senv = Some sc ->
  act_vacation_send senv msgdata ctx w = Some (b, w') ->
  b = true /\ ioloop_time w' = ioloop_time w /\
  exists rp subj evs h ok,
    return_path msgdata = Some rp /\ Vac.subject ctx = Some subj /\
    w_trace w' = w_trace w ++ EvSmtpOpen (Some rp) h :: evs /\
    filter is_session_event evs = [EvSmtpClose h ok] /\
    filter is_error_event evs =
      (if ok then []
       else [EvResultError
               ("failed to send vacation response to <" ++ str_sanitize rp 128
                ++ "> (refer to server log for more information)")]) /\
    Forall (fun e => is_smtp_event e = true \/ is_error_event e = true) evs /\
    In (EvSmtpHeader "To" ("<" ++ rp ++ ">")) evs /\
    In (EvSmtpHeader "Subject" (str_sanitize subj 256)) evs /\
    In (EvSmtpHeader "Auto-Submitted" "auto-replied (vacation)") evs /\
    In (EvSmtpHeader "Precedence" "bulk") evs /\
    In (EvSmtpText (Vac.reason ctx ++ CRLF)) evs.
Proof.
  intros Hso Hsc E.
  unfold act_vacation_send in E. rewrite Hso, Hsc in E.
  unfold rfc2822_header_field_write, smtp_write, deref, sieve_result_error in E.
  repeat step (fun e => is_smtp_line e = true) E.
  match goal with
  | Ha : return_path msgdata = Some ?rp, Hb : Vac.subject ctx = Some ?subj,
    Hc : sc _ ?n = (?ok, _),
    Hd : sieve_message_get_new_id _ = (?mid, _),
    Ha1 : w_trace ?wa = _ ++ ?evs1,
    Ha2 : w_trace ?wb = ((w_trace ?wa ++ _) ++ _) ++ ?evs2,
    Ha3 : w_trace ?wc = (((w_trace ?wb ++ _) ++ _) ++ _) ++ ?evs3,
    HF1 : Forall _ ?evs1, HF2 : Forall _ ?evs2, HF3 : Forall _ ?evs3 |- _ =>
      rewrite Ha in *;
      assert (Hend : b = true /\ ioloop_time w' = ioloop_time w /\
                w_trace w' =
                w_trace w ++ EvSmtpOpen (Some rp) n ::
                  [EvSmtpHeader "X-Sieve" SIEVE_IMPLEMENTATION;
                   EvSmtpHeader "Message-ID" mid;
                   EvSmtpHeader "Date" (message_date_create (ioloop_time w))]
                  ++ evs1 ++
                  [EvSmtpHeader "To" ("<" ++ rp ++ ">");
                   EvSmtpHeader "Subject" (str_sanitize subj 256)]
                  ++ evs2 ++
                  [EvSmtpHeader "Auto-Submitted" "auto-replied (vacation)";
                   EvSmtpHeader "Precedence" "bulk";
                   EvSmtpHeader "MIME-Version" "1.0"]
                  ++ evs3 ++
                  [EvSmtpText (Vac.reason ctx ++ CRLF); EvSmtpClose n ok]
                  ++ (if ok then []
                      else [EvResultError
                              ("failed to send vacation response to <"
                               ++ str_sanitize rp 128
                               ++ "> (refer to server log for more information)")]));
      [ destruct ok; cbn [negb] in E;
        [| step (fun e => is_smtp_line e = true) E];
        apply ret_inv in E; destruct E as [-> ->];
        cbn [ioloop_time w_trace emitted with_host];
        (split; [reflexivity |]); (split; [congruence |]);
        rewrite Ha3, Ha2, Ha1; rewrite <- !app_assoc; reflexivity
      | destruct Hend as (-> & Htime & Htrace);
        split; [reflexivity |]; split; [exact Htime |];
        exists rp, subj; eexists; exists n, ok;
        split; [reflexivity |]; split; [exact Hb |];
        split; [exact Htrace |];
        repeat split;
        [ rewrite !filter_app,
            (filter_none _ _ _ smtp_line_no_session HF1),
            (filter_none _ _ _ smtp_line_no_session HF2),
            (filter_none _ _ _ smtp_line_no_session HF3);
          destruct ok; reflexivity
        | rewrite !filter_app,
            (filter_none _ _ _ smtp_line_no_error HF1),
            (filter_none _ _ _ smtp_line_no_error HF2),
            (filter_none _ _ _ smtp_line_no_error HF3);
          destruct ok; reflexivity
        | repeat first [ apply Forall_app; split | apply Forall_cons
                       | apply Forall_nil
                       | left; reflexivity | right; reflexivity
                       | eapply Forall_impl; [exact smtp_line_smtp | assumption] ];
          destruct ok; [apply Forall_nil |];
          apply Forall_cons; [right; reflexivity | apply Forall_nil]
        | in_trace .. ] ]
  end.
Qed.

End VacationReply.
(** A run of the commit that ends with a log line and no reply. *)
Ltac discard Hdiscard Hcevs Ht1 HFc E :=
  let Hb := fresh "Hb" in
  let Ht := fresh "Ht" in
  let evs := fresh "evs" in
  let Hevs := fresh "Hevs" in
  let HF := fresh "HF" in
  destruct (Hdiscard _ _ _ Hcevs Ht1 HFc E) as (Hb & Ht & evs & Hevs & HF);
  split; [exact Hb |]; split; [exact Ht |];
  exists evs; split; [exact Hevs | left; exact HF].

Section VacationCommitAnatomy.
Context `{Externals}.
Variable senv : sieve_script_env host_state.
Variable msgdata : sieve_message_data.
Import Vacation.

Lemma log_inv (msg : string) w b w' :
  bind (sieve_result_log msg) (fun _ => ret true) w = Some (b, w') ->
  b = true /\ w' = emitted w [EvResultLog msg].
Proof. rewrite log_run. intros E. inversion E. auto. Qed.

Lemma no_reply_log msg : no_reply (EvResultLog msg).
Proof. split; reflexivity. Qed.

Lemma no_reply_check h u a : no_reply (EvDuplicateCheck h u a).
Proof. split; reflexivity. Qed.

(** The anatomy of a run of [act_vacation_commit]: either it does not
    reply, or it gets through every test, composes the reply, logs that it
    was sent and marks the sender. *)
Lemma commit_anatomy ctx w b w' :
  act_vacation_commit senv msgdata ctx w = Some (b, w') ->
  b = true /\ ioloop_time w' = ioloop_time w /\
  exists evs,
    w_trace w' = w_trace w ++ evs /\
    (Forall no_reply evs
     \/
     exists rp to dupl_hash cevs w1 w2 sevs mevs,
       return_path msgdata = Some rp /\ rp <> "" /\
       to_address msgdata = Some to /\ rp <> to /\
       ((duplicate_check senv = None /\ dupl_hash = uninitialised_hash
         /\ cevs = [])
        \/ (exists chk,
              duplicate_check senv = Some chk
              /\ dupl_hash = md5 (rp ++ Vac.handle ctx)
              /\ cevs = [EvDuplicateCheck dupl_hash (username senv) false])) /\
       is_mailinglist_message msgdata = false /\
       is_auto_submitted msgdata = false /\
       precedence_match msgdata = None /\
       _is_system_address rp = false /\
       is_addressed_to_me msgdata to ctx _my_address_headers = Some true /\
       w_trace w1 = w_trace w ++ cevs /\ ioloop_time w1 = ioloop_time w /\
       act_vacation_send senv msgdata (ensure_subject msgdata ctx) w1
       = Some (true, w2) /\
       w_trace w2 = w_trace w1 ++ sevs /\
       evs = cevs ++ sevs
             ++ EvResultLog ("sent vacation response to <"
                             ++ str_sanitize rp 128 ++ ">") :: mevs /\
       ((duplicate_mark senv = None /\ mevs = [] /\ w_host w' = w_host w2)
        \/ (exists mark,
              duplicate_mark senv = Some mark
              /\ mevs = [EvDuplicateMark dupl_hash (username senv)
                           (to_time_t
                              (ioloop_time w
                               + to_sieve_number (Z.of_N (Vac.days ctx) * 86400)))]
              /\ w_host w'
                 = mark (w_host w2) dupl_hash (username senv)
                     (to_time_t
                        (ioloop_time w
                         + to_sieve_number (Z.of_N (Vac.days ctx) * 86400)))))).
Proof.
  intros E. unfold act_vacation_commit in E.
  (* A run that ends with a log line right after the events [pre]. *)
  assert (Hdiscard : forall msg w0 pre,
            w_trace w0 = w_trace w ++ pre -> ioloop_time w0 = ioloop_time w ->
            Forall no_reply pre ->
            bind (sieve_result_log msg) (fun _ => ret true) w0 = Some (b, w') ->
            b = true /\ ioloop_time w' = ioloop_time w /\
            exists evs, w_trace w' = w_trace w ++ evs /\ Forall no_reply evs).
  { intros msg w0 pre Htr Hti Hpre El. apply log_inv in El.
    destruct El as [-> ->]. split; [reflexivity |]. split; [exact Hti |].
    exists (pre ++ [EvResultLog msg]). split.
    - cbn [w_trace emitted]. rewrite Htr. now rewrite app_assoc.
    - apply Forall_app. split; [exact Hpre |].
      apply Forall_cons; [apply no_reply_log | apply Forall_nil]. }
  assert (Hnone : forall msg,
            bind (sieve_result_log msg) (fun _ => ret true) w = Some (b, w') ->
            b = true /\ ioloop_time w' = ioloop_time w /\
            exists evs, w_trace w' = w_trace w ++ evs /\ Forall no_reply evs).
  { intros msg El. apply (Hdiscard msg w []); auto using app_nil_r. }
  destruct (return_path msgdata) as [[| c0 rp0] |] eqn:Hrp.
  1, 3: destruct (Hnone _ E) as (Hb & Ht & evs & Hevs & HF);
        split; [exact Hb |]; split; [exact Ht |];
        exists evs; split; [exact Hevs | left; exact HF].
  set (rp := String c0 rp0) in *.
  unfold deref in E. step (fun _ : event => True) E. rename E0 into Hto.
  destruct (CStr.strcmp_eq rp a) eqn:Hcmp.
  { destruct (Hnone _ E) as (Hb & Ht & evs & Hevs & HF).
    split; [exact Hb |]. split; [exact Ht |].
    exists evs. split; [exact Hevs | left; exact HF]. }
  apply bind_inv in E. destruct E as ([dupl_hash seen] & w1 & Echeck & E).
  (* The duplicate check. *)
  assert (Hcheck :
            ioloop_time w1 = ioloop_time w /\
            exists cevs, w_trace w1 = w_trace w ++ cevs /\ Forall no_reply cevs /\
              ((duplicate_check senv = None /\ dupl_hash = uninitialised_hash
                /\ cevs = [] /\ seen = false)
               \/ (exists chk,
                     duplicate_check senv = Some chk
                     /\ dupl_hash = md5 (rp ++ Vac.handle ctx)
                     /\ cevs = [EvDuplicateCheck dupl_hash (username senv) seen]))).
  { destruct (duplicate_check senv) as [chk |].
    - unfold act_vacation_hash, deref in Echeck.
      apply bind_inv in Echeck. destruct Echeck as (hsh & wa & Eh & Echeck).
      step (fun _ : event => True) Eh. apply ret_inv in Eh. destruct Eh as [-> ->].
      assert (a0 = rp) by congruence. subst a0.
      repeat step (fun _ : event => True) Echeck.
      apply ret_inv in Echeck. destruct Echeck as [Ep ->].
      injection Ep as Ep1 Ep2. subst dupl_hash seen.
      cbn [ioloop_time w_trace emitted with_host].
      split; [reflexivity |]. eexists. split; [reflexivity |].
      split; [repeat constructor |]. right. exists chk. auto.
    - apply ret_inv in Echeck. destruct Echeck as [Ep ->].
      injection Ep as Ep1 Ep2. subst dupl_hash seen. split; [reflexivity |].
      exists []. rewrite app_nil_r. split; [reflexivity |].
      split; [constructor |]. left. auto. }
  destruct Hcheck as (Ht1 & cevs & Hcevs & HFc & Hhash).
  cbv iota beta in E.
  destruct seen; [discard Hdiscard Hcevs Ht1 HFc E |].
  destruct (is_mailinglist_message msgdata) eqn:Hlist;
    [discard Hdiscard Hcevs Ht1 HFc E |].
  destruct (is_auto_submitted msgdata) eqn:Hauto;
    [discard Hdiscard Hcevs Ht1 HFc E |].
  destruct (precedence_match msgdata) eqn:Hprec;
    [discard Hdiscard Hcevs Ht1 HFc E |].
  destruct (_is_system_address rp) eqn:Hsys;
    [discard Hdiscard Hcevs Ht1 HFc E |].
  step (fun _ : event => True) E. rename E0 into Hmine.
  destruct a0; cbn [negb] in E; [| discard Hdiscard Hcevs Ht1 HFc E].
  (* The reply. *)
  apply bind_inv in E. destruct E as (sent & w2 & Esend & E).
  destruct (send_yields _ _ _ _ _ _ Esend) as (-> & Ht2 & sevs & Hsevs & _).
  step (fun _ : event => True) E.
  apply bind_inv in E. destruct E as ([] & w3 & Emark & E).
  apply ret_inv in E. destruct E as [-> ->].
  assert (Hmark :
            ioloop_time w3 = ioloop_time w /\
            exists mevs,
              w_trace w3
              = w_trace w2
                ++ EvResultLog ("sent vacation response to <"
                                ++ str_sanitize rp 128 ++ ">") :: mevs /\
              ((duplicate_mark senv = None /\ mevs = [] /\ w_host w3 = w_host w2)
               \/ (exists mark,
                     duplicate_mark senv = Some mark
                     /\ mevs = [EvDuplicateMark dupl_hash (username senv)
                                  (to_time_t
                                     (ioloop_time w
                                      + to_sieve_number (Z.of_N (Vac.days ctx) * 86400)))]
                     /\ w_host w3
                        = mark (w_host w2) dupl_hash (username senv)
                            (to_time_t
                               (ioloop_time w
                                + to_sieve_number (Z.of_N (Vac.days ctx) * 86400)))))).
  { destruct (duplicate_mark senv) as [mark |].
    - repeat step (fun _ : event => True) Emark.
      apply emit_inv in Emark. subst w3.
      cbn [ioloop_time w_trace w_host emitted with_host].
      injection Eh as _ Eh. subst h.
      rewrite Ht2, Ht1, ensure_subject_days.
      change (24 * 60 * 60) with 86400.
      split; [reflexivity |]. eexists. split; [rewrite <- app_assoc; reflexivity |].
      right. exists mark. auto.
    - apply ret_inv in Emark. destruct Emark as [_ ->].
      cbn [ioloop_time w_trace w_host emitted with_host].
      split; [congruence |]. exists []. auto. }
  destruct Hmark as (Ht3 & mevs & Hmevs & Hm).
  split; [reflexivity |]. split; [exact Ht3 |].
  exists (cevs ++ sevs
          ++ EvResultLog ("sent vacation response to <"
                          ++ str_sanitize rp 128 ++ ">") :: mevs).
  split; [rewrite Hmevs, Hsevs, Hcevs; now rewrite <- !app_assoc |].
  right. exists rp, a, dupl_hash, cevs, w1, w2, sevs, mevs.
  assert (Hne : rp <> a) by (apply String.eqb_neq; exact Hcmp).
  repeat split; auto; try discriminate.
  destruct Hhash as [(Hn & Hh & Hc & _) | (chk & Hs & Hh & Hc)]; [left; auto |].
  right. exists chk. auto.
Qed.

End VacationCommitAnatomy.
Section VacationCommitFacts.
Context `{Externals}.
Variable senv : sieve_script_env host_state.
Variable msgdata : sieve_message_data.
Import Vacation.

Lemma mailing_list_found :
  from_mailing_list msgdata -> is_mailinglist_message msgdata = true.
Proof.
  intros (hd & v & vs & Hin & Hhd). unfold is_mailinglist_message.
  apply existsb_exists. exists hd. split; [exact Hin |]. now rewrite Hhd.
Qed.

Lemma auto_submitted_found :
  auto_submitted msgdata -> is_auto_submitted msgdata = true.
Proof.
  intros (vs & v & Hvs & Hin & Hno). unfold is_auto_submitted. rewrite Hvs.
  apply existsb_exists. exists v. split; [exact Hin |]. now rewrite Hno.
Qed.

Lemma bulk_precedence_found :
  bulk_precedence msgdata -> precedence_match msgdata <> None.
Proof.
  intros (vs & v & Hvs & Hin & Hv) Hnone. unfold precedence_match in Hnone.
  rewrite Hvs in Hnone.
  pose proof (find_none _ _ Hnone _ Hin) as Hf. cbv beta in Hf.
  destruct Hv as [Hv | [Hv | Hv]]; rewrite Hv in Hf;
    rewrite ?orb_true_r in Hf; discriminate.
Qed.

(** X3.  The commit of the vacation action never answers automated mail:
    for a message that carries a mailing-list header (List-Id, List-Owner,
    List-Subscribe, List-Post, List-Unsubscribe, List-Help, List-Archive),
    an Auto-Submitted header other than [no], the Precedence [junk], [bulk]
    or [list], or whose return path is a system address, every run returns
    TRUE without SMTP traffic and without a mark in the duplicate
    database. *)
Theorem vacation_commit_ignores_automated_mail
    (ctx : Vac.act_vacation_context) (w : world) (b : bool) (w' : world) :
  from_mailing_list msgdata \/ auto_submitted msgdata \/ bulk_precedence msgdata
  \/ (exists rp, return_path msgdata = Some rp /\ _is_system_address rp = true) ->
  act_vacation_commit senv msgdata ctx w = Some (b, w') ->
  b = true /\
  exists evs, w_trace w' = w_trace w ++ evs /\ Forall no_reply evs.
Proof.
  intros Hauto E.
  destruct (commit_anatomy senv msgdata ctx w b w' E)
    as (Hb & _ & evs & Hevs & [HF | Hreply]).
  - split; [exact Hb |]. exists evs. split; assumption.
  - exfalso.
    destruct Hreply as (rp & to & hsh & cevs & w1 & w2 & sevs & mevs & Hrp & _ & _
                        & _ & _ & Hlist & Hsub & Hprec & Hsys & _).
    destruct Hauto as [Ha | [Ha | [Ha | (rp' & Hrp' & Ha)]]].
    + apply mailing_list_found in Ha. congruence.
    + apply auto_submitted_found in Ha. congruence.
    + apply bulk_precedence_found in Ha. contradiction.
    + congruence.
Qed.

(** X6.  The commit does not tell a failed delivery of the reply from a
    successful one.  It never returns FALSE; and when the SMTP client
    reports on closing that the reply could not be sent, the commit logs
    the error, then logs "sent vacation response" all the same and, on a
    host with [duplicate_mark], marks the sender as answered until
    [ioloop_time + days * (24 * 60 * 60)] as C computes it: the product
    in [sieve_number_t], where it wraps around, and the sum passed as a
    [time_t]. *)
Theorem vacation_failed_send_is_recorded
    (ctx : Vac.act_vacation_context) (w : world) (b : bool) (w' : world)
    (rp : string) (evs : list event) :
  return_path msgdata = Some rp ->
  act_vacation_commit senv msgdata ctx w = Some (b, w') ->
  w_trace w' = w_trace w ++ evs ->
  b = true /\
  forall h,
    In (EvSmtpClose h false) evs ->
    In (EvResultError
          ("failed to send vacation response to <" ++ str_sanitize rp 128
           ++ "> (refer to server log for more information)")) evs
    /\ In (EvResultLog ("sent vacation response to <"
                        ++ str_sanitize rp 128 ++ ">")) evs
    /\ (duplicate_mark senv <> None ->
        exists hash,
          In (EvDuplicateMark hash (username senv)
                (to_time_t
                   (ioloop_time w
                    + to_sieve_number (Z.of_N (Vac.days ctx) * 86400)))) evs).
Proof.
  intros Hrp E Hevs.
  destruct (commit_anatomy senv msgdata ctx w b w' E)
    as (Hb & _ & evs0 & Hevs0 & Hcases).
  assert (evs0 = evs) by (apply (app_inv_head (w_trace w)); congruence). subst evs0.
  split; [exact Hb |]. intros h Hclose.
  destruct Hcases as [HF | Hreply].
  - exfalso. rewrite Forall_forall in HF. destruct (HF _ Hclose). discriminate.
  - destruct Hreply as (rp' & to & hsh & cevs & w1 & w2 & sevs & mevs & Hrp' & _ & _
                        & _ & Hc & _ & _ & _ & _ & _ & _ & _ & Esend & Hsevs
                        & Hsplit & Hm).
    assert (rp' = rp) by congruence. subst rp'.
    assert (Hin : In (EvSmtpClose h false) sevs).
    { rewrite Hsplit in Hclose.
      apply in_app_or in Hclose. destruct Hclose as [Hc1 | Hc1].
      - exfalso.
        destruct Hc as [(_ & _ & ->) | (chk & _ & _ & ->)];
          [destruct Hc1 | destruct Hc1 as [Hc1 | []]; discriminate].
      - apply in_app_or in Hc1. destruct Hc1 as [Hc1 | [Hc1 | Hc1]];
          [exact Hc1 | discriminate |].
        exfalso.
        destruct Hm as [(_ & -> & _) | (mark & _ & -> & _)];
          [destruct Hc1 | destruct Hc1 as [Hc1 | []]; discriminate]. }
    assert (Herr : In (EvResultError
                         ("failed to send vacation response to <"
                          ++ str_sanitize rp 128
                          ++ "> (refer to server log for more information)"))
                      sevs).
    { destruct (smtp_open senv) as [so |] eqn:Hso;
        [destruct (smtp_close senv) as [sc |] eqn:Hsc |].
      - destruct (send_session senv msgdata _ _ _ _ so sc Hso Hsc Esend)
          as (_ & _ & rp2 & subj & evs1 & n & ok & Hrp2 & _ & Htr & Hsess & Herr & _).
        assert (rp2 = rp) by congruence. subst rp2.
        assert (sevs = EvSmtpOpen (Some rp) n :: evs1)
          by (apply (app_inv_head (w_trace w1)); congruence).
        subst sevs. destruct Hin as [Hin | Hin]; [discriminate |].
        assert (Hf : In (EvSmtpClose h false) (filter is_session_event evs1))
          by (apply filter_In; split; [exact Hin | reflexivity]).
        rewrite Hsess in Hf. destruct Hf as [Hf | []].
        injection Hf as -> ->.
        right. eapply (proj1 (filter_In is_error_event _ evs1)).
        rewrite Herr. left. reflexivity.
      - exfalso.
        rewrite (send_without_smtp senv msgdata _ w1 (or_intror Hsc)) in Esend.
        injection Esend as <-. cbn [w_trace emitted] in Hsevs.
        apply app_inv_head in Hsevs. subst sevs.
        destruct Hin as [Hin | []]. discriminate.
      - exfalso.
        rewrite (send_without_smtp senv msgdata _ w1 (or_introl Hso)) in Esend.
        injection Esend as <-. cbn [w_trace emitted] in Hsevs.
        apply app_inv_head in Hsevs. subst sevs.
        destruct Hin as [Hin | []]. discriminate. }
    rewrite Hsplit. split; [| split].
    + apply in_or_app. right. apply in_or_app. left. exact Herr.
    + apply in_or_app. right. apply in_or_app. right. left. reflexivity.
    + intros Hmark.
      destruct Hm as [(Hnone & _) | (mark & _ & -> & _)]; [contradiction |].
      exists hsh. apply in_or_app. right. apply in_or_app. right.
      right. left. reflexivity.
Qed.

End VacationCommitFacts.
Section VacationCommitMore.
Context `{Externals}.
Variable senv : sieve_script_env host_state.
Variable msgdata : sieve_message_data.
Import Vacation.

(** X1.  On a host with SMTP, a run of [act_vacation_send] is one SMTP
    session: it opens a session to the return path of the message, writes
    the reply, and closes that same session; nothing else is opened or
    closed.  The reply is addressed To the return path and is labelled
    "Auto-Submitted: auto-replied (vacation)" and "Precedence: bulk".  The
    function returns TRUE whatever the close reports. *)
Theorem vacation_reply_session
    (ctx : Vac.act_vacation_context) (w : world) (b : bool) (w' : world)
    (so : host_state -> option string -> N * host_state)
    (sc : host_state -> N -> bool * host_state) :
  smtp_open senv = Some so -> smtp_close senv = Some sc ->
  act_vacation_send senv msgdata ctx w = Some (b, w') ->
  b = true /\
  exists rp evs h ok,
    return_path msgdata = Some rp /\
    w_trace w' = w_trace w ++ EvSmtpOpen (Some rp) h :: evs /\
    filter is_session_event evs = [EvSmtpClose h ok] /\
    In (EvSmtpHeader "To" ("<" ++ rp ++ ">")) evs /\
    In (EvSmtpHeader "Auto-Submitted" "auto-replied (vacation)") evs /\
    In (EvSmtpHeader "Precedence" "bulk") evs.
Proof.
  intros Hso Hsc E.
  destruct (send_session senv msgdata ctx w b w' so sc Hso Hsc E)
    as (Hb & _ & rp & subj & evs & h & ok & Hrp & _ & Htr & Hsess & _ & _
        & Hto & _ & Hauto & Hprec & _).
  split; [exact Hb |]. exists rp, evs, h, ok. auto 10.
Qed.

Lemma ensure_subject_value ctx :
  Vac.subject (ensure_subject msgdata ctx)
  = Some match Vac.subject ctx with
         | Some (String c s) => String c s
         | _ =>
             match mail_get_headers_utf8 msgdata "subject" with
             | Some (h0 :: _) => ("Auto: " ++ h0)%string
             | _ => "Automated reply"
             end
         end.
Proof.
  unfold ensure_subject.
  destruct (Vac.subject ctx) as [[| c s] |] eqn:E;
    destruct (mail_get_headers_utf8 msgdata "subject") as [[| h0 ?] |];
    try reflexivity; exact E.
Qed.

(** What the trace of a commit that opened an SMTP session is made of. *)
Lemma commit_replied ctx w b w' evs d h :
  act_vacation_commit senv msgdata ctx w = Some (b, w') ->
  w_trace w' = w_trace w ++ evs ->
  In (EvSmtpOpen d h) evs ->
  exists rp to dupl_hash cevs w1 w2 sevs mevs so sc,
    return_path msgdata = Some rp /\ rp <> "" /\
    to_address msgdata = Some to /\ rp <> to /\
    smtp_open senv = Some so /\ smtp_close senv = Some sc /\
    ((duplicate_check senv = None /\ dupl_hash = uninitialised_hash
      /\ cevs = [])
     \/ (exists chk,
           duplicate_check senv = Some chk
           /\ dupl_hash = md5 (rp ++ Vac.handle ctx)
           /\ cevs = [EvDuplicateCheck dupl_hash (username senv) false])) /\
    act_vacation_send senv msgdata (ensure_subject msgdata ctx) w1
    = Some (true, w2) /\
    w_trace w2 = w_trace w1 ++ sevs /\
    evs = cevs ++ sevs
          ++ EvResultLog ("sent vacation response to <"
                          ++ str_sanitize rp 128 ++ ">") :: mevs /\
    ((duplicate_mark senv = None /\ mevs = [] /\ w_host w' = w_host w2)
     \/ (exists mark,
           duplicate_mark senv = Some mark
           /\ mevs = [EvDuplicateMark dupl_hash (username senv)
                        (to_time_t
                           (ioloop_time w
                            + to_sieve_number (Z.of_N (Vac.days ctx) * 86400)))]
           /\ w_host w'
              = mark (w_host w2) dupl_hash (username senv)
                  (to_time_t
                     (ioloop_time w
                      + to_sieve_number (Z.of_N (Vac.days ctx) * 86400))))).
Proof.
  intros E Hevs Hopen.
  destruct (commit_anatomy senv msgdata ctx w b w' E)
    as (Hb & _ & evs0 & Hevs0 & Hcases).
  assert (evs0 = evs) by (apply (app_inv_head (w_trace w)); congruence).
  subst evs0.
  destruct Hcases as [HF | Hreply].
  { exfalso. rewrite Forall_forall in HF. destruct (HF _ Hopen). discriminate. }
  destruct Hreply as (rp & to & hsh & cevs & w1 & w2 & sevs & mevs & Hrp & Hne & Hto
                      & Hown & Hc & _ & _ & _ & _ & _ & _ & _ & Esend & Hsevs
                      & Hsplit & Hm).
  assert (Hin : In (EvSmtpOpen d h) sevs).
  { rewrite Hsplit in Hopen.
    apply in_app_or in Hopen. destruct Hopen as [Hc1 | Hc1].
    - exfalso.
      destruct Hc as [(_ & _ & ->) | (chk & _ & _ & ->)];
        [destruct Hc1 | destruct Hc1 as [Hc1 | []]; discriminate].
    - apply in_app_or in Hc1. destruct Hc1 as [Hc1 | [Hc1 | Hc1]];
        [exact Hc1 | discriminate |].
      exfalso.
      destruct Hm as [(_ & -> & _) | (mark & _ & -> & _)];
        [destruct Hc1 | destruct Hc1 as [Hc1 | []]; discriminate]. }
  assert (Hsmtp : exists so sc, smtp_open senv = Some so /\ smtp_close senv = Some sc).
  { destruct (smtp_open senv) as [so |] eqn:Hso;
      [destruct (smtp_close senv) as [sc |] eqn:Hsc |]; [eauto | |]; exfalso.
    - rewrite (send_without_smtp senv msgdata _ w1 (or_intror Hsc)) in Esend.
      injection Esend as <-. cbn [w_trace emitted] in Hsevs.
      apply app_inv_head in Hsevs. subst sevs.
      destruct Hin as [Hin | []]. discriminate.
    - rewrite (send_without_smtp senv msgdata _ w1 (or_introl Hso)) in Esend.
      injection Esend as <-. cbn [w_trace emitted] in Hsevs.
      apply app_inv_head in Hsevs. subst sevs.
      destruct Hin as [Hin | []]. discriminate. }
  destruct Hsmtp as (so & sc & Hso & Hsc).
  exists rp, to, hsh, cevs, w1, w2, sevs, mevs, so, sc. auto 15.
Qed.

(** X8.  A host that offers [duplicate_mark] without [duplicate_check]
    makes the commit mark a digest it never computed: the hash of the reply
    is only computed for the lookup, so the mark made after the reply was
    sent carries the contents of the buffer as it was declared.  Its
    expiry is [ioloop_time + days * (24 * 60 * 60)] as C computes it: the
    product in [sieve_number_t], where it wraps around, and the sum passed
    as a [time_t]. *)
Theorem vacation_mark_without_check
    (ctx : Vac.act_vacation_context) (w : world) (b : bool) (w' : world)
    (evs : list event) (d : option string) (h : N) :
  duplicate_check senv = None ->
  duplicate_mark senv <> None ->
  act_vacation_commit senv msgdata ctx w = Some (b, w') ->
  w_trace w' = w_trace w ++ evs ->
  In (EvSmtpOpen d h) evs ->
  In (EvDuplicateMark uninitialised_hash (username senv)
        (to_time_t
           (ioloop_time w
            + to_sieve_number (Z.of_N (Vac.days ctx) * 86400)))) evs
  /\ Forall (fun e => is_store_query e = false) evs.
Proof.
  intros Hcheck Hmark E Hevs Hopen.
  destruct (commit_replied ctx w b w' evs d h E Hevs Hopen)
    as (rp & to & hsh & cevs & w1 & w2 & sevs & mevs & so & sc & Hrp & _ & _ & _ & Hso
        & Hsc & Hc & Esend & Hsevs & Hsplit & Hm).
  destruct Hc as [(_ & -> & ->) | (chk & Hchk & _)]; [| congruence].
  destruct Hm as [(Hnone & _) | (mark & _ & -> & _)]; [contradiction |].
  rewrite Hsplit. split.
  - apply in_or_app. right. apply in_or_app. right. right. left. reflexivity.
  - destruct (send_session senv msgdata _ _ _ _ so sc Hso Hsc Esend)
      as (_ & _ & rp2 & subj & evs1 & n & ok & _ & _ & Htr & _ & _ & HF & _).
    assert (sevs = EvSmtpOpen (Some rp2) n :: evs1)
      by (apply (app_inv_head (w_trace w1)); congruence).
    subst sevs. cbn [app].
    apply Forall_cons; [reflexivity |].
    apply Forall_app. split.
    + eapply Forall_impl; [| exact HF].
      intros [] [He | He]; simpl in *; congruence.
    + repeat constructor.
Qed.

(** X9.  The Subject of the reply that a commit composes is the [:subject]
    of the action when that is not empty; otherwise it is "Auto: " followed
    by the first Subject header of the message, and "Automated reply" when
    the message has none.  It is written through [str_sanitize] with a
    limit of 256. *)
Theorem vacation_reply_subject
    (ctx : Vac.act_vacation_context) (w : world) (b : bool) (w' : world)
    (evs : list event) (d : option string) (h : N) :
  act_vacation_commit senv msgdata ctx w = Some (b, w') ->
  w_trace w' = w_trace w ++ evs ->
  In (EvSmtpOpen d h) evs ->
  In (EvSmtpHeader "Subject"
        (str_sanitize
           match Vac.subject ctx with
           | Some (String c s) => String c s
           | _ =>
               match mail_get_headers_utf8 msgdata "subject" with
               | Some (h0 :: _) => ("Auto: " ++ h0)%string
               | _ => "Automated reply"
               end
           end 256)) evs.
Proof.
  intros E Hevs Hopen.
  destruct (commit_replied ctx w b w' evs d h E Hevs Hopen)
    as (rp & to & hsh & cevs & w1 & w2 & sevs & mevs & so & sc & Hrp & _ & _ & _ & Hso
        & Hsc & Hc & Esend & Hsevs & Hsplit & Hm).
  destruct (send_session senv msgdata _ _ _ _ so sc Hso Hsc Esend)
    as (_ & _ & rp2 & subj & evs1 & n & ok & _ & Hsubj & Htr & _ & _ & _ & _
        & Hin & _).
  rewrite ensure_subject_value in Hsubj. injection Hsubj as <-.
  assert (sevs = EvSmtpOpen (Some rp2) n :: evs1)
    by (apply (app_inv_head (w_trace w1)); congruence).
  subst sevs. rewrite Hsplit.
  apply in_or_app. right. apply in_or_app. left. right. exact Hin.
Qed.

(** The run of a commit for a sender whom the database knows. *)
Lemma commit_duplicate_run ctx w rp to chk :
  return_path msgdata = Some rp -> rp <> "" ->
  to_address msgdata = Some to -> rp <> to ->
  duplicate_check senv = Some chk ->
  fst (chk (w_host w) (md5 (rp ++ Vac.handle ctx)) (username senv)) = true ->
  act_vacation_commit senv msgdata ctx w =
  Some (true,
        emitted
          (with_host w
             (snd (chk (w_host w) (md5 (rp ++ Vac.handle ctx)) (username senv))))
          [EvDuplicateCheck (md5 (rp ++ Vac.handle ctx)) (username senv) true;
           EvResultLog ("discarded duplicate vacation response to <"
                        ++ str_sanitize rp 128 ++ ">")]).
Proof.
  intros Hrp Hne Hto Hown Hcheck Hseen.
  assert (Hcmp : CStr.strcmp_eq rp to = false).
  { unfold CStr.strcmp_eq. now apply String.eqb_neq. }
  destruct rp as [| c0 rp0]; [congruence |].
  unfold act_vacation_commit. rewrite Hrp, Hto.
  unfold bind at 1. unfold deref at 1. unfold lift_option, ret at 1.
  rewrite Hcmp, Hcheck. unfold bind at 1.
  rewrite (commit_check_run senv msgdata ctx w _ chk Hrp).
  destruct (chk (w_host w) _ _) as [seen hst]. cbn [fst snd] in *. subst seen.
  cbv iota. rewrite log_run. rewrite emitted_emitted. reflexivity.
Qed.

End VacationCommitMore.

Section VacationTwice.
Context `{Externals}.
Variable senv : sieve_script_env host_state.
Import Vacation.

(** X7.  With a duplicate database that finds what was marked in it, a
    sender is answered once.  After a commit that composed a reply, the
    commit of the action for any message with the same return path and an
    action with the same handle, started from the host state the first
    commit left, looks the sender up, logs "discarded duplicate vacation
    response" and sends nothing. *)
Theorem vacation_second_reply_discarded
    (msgdata msgdata2 : sieve_message_data)
    (ctx ctx2 : Vac.act_vacation_context) (w w1 w2 : world) (b : bool)
    (evs : list event) (d : option string) (h : N) (rp to2 : string)
    (chk : host_state -> hash_t -> option string -> bool * host_state)
    (mark : host_state -> hash_t -> option string -> Z -> host_state) :
  duplicate_check senv = Some chk ->
  duplicate_mark senv = Some mark ->
  store_remembers chk mark ->
  return_path msgdata = Some rp ->
  act_vacation_commit senv msgdata ctx w = Some (b, w1) ->
  w_trace w1 = w_trace w ++ evs ->
  In (EvSmtpOpen d h) evs ->
  return_path msgdata2 = Some rp ->
  to_address msgdata2 = Some to2 -> rp <> to2 ->
  Vac.handle ctx2 = Vac.handle ctx ->
  w_host w2 = w_host w1 ->
  act_vacation_commit senv msgdata2 ctx2 w2 =
  Some (true,
        emitted
          (with_host w2
             (snd (chk (w_host w2) (md5 (rp ++ Vac.handle ctx)) (username senv))))
          [EvDuplicateCheck (md5 (rp ++ Vac.handle ctx)) (username senv) true;
           EvResultLog ("discarded duplicate vacation response to <"
                        ++ str_sanitize rp 128 ++ ">")]).
Proof.
  intros Hchk Hmark Hstore Hrp E Hevs Hopen Hrp2 Hto2 Hown2 Hhandle Hhost.
  destruct (commit_replied senv msgdata ctx w b w1 evs d h E Hevs Hopen)
    as (rp' & to & hsh & cevs & wa & wb & sevs & mevs & so & sc & Hrp' & Hne & _ & _
        & _ & _ & Hc & _ & _ & _ & Hm).
  assert (rp' = rp) by congruence. subst rp'.
  destruct Hc as [(Hnone & _) | (chk' & _ & -> & _)]; [congruence |].
  destruct Hm as [(Hnone & _) | (mark' & Hmark' & _ & Hw1)]; [congruence |].
  assert (mark' = mark) by congruence. subst mark'.
  rewrite <- Hhandle.
  apply (commit_duplicate_run senv msgdata2 ctx2 w2 rp to2 chk); auto.
  rewrite Hhost, Hw1, Hhandle. apply Hstore.
Qed.

End VacationTwice.
Section AddressedToMe.
Context `{Externals}.
Variable msgdata : sieve_message_data.
Import Vacation.

Lemma address_in_one my a :
  address_in [my] a =
  match mailbox a, domain a with
  | Some m, Some d => CStr.strcmp_eq (m ++ "@" ++ d) my
  | _, _ => false
  end.
Proof.
  unfold address_in. destruct (mailbox a), (domain a); simpl; auto using orb_false_r.
Qed.

Lemma address_in_exists mine a :
  address_in mine a = true <-> exists my, In my mine /\ address_in [my] a = true.
Proof.
  unfold address_in. destruct (mailbox a) as [m |], (domain a) as [d |]; simpl;
    try (split; [discriminate | intros (? & _ & ?); discriminate]).
  rewrite existsb_exists. split; intros (my & Hin & He); exists my;
    (split; [exact Hin |]); rewrite ?orb_false_r in *; exact He.
Qed.

Lemma address_list_contains_spec addrs my :
  (forall a, In a addrs -> domain a <> None -> mailbox a <> None) ->
  address_list_contains addrs my = Some (existsb (address_in [my]) addrs).
Proof.
  induction addrs as [| a addrs IH]; intros Hwf; [reflexivity |].
  cbn [address_list_contains existsb]. rewrite address_in_one.
  destruct (domain a) as [d |] eqn:Ed.
  - destruct (mailbox a) as [m |] eqn:Em.
    + destruct (CStr.strcmp_eq (m ++ "@" ++ d) my); [reflexivity |].
      apply IH. intros; apply Hwf; simpl; auto.
    + exfalso. apply (Hwf a); simpl; auto. congruence.
  - destruct (mailbox a); cbn [orb]; apply IH; intros; apply Hwf; simpl; auto.
Qed.

Lemma contains_my_address_spec headers my :
  (forall v, In v headers -> parsed_with_mailbox v) ->
  _contains_my_address headers my =
  Some (existsb (fun v => existsb (address_in [my]) (message_address_parse v))
          headers).
Proof.
  induction headers as [| v headers IH]; intros Hwf; [reflexivity |].
  cbn [_contains_my_address existsb].
  rewrite address_list_contains_spec by (apply Hwf; simpl; auto).
  destruct (existsb (address_in [my]) (message_address_parse v));
    [reflexivity |].
  apply IH. intros; apply Hwf; simpl; auto.
Qed.

Lemma contains_one_of_spec headers mys :
  (forall v, In v headers -> parsed_with_mailbox v) ->
  contains_one_of headers mys =
  Some (existsb
          (fun my =>
             existsb (fun v => existsb (address_in [my]) (message_address_parse v))
               headers)
          mys).
Proof.
  intros Hwf. induction mys as [| my mys IH]; [reflexivity |].
  cbn [contains_one_of existsb].
  rewrite contains_my_address_spec by exact Hwf.
  destruct (existsb _ headers); [reflexivity | exact IH].
Qed.

Lemma addressed_split headers to l :
  existsb (fun v => existsb (address_in (to :: l)) (message_address_parse v))
    headers
  = (existsb (fun v => existsb (address_in [to]) (message_address_parse v))
       headers
     || existsb
          (fun my =>
             existsb (fun v => existsb (address_in [my]) (message_address_parse v))
               headers)
          l)%bool.
Proof.
  apply eq_true_iff_eq. rewrite orb_true_iff, !existsb_exists. split.
  - intros (v & Hv & Ha). apply existsb_exists in Ha. destruct Ha as (a & Ha & Hin).
    apply address_in_exists in Hin. destruct Hin as (my & [<- | Hmy] & Hone).
    + left. exists v. split; [exact Hv |]. apply existsb_exists. eauto.
    + right. exists my. split; [exact Hmy |]. apply existsb_exists.
      exists v. split; [exact Hv |]. apply existsb_exists. eauto.
  - intros [(v & Hv & Ha) | (my & Hmy & Hx)].
    + exists v. split; [exact Hv |]. apply existsb_exists in Ha.
      destruct Ha as (a & Ha & Hone). apply existsb_exists. exists a.
      split; [exact Ha |]. apply address_in_exists. exists to. simpl; auto.
    + apply existsb_exists in Hx. destruct Hx as (v & Hv & Ha).
      exists v. split; [exact Hv |]. apply existsb_exists in Ha.
      destruct Ha as (a & Ha & Hone). apply existsb_exists. exists a.
      split; [exact Ha |]. apply address_in_exists. exists my. simpl; auto.
Qed.

Lemma addressed_split_mine headers to ctx :
  existsb
    (fun v => existsb (address_in (my_addresses to ctx)) (message_address_parse v))
    headers
  = (existsb (fun v => existsb (address_in [to]) (message_address_parse v))
       headers
     || match Vac.addresses ctx with
        | Some l =>
            existsb
              (fun my =>
                 existsb
                   (fun v => existsb (address_in [my]) (message_address_parse v))
                   headers)
              l
        | None => false
        end)%bool.
Proof.
  unfold my_addresses. rewrite addressed_split.
  destruct (Vac.addresses ctx); reflexivity.
Qed.

Lemma is_addressed_to_me_spec to ctx hdsp :
  (forall v, parsed_with_mailbox v) ->
  is_addressed_to_me msgdata to ctx hdsp =
  Some (existsb
          (fun hd =>
             match mail_get_headers_utf8 msgdata hd with
             | Some headers =>
                 existsb
                   (fun v => existsb (address_in (my_addresses to ctx))
                               (message_address_parse v))
                   headers
             | None => false
             end)
          hdsp).
Proof.
  intros Hwf. induction hdsp as [| hd hdsp IH]; [reflexivity |].
  cbn [is_addressed_to_me existsb].
  destruct (mail_get_headers_utf8 msgdata hd) as [[| v vs] |]; [exact IH | | exact IH].
  rewrite addressed_split_mine.
  rewrite contains_my_address_spec by (intros; apply Hwf).
  destruct (existsb (fun v0 => existsb (address_in [to]) (message_address_parse v0))
              (v :: vs)); [reflexivity |].
  destruct (Vac.addresses ctx) as [l |].
  - rewrite contains_one_of_spec by (intros; apply Hwf).
    destruct (existsb _ l); [reflexivity | exact IH].
  - exact IH.
Qed.

End AddressedToMe.

Section VacationCommitTotal.
Context `{Externals}.
Variable senv : sieve_script_env host_state.
Variable msgdata : sieve_message_data.
Import Vacation.

(** X5.  The commit answers only mail that names the user.  The search of
    the To, Cc, Bcc, Resent-To, Resent-Cc and Resent-Bcc headers finds
    whether some address in them is the delivery address or one of the
    [:addresses] of the action (every parsed address with a domain having a
    mailbox); when none is, the commit logs that the message was
    implicitly delivered, returns TRUE and sends nothing. *)
Theorem vacation_commit_implicit_delivery
    (ctx : Vac.act_vacation_context) (to : string) :
  (forall v, parsed_with_mailbox v) ->
  to_address msgdata = Some to ->
  is_addressed_to_me msgdata to ctx _my_address_headers
  = Some (addressed_to msgdata (my_addresses to ctx))
  /\
  (addressed_to msgdata (my_addresses to ctx) = false ->
   forall w b w',
     act_vacation_commit senv msgdata ctx w = Some (b, w') ->
     b = true /\
     exists evs, w_trace w' = w_trace w ++ evs /\ Forall no_reply evs).
Proof.
  intros Hwf Hto. split; [now apply is_addressed_to_me_spec |].
  intros Hnot w b w' E.
  destruct (commit_anatomy senv msgdata ctx w b w' E)
    as (Hb & _ & evs & Hevs & [HF | Hreply]).
  - split; [exact Hb |]. exists evs. split; assumption.
  - exfalso.
    destruct Hreply as (rp & to' & hsh & cevs & w1 & w2 & sevs & mevs & _ & _ & Hto'
                        & _ & _ & _ & _ & _ & _ & Hmine & _).
    assert (to' = to) by congruence. subst to'.
    rewrite (is_addressed_to_me_spec msgdata to ctx _ Hwf) in Hmine.
    unfold addressed_to in Hnot. congruence.
Qed.

Lemma send_returns ctx rp to subj :
  return_path msgdata = Some rp -> to_address msgdata = Some to ->
  Vac.subject ctx = Some subj ->
  returns (act_vacation_send senv msgdata ctx).
Proof.
  intros Hrp Hto Hsubj.
  unfold act_vacation_send, rfc2822_header_field_write, smtp_write, deref,
    sieve_result_error, sieve_result_warning.
  rewrite Hrp, Hto, Hsubj. cbn [lift_option].
  repeat returns_go.
Qed.

(** X2.  The commit of the vacation action returns: with a delivery
    address, and a parser that gives every address with a domain a mailbox,
    no run of it ends in a NULL dereference or a failed assertion,
    whatever the message and the host. *)
Theorem vacation_commit_returns (ctx : Vac.act_vacation_context) :
  to_address msgdata <> None ->
  (forall v, parsed_with_mailbox v) ->
  returns (act_vacation_commit senv msgdata ctx).
Proof.
  intros Hto Hwf.
  destruct (to_address msgdata) as [to |] eqn:Eto; [| contradiction].
  unfold act_vacation_commit.
  destruct (return_path msgdata) as [[| c0 rp0] |] eqn:Hrp;
    unfold sieve_result_log.
  1, 3: repeat returns_go.
  unfold act_vacation_hash, deref. rewrite Hrp, Eto. cbn [lift_option].
  apply returns_bind_ret.
  rewrite (is_addressed_to_me_spec msgdata to ctx _ Hwf). cbn [lift_option].
  repeat first
    [ apply returns_bind_ret
    | match goal with
      | |- returns (bind (act_vacation_send _ _ _) _) =>
          apply returns_bind;
          [eapply send_returns;
           [exact Hrp | exact Eto | apply ensure_subject_value] | intros ?]
      end
    | returns_go ].
Qed.

End VacationCommitTotal.
(* ===================================================================== *)
(** * Further properties: system addresses *)
(* ===================================================================== *)

Lemma strncasecmp_prefix p : forall a,
  CStr.strncasecmp_eq (String.length p) a p = true <-> has_prefix_nocase p a.
Proof.
  induction p as [| y p IH]; intros a.
  - simpl. split; [| reflexivity]. intros _. exists "", a. auto.
  - cbn [String.length CStr.strncasecmp_eq]. destruct a as [| x a].
    + split; [discriminate |]. intros (u & rest & E & Hlen & _).
      destruct u; simpl in *; discriminate.
    + rewrite andb_true_iff, Ascii.eqb_eq, IH. split.
      * intros (Hx & u & rest & -> & Hlen & Hlow).
        exists (String x u), rest. simpl. repeat split; congruence.
      * intros (u & rest & E & Hlen & Hlow).
        destruct u as [| x' u]; [discriminate |].
        simpl in E, Hlen, Hlow. injection E as <- ->. injection Hlow as Hx Hlow.
        split; [exact Hx |]. exists u, rest. auto.
Qed.

Lemma strncmp_prefix p : forall a,
  CStr.strncmp_eq (String.length p) a p = true <-> exists rest : string, a = (p ++ rest)%string.
Proof.
  induction p as [| y p IH]; intros a.
  - simpl. split; [| reflexivity]. intros _. exists a. reflexivity.
  - cbn [String.length CStr.strncmp_eq]. destruct a as [| x a].
    + split; [discriminate |]. intros (rest & E). discriminate.
    + rewrite andb_true_iff, Ascii.eqb_eq, IH. split.
      * intros (-> & rest & ->). exists rest. reflexivity.
      * intros (rest & E). simpl in E. injection E as -> ->. eauto.
Qed.

Lemma prefix_append n : forall h,
  String.prefix n h = true <-> exists post : string, h = (n ++ post)%string.
Proof.
  induction n as [| y n IH]; intros h.
  - destruct h; simpl; (split; [| reflexivity]); intros _; eexists; reflexivity.
  - destruct h as [| x h]; simpl.
    + split; [discriminate |]. intros (post & E). discriminate.
    + destruct (Ascii.ascii_dec y x) as [-> | Hne].
      * rewrite IH. split; intros (post & E); exists post; congruence.
      * split; [discriminate |]. intros (post & E). congruence.
Qed.

Lemma strstr_found_spec n : forall h,
  CStr.strstr_found h n = true <-> exists pre post : string, h = (pre ++ n ++ post)%string.
Proof.
  induction h as [| x h IH].
  - cbn [CStr.strstr_found]. rewrite orb_false_r, prefix_append. split.
    + intros (post & E). exists "", post. exact E.
    + intros (pre & post & E). destruct pre; [eauto | discriminate].
  - cbn [CStr.strstr_found]. rewrite orb_true_iff, prefix_append, IH. split.
    + intros [(post & E) | (pre & post & E)].
      * exists "", post. exact E.
      * exists (String x pre), post. simpl. congruence.
    + intros (pre & post & E). destruct pre as [| x' pre].
      * left. exists post. exact E.
      * right. simpl in E. injection E as -> ->. eauto.
Qed.

(** X4.  [_is_system_address] holds exactly for the addresses that start
    with MAILER-DAEMON, LISTSERV or majordomo written in any mix of upper
    and lower case, that contain [-request@], or that start with [owner-]
    written in lower case. *)
Theorem is_system_address_characterised (address : string) :
  Vacation._is_system_address address = true
  <->
  has_prefix_nocase "MAILER-DAEMON" address
  \/ has_prefix_nocase "LISTSERV" address
  \/ has_prefix_nocase "majordomo" address
  \/ (exists pre post : string, address = (pre ++ "-request@" ++ post)%string)
  \/ (exists rest : string, address = ("owner-" ++ rest)%string).
Proof.
  unfold Vacation._is_system_address.
  rewrite <- (strncasecmp_prefix "MAILER-DAEMON"), <- (strncasecmp_prefix "LISTSERV"),
    <- (strncasecmp_prefix "majordomo"), <- (strstr_found_spec "-request@"),
    <- (strncmp_prefix "owner-").
  change (String.length "MAILER-DAEMON") with 13%nat.
  change (String.length "LISTSERV") with 8%nat.
  change (String.length "majordomo") with 9%nat.
  change (String.length "owner-") with 6%nat.
  destruct (CStr.strncasecmp_eq 13 address "MAILER-DAEMON"); [tauto |].
  destruct (CStr.strncasecmp_eq 8 address "LISTSERV"); [tauto |].
  destruct (CStr.strncasecmp_eq 9 address "majordomo"); [tauto |].
  destruct (CStr.strstr_found address "-request@"); [tauto |].
  destruct (CStr.strncmp_eq 6 address "owner-"); [tauto |].
  split; [discriminate |]. intros [E | [E | [E | [E | E]]]]; discriminate.
Qed.
(** The parser of the concrete host gives every address a mailbox. *)
Lemma demo_parsed_with_mailbox (v : string) :
  @parsed_with_mailbox Demo.externals v.
Proof.
  intros a. simpl. unfold Demo.parse_bare_address.
  destruct (Demo.split_at "@" v) as [[m d] |]; intros [<- | []] _; discriminate.
Qed.

(** The duplicate database of the concrete host finds what was marked. *)
Lemma demo_store_remembers :
  @store_remembers Demo.externals Demo.db_check Demo.db_mark.
Proof.
  intros hs h user expire. simpl. rewrite String.eqb_refl.
  destruct user; simpl; [rewrite String.eqb_refl |]; reflexivity.
Qed.

Lemma vacation_reply_session_witness :
  exists rp evs h ok,
    return_path Demo.message = Some rp /\
    (exists w',
       @Vacation.act_vacation_send Demo.externals Demo.full_senv Demo.message
         Demo.vacation_ctx Demo.world0 = Some (true, w')
       /\ w_trace w' = w_trace Demo.world0 ++ EvSmtpOpen (Some rp) h :: evs) /\
    filter is_session_event evs = [EvSmtpClose h ok] /\
    In (EvSmtpHeader "To" ("<" ++ rp ++ ">")) evs.
Proof.
  match eval vm_compute in
    (@Vacation.act_vacation_send Demo.externals Demo.full_senv Demo.message
       Demo.vacation_ctx Demo.world0) with
  | Some (_, ?w1) =>
      assert (Hrun : @Vacation.act_vacation_send Demo.externals Demo.full_senv
                       Demo.message Demo.vacation_ctx Demo.world0
                     = Some (true, w1))
        by (vm_compute; reflexivity);
      destruct (@vacation_reply_session Demo.externals Demo.full_senv
                  Demo.message Demo.vacation_ctx Demo.world0 true w1 _ _
                  eq_refl eq_refl Hrun)
        as (_ & rp & evs & h & ok & Hrp & Htr & Hsess & Hto & _);
      exists rp, evs, h, ok;
      split; [exact Hrp |]; split; [exists w1; split; [exact Hrun | exact Htr] |];
      split; [exact Hsess | exact Hto]
  end.
Defined.

Lemma vacation_commit_returns_witness :
  exists b w',
    @Vacation.act_vacation_commit Demo.externals Demo.full_senv Demo.message
      Demo.vacation_ctx Demo.world0 = Some (b, w').
Proof.
  apply (@vacation_commit_returns Demo.externals Demo.full_senv Demo.message
           Demo.vacation_ctx).
  - discriminate.
  - exact demo_parsed_with_mailbox.
Defined.

Lemma vacation_commit_ignores_automated_mail_witness :
  exists w' evs,
    @Vacation.act_vacation_commit Demo.externals Demo.full_senv Demo2.auto_reply
      Demo.vacation_ctx Demo.world0 = Some (true, w')
    /\ w_trace w' = w_trace Demo.world0 ++ evs /\ Forall no_reply evs.
Proof.
  match eval vm_compute in
    (@Vacation.act_vacation_commit Demo.externals Demo.full_senv Demo2.auto_reply
       Demo.vacation_ctx Demo.world0) with
  | Some (_, ?w1) =>
      assert (Hrun : @Vacation.act_vacation_commit Demo.externals Demo.full_senv
                       Demo2.auto_reply Demo.vacation_ctx Demo.world0
                     = Some (true, w1))
        by (vm_compute; reflexivity);
      exists w1
  end.
  destruct (@vacation_commit_ignores_automated_mail Demo.externals Demo.full_senv
              Demo2.auto_reply Demo.vacation_ctx Demo.world0 true _
              (or_intror (or_introl
                 (ex_intro _ ["auto-replied (vacation)"]
                    (ex_intro _ "auto-replied (vacation)"
                       (conj eq_refl (conj (or_introl eq_refl) eq_refl))))))
              Hrun)
    as (_ & evs & Hevs & HF).
  exists evs. split; [exact Hrun |]. split; assumption.
Defined.

Lemma vacation_commit_implicit_delivery_witness :
  @Vacation.is_addressed_to_me Demo.externals Demo2.forwarded "jane@example.org"
    Demo.vacation_ctx Vacation._my_address_headers = Some false
  /\
  exists w' evs,
    @Vacation.act_vacation_commit Demo.externals Demo.full_senv Demo2.forwarded
      Demo.vacation_ctx Demo.world0 = Some (true, w')
    /\ w_trace w' = w_trace Demo.world0 ++ evs /\ Forall no_reply evs.
Proof.
  destruct (@vacation_commit_implicit_delivery Demo.externals Demo.full_senv
              Demo2.forwarded Demo.vacation_ctx "jane@example.org"
              demo_parsed_with_mailbox eq_refl) as [Hspec Hsilent].
  split; [rewrite Hspec; vm_compute; reflexivity |].
  match eval vm_compute in
    (@Vacation.act_vacation_commit Demo.externals Demo.full_senv Demo2.forwarded
       Demo.vacation_ctx Demo.world0) with
  | Some (_, ?w1) =>
      assert (Hrun : @Vacation.act_vacation_commit Demo.externals Demo.full_senv
                       Demo2.forwarded Demo.vacation_ctx Demo.world0
                     = Some (true, w1))
        by (vm_compute; reflexivity);
      exists w1
  end.
  destruct (Hsilent ltac:(vm_compute; reflexivity) _ _ _ Hrun)
    as (_ & evs & Hevs & HF).
  exists evs. split; [exact Hrun |]. split; assumption.
Defined.

Lemma vacation_failed_send_is_recorded_witness :
  exists w' evs,
    @Vacation.act_vacation_commit Demo.externals Demo2.failing_senv Demo.message
      Demo.vacation_ctx Demo.world0 = Some (true, w')
    /\ w_trace w' = w_trace Demo.world0 ++ evs
    /\ In (EvSmtpClose 1 false) evs
    /\ In (EvResultLog "sent vacation response to <root@host>") evs
    /\ exists hash,
         In (EvDuplicateMark hash (Some "jane") (1000 + 7 * 86400)) evs.
Proof.
  match eval vm_compute in
    (@Vacation.act_vacation_commit Demo.externals Demo2.failing_senv Demo.message
       Demo.vacation_ctx Demo.world0) with
  | Some (_, ?w1) =>
      assert (Hrun : @Vacation.act_vacation_commit Demo.externals
                       Demo2.failing_senv Demo.message Demo.vacation_ctx
                       Demo.world0 = Some (true, w1))
        by (vm_compute; reflexivity);
      exists w1;
      match eval vm_compute in (w_trace w1) with
      | ?evs => exists evs
      end
  end.
  split; [exact Hrun |]. split; [vm_compute; reflexivity |].
  assert (Hclose : In (EvSmtpClose 1 false)
                     (@w_trace Demo.externals
                        match @Vacation.act_vacation_commit Demo.externals
                                Demo2.failing_senv Demo.message Demo.vacation_ctx
                                Demo.world0 with
                        | Some (_, w1) => w1
                        | None => Demo.world0
                        end)).
  { vm_compute. repeat (try (left; reflexivity); right). }
  vm_compute in Hclose.
  split; [exact Hclose |].
  match goal with
  | |- context [In _ ?evs] =>
      destruct (proj2 (@vacation_failed_send_is_recorded Demo.externals
                         Demo2.failing_senv Demo.message Demo.vacation_ctx
                         Demo.world0 true _ "root@host" evs eq_refl Hrun
                         ltac:(vm_compute; reflexivity)) 1%N Hclose)
        as (_ & Hsent & Hmark)
  end.
  split; [exact Hsent |]. apply Hmark. discriminate.
Defined.
Lemma vacation_second_reply_discarded_witness :
  exists w1,
    @Vacation.act_vacation_commit Demo.externals Demo.full_senv Demo.message
      Demo.vacation_ctx Demo.world0 = Some (true, w1)
    /\ In (EvSmtpOpen (Some "root@host") 1) (w_trace w1)
    /\ @Vacation.act_vacation_commit Demo.externals Demo.full_senv Demo.message
         Demo.vacation_ctx w1
       = Some (true,
               emitted w1
                 [EvDuplicateCheck "root@hosth1" (Some "jane") true;
                  EvResultLog
                    "discarded duplicate vacation response to <root@host>"]).
Proof.
  match eval vm_compute in
    (@Vacation.act_vacation_commit Demo.externals Demo.full_senv Demo.message
       Demo.vacation_ctx Demo.world0) with
  | Some (_, ?w1) =>
      assert (Hrun : @Vacation.act_vacation_commit Demo.externals Demo.full_senv
                       Demo.message Demo.vacation_ctx Demo.world0
                     = Some (true, w1))
        by (vm_compute; reflexivity);
      exists w1;
      assert (Hopen : In (EvSmtpOpen (Some "root@host") 1)
                        (@w_trace Demo.externals w1))
        by (vm_compute; repeat (try (left; reflexivity); right));
      split; [exact Hrun |]; split; [exact Hopen |];
      exact (@vacation_second_reply_discarded Demo.externals Demo.full_senv
               Demo.message Demo.message Demo.vacation_ctx Demo.vacation_ctx
               Demo.world0 w1 w1 true (w_trace w1) (Some "root@host") 1%N
               "root@host" "jane@example.org" Demo.db_check Demo.db_mark
               eq_refl eq_refl demo_store_remembers eq_refl Hrun eq_refl Hopen
               eq_refl eq_refl ltac:(discriminate) eq_refl eq_refl)
  end.
Defined.

Lemma vacation_mark_without_check_witness :
  exists w',
    @Vacation.act_vacation_commit Demo.externals Demo2.marking_senv Demo.message
      Demo.vacation_ctx Demo.world0 = Some (true, w')
    /\ In (EvDuplicateMark "" (Some "jane") (1000 + 7 * 86400)) (w_trace w').
Proof.
  match eval vm_compute in
    (@Vacation.act_vacation_commit Demo.externals Demo2.marking_senv Demo.message
       Demo.vacation_ctx Demo.world0) with
  | Some (_, ?w1) =>
      assert (Hrun : @Vacation.act_vacation_commit Demo.externals
                       Demo2.marking_senv Demo.message Demo.vacation_ctx
                       Demo.world0 = Some (true, w1))
        by (vm_compute; reflexivity);
      exists w1;
      assert (Hopen : In (EvSmtpOpen (Some "root@host") 1)
                        (@w_trace Demo.externals w1))
        by (vm_compute; repeat (try (left; reflexivity); right));
      split; [exact Hrun |];
      exact (proj1 (@vacation_mark_without_check Demo.externals
                      Demo2.marking_senv Demo.message Demo.vacation_ctx
                      Demo.world0 true w1 (w_trace w1) (Some "root@host") 1%N
                      eq_refl ltac:(discriminate) Hrun eq_refl Hopen))
  end.
Defined.

Lemma vacation_reply_subject_witness :
  exists w',
    @Vacation.act_vacation_commit Demo.externals Demo.full_senv Demo.message
      Demo.vacation_ctx Demo.world0 = Some (true, w')
    /\ In (EvSmtpHeader "Subject" "Away") (w_trace w').
Proof.
  match eval vm_compute in
    (@Vacation.act_vacation_commit Demo.externals Demo.full_senv Demo.message
       Demo.vacation_ctx Demo.world0) with
  | Some (_, ?w1) =>
      assert (Hrun : @Vacation.act_vacation_commit Demo.externals
                       Demo.full_senv Demo.message Demo.vacation_ctx
                       Demo.world0 = Some (true, w1))
        by (vm_compute; reflexivity);
      exists w1;
      assert (Hopen : In (EvSmtpOpen (Some "root@host") 1)
                        (@w_trace Demo.externals w1))
        by (vm_compute; repeat (try (left; reflexivity); right));
      split; [exact Hrun |];
      exact (@vacation_reply_subject Demo.externals Demo.full_senv Demo.message
               Demo.vacation_ctx Demo.world0 true w1 (w_trace w1)
               (Some "root@host") 1%N Hrun eq_refl Hopen)
  end.
Defined.
(* ===================================================================== *)
(** * Further properties: the VACATION operation *)
(* ===================================================================== *)

Section VacationOperationMore.
Context `{Externals} `{BinaryReader}.
Import Vacation.

(** The loop over the optional operands ends silently, or with one line on
    the trace channel when the code is corrupt. *)
Lemma loop_outcome fuel sbin : forall a o w r w1,
  optional_operands_loop fuel sbin a o w = Some (r, w1) ->
  (r = LoopCorrupt /\ exists msg, w1 = emitted w [EvTraceError msg])
  \/ (exists a' o', r = LoopDone a' o' /\ w1 = w).
Proof.
  induction fuel as [| fuel IH]; intros a o w r w1; [discriminate |].
  cbn [optional_operands_loop].
  assert (Hc : forall msg,
            bind (sieve_runtime_trace_error msg) (fun _ => ret LoopCorrupt) w
            = Some (r, w1) ->
            (r = LoopCorrupt /\ exists msg, w1 = emitted w [EvTraceError msg])
            \/ (exists a' o', r = LoopDone a' o' /\ w1 = w)).
  { intros msg E. inversion E; subst. left. split; [reflexivity |].
    exists msg. reflexivity. }
  destruct (sieve_operand_optional_read sbin a) as [[c a1] |]; [| apply Hc].
  destruct (c =? 0).
  { intros E. inversion E; subst. right. eauto. }
  destruct (c =? OPT_DAYS).
  { destruct (sieve_opr_number_read sbin a1) as [[d a2] |]; [apply IH | apply Hc]. }
  destruct (c =? OPT_SUBJECT).
  { destruct (sieve_opr_string_read sbin a1) as [[s a2] |]; [apply IH | apply Hc]. }
  destruct (c =? OPT_FROM).
  { destruct (sieve_opr_string_read sbin a1) as [[s a2] |]; [apply IH | apply Hc]. }
  destruct (c =? OPT_ADDRESSES).
  { destruct (sieve_opr_stringlist_read sbin a1) as [[l a2] |];
      [apply IH | apply Hc]. }
  destruct (c =? OPT_MIME); [apply IH | apply Hc].
Qed.

(** X10.  The VACATION operation ends in one of two ways.  Either it found
    its code unreadable: then it wrote one line to the trace channel,
    returned SIEVE_EXEC_BIN_CORRUPT and asked nothing of the result engine.
    Or it read all its operands: then it traced "VACATION action", at most
    reported the [:from] address as invalid, and asked the result engine
    for exactly one action, a vacation action, returning 1 when the engine
    answered [>= 0] and 0 when it did not. *)
Theorem vacation_operation_outcomes
    (fuel : nat) (sbin : sieve_binary) (address : N) (w : world)
    (r : Z) (w' : world) :
  ext_vacation_operation_execute fuel sbin address w = Some (r, w') ->
  (r = SIEVE_EXEC_BIN_CORRUPT /\ exists msg, w' = emitted w [EvTraceError msg])
  \/
  (exists errs req ret,
     w_trace w' = w_trace w ++ EvTrace "VACATION action" :: errs
                              ++ [EvAddAction req ret] /\
     (errs = [] \/ exists loc msg, errs = [EvRuntimeError loc msg]) /\
     req_action req = act_vacation /\
     (exists ctx, req_context req = CtxVacation ctx) /\
     r = if ret >=? 0 then 1 else 0).
Proof.
  unfold ext_vacation_operation_execute. intros E.
  assert (Hc : forall msg w0,
            w0 = w ->
            bind (sieve_runtime_trace_error msg)
              (fun _ => ret SIEVE_EXEC_BIN_CORRUPT) w0 = Some (r, w') ->
            r = SIEVE_EXEC_BIN_CORRUPT
            /\ exists msg, w' = emitted w [EvTraceError msg]).
  { intros msg w0 -> Ec. inversion Ec; subst. split; [reflexivity |].
    exists msg. reflexivity. }
  destruct (sieve_code_source_line_read sbin address) as [[source_line a1] |];
    [| left; eapply Hc; eauto].
  destruct (sieve_operand_optional_present sbin a1) as [present a2].
  apply bind_inv in E. destruct E as (res & w1 & Eloop & E).
  assert (Hloop : (res = LoopCorrupt /\ exists msg, w1 = emitted w [EvTraceError msg])
                  \/ (exists a' o', res = LoopDone a' o' /\ w1 = w)).
  { destruct present; [exact (loop_outcome _ _ _ _ _ _ _ Eloop) |].
    apply ret_inv in Eloop. destruct Eloop as [-> ->]. right. eauto. }
  destruct Hloop as [(-> & msg & ->) | (a3 & o & -> & ->)].
  { apply ret_inv in E. destruct E as [-> ->]. left. eauto. }
  destruct (sieve_opr_string_read sbin a3) as [[reason a4] |];
    [| left; eapply Hc; eauto].
  destruct (sieve_opr_string_read sbin a4) as [[handle a5] |];
    [| left; eapply Hc; eauto].
  right.
  unfold sieve_runtime_trace, sieve_result_add_action in E.
  step (fun _ : event => True) E.
  apply bind_inv in E. destruct E as (from_normalized & w2 & Efrom & E).
  assert (Hfrom : exists errs,
            w2 = emitted w (EvTrace "VACATION action" :: errs) /\
            (errs = [] \/ exists loc msg, errs = [EvRuntimeError loc msg])).
  { destruct (opt_from o) as [from |].
    - destruct (sieve_address_normalize from) as [n | err].
      + apply ret_inv in Efrom. destruct Efrom as [_ ->]. exists []. auto.
      + unfold sieve_runtime_error in Efrom.
        step (fun _ : event => True) Efrom.
        apply ret_inv in Efrom. destruct Efrom as [_ ->].
        eexists. split; [rewrite emitted_emitted; reflexivity |]. eauto.
    - apply ret_inv in Efrom. destruct Efrom as [_ ->]. exists []. auto. }
  destruct Hfrom as (errs & -> & Herrs).
  apply bind_inv in E. destruct E as (ret & w3 & Eadd & E).
  apply ret_inv in E. destruct E as [-> ->].
  repeat step (fun _ : event => True) Eadd.
  apply ret_inv in Eadd. destruct Eadd as [-> ->].
  cbn [w_trace emitted with_host].
  eexists errs, _, _. split; [rewrite <- app_assoc; reflexivity |].
  split; [exact Herrs |]. split; [reflexivity |]. split; [| reflexivity].
  eexists. reflexivity.
Qed.

(** The operation on code whose operands can all be read. *)
Section WellFormed.
Variables (fuel : nat) (sbin : sieve_binary) (address : N).
Variables (source_line a1 a2 a3 a4 a5 a6 : N) (ps : list opt_pair).
Variables (reason handle : string).
Hypothesis Hline :
  sieve_code_source_line_read sbin address = Some (source_line, a1).
Hypothesis Hpresent : sieve_operand_optional_present sbin a1 = (true, a2).
Hypothesis Hpairs : reads_pairs sbin a2 ps a3.
Hypothesis Hend : sieve_operand_optional_read sbin a3 = Some (OPT_END, a4).
Hypothesis Hfuel : (List.length ps < fuel)%nat.
Hypothesis Hreason : sieve_opr_string_read sbin a4 = Some (reason, a5).
Hypothesis Hhandle : sieve_opr_string_read sbin a5 = Some (handle, a6).

Lemma execute_reads w :
  ext_vacation_operation_execute fuel sbin address w =
  let o := fold_left apply_pair ps optional_defaults in
  (sieve_runtime_trace "VACATION action" ;;;
   from_normalized <-
     match opt_from o with
     | None => ret None
     | Some from =>
         match sieve_address_normalize from with
         | inl normalized => ret (Some normalized)
         | inr error =>
             sieve_runtime_error (sieve_error_script_location source_line)
               ("specified :from address '" ++ str_sanitize from 128
                ++ "' is invalid for vacation action: " ++ error) ;;;
             ret None
         end
     end ;;
   r <- sieve_result_add_action
          {| req_action := act_vacation;
             req_source_line := Some source_line;
             req_context :=
               CtxVacation
                 {| Vac.reason := reason; Vac.handle := handle;
                    Vac.days := opt_days o; Vac.mime := opt_mime o;
                    Vac.subject := opt_subject o; Vac.from := opt_from o;
                    Vac.from_normalized := from_normalized;
                    Vac.addresses :=
                      match opt_addresses o with
                      | None => None
                      | Some addresses =>
                          sieve_coded_stringlist_read_all addresses
                      end |} |} ;;
   ret (if r >=? 0 then 1 else 0)) w.
Proof.
  assert (Hf : exists k, fuel = (List.length ps + S k)%nat)
    by (exists (fuel - List.length ps - 1)%nat; lia).
  destruct Hf as [k ->].
  unfold ext_vacation_operation_execute. rewrite Hline, Hpresent.
  unfold bind at 1. rewrite (loop_reads_pairs _ _ _ _ _ _ Hpairs).
  rewrite (loop_done _ _ _ _ _ _ Hend). cbv iota beta.
  rewrite Hreason, Hhandle. reflexivity.
Qed.

End WellFormed.

(** X11.  On code whose operands can all be read, the VACATION operation
    asks the result engine for one vacation action that carries what the
    code holds: the reason and the handle, and for the optional operands
    what the pairs assign one after the other to the defaults (7 days, no
    MIME, no subject, no [:from], no addresses).  It returns 1 when the
    engine answers [>= 0] and 0 otherwise.  Stated for code without a
    [:from] operand. *)
Theorem vacation_operation_decodes
    (fuel : nat) (sbin : sieve_binary) (address : N)
    (source_line a1 a2 a3 a4 a5 a6 : N) (ps : list opt_pair)
    (reason handle : string) (w : world) :
  sieve_code_source_line_read sbin address = Some (source_line, a1) ->
  sieve_operand_optional_present sbin a1 = (true, a2) ->
  reads_pairs sbin a2 ps a3 ->
  sieve_operand_optional_read sbin a3 = Some (OPT_END, a4) ->
  (List.length ps < fuel)%nat ->
  sieve_opr_string_read sbin a4 = Some (reason, a5) ->
  sieve_opr_string_read sbin a5 = Some (handle, a6) ->
  opt_from (fold_left apply_pair ps optional_defaults) = None ->
  let o := fold_left apply_pair ps optional_defaults in
  let req :=
    {| req_action := act_vacation;
       req_source_line := Some source_line;
       req_context :=
         CtxVacation
           {| Vac.reason := reason; Vac.handle := handle;
              Vac.days := opt_days o; Vac.mime := opt_mime o;
              Vac.subject := opt_subject o; Vac.from := None;
              Vac.from_normalized := None;
              Vac.addresses :=
                match opt_addresses o with
                | None => None
                | Some addresses => sieve_coded_stringlist_read_all addresses
                end |} |} in
  let answer := sieve_result_add_action_impl (w_host w) req in
  ext_vacation_operation_execute fuel sbin address w =
  Some (if fst answer >=? 0 then 1 else 0,
        emitted (with_host w (snd answer))
          [EvTrace "VACATION action"; EvAddAction req (fst answer)]).
Proof.
  intros Hline Hpresent Hpairs Hend Hfuel Hreason Hhandle Hfrom o req answer.
  rewrite (execute_reads fuel sbin address source_line a1 a2 a3 a4 a5 a6 ps
             reason handle Hline Hpresent Hpairs Hend Hfuel Hreason Hhandle).
  subst answer req o. cbv zeta. rewrite Hfrom.
  unfold sieve_runtime_trace, sieve_result_add_action, bind, emit, on_host, ret.
  cbn [w_host w_trace w_msgctx ioloop_time].
  match goal with
  | |- context [sieve_result_add_action_impl ?h ?req] =>
      destruct (sieve_result_add_action_impl h req) as [ret hs]
  end.
  cbn [fst snd]. unfold emitted, with_host. cbn [w_host w_trace w_msgctx ioloop_time].
  rewrite <- app_assoc. reflexivity.
Qed.

(** X12.  A [:from] address that cannot be normalised does not stop the
    VACATION operation: it reports the runtime error "specified :from
    address ... is invalid for vacation action" at the location of the
    command, and then asks the result engine for the vacation action all
    the same, with the address as given and no normalised form. *)
Theorem vacation_invalid_from_still_added
    (fuel : nat) (sbin : sieve_binary) (address : N)
    (source_line a1 a2 a3 a4 a5 a6 : N) (ps : list opt_pair)
    (reason handle from error : string) (w : world) :
  sieve_code_source_line_read sbin address = Some (source_line, a1) ->
  sieve_operand_optional_present sbin a1 = (true, a2) ->
  reads_pairs sbin a2 ps a3 ->
  sieve_operand_optional_read sbin a3 = Some (OPT_END, a4) ->
  (List.length ps < fuel)%nat ->
  sieve_opr_string_read sbin a4 = Some (reason, a5) ->
  sieve_opr_string_read sbin a5 = Some (handle, a6) ->
  opt_from (fold_left apply_pair ps optional_defaults) = Some from ->
  sieve_address_normalize from = inr error ->
  exists r w' req ret ctx,
    ext_vacation_operation_execute fuel sbin address w = Some (r, w') /\
    w_trace w'
    = w_trace w
      ++ [EvTrace "VACATION action";
          EvRuntimeError (sieve_error_script_location source_line)
            ("specified :from address '" ++ str_sanitize from 128
             ++ "' is invalid for vacation action: " ++ error);
          EvAddAction req ret] /\
    req_context req = CtxVacation ctx /\
    Vac.from ctx = Some from /\ Vac.from_normalized ctx = None /\
    r = (if ret >=? 0 then 1 else 0).
Proof.
  intros Hline Hpresent Hpairs Hend Hfuel Hreason Hhandle Hfrom Hnorm.
  rewrite (execute_reads fuel sbin address source_line a1 a2 a3 a4 a5 a6 ps
             reason handle Hline Hpresent Hpairs Hend Hfuel Hreason Hhandle).
  cbv zeta. rewrite Hfrom, Hnorm.
  unfold sieve_runtime_trace, sieve_runtime_error, sieve_result_add_action,
    bind, emit, on_host, ret.
  cbn [w_host w_trace w_msgctx ioloop_time].
  match goal with
  | |- context [sieve_result_add_action_impl ?h ?req] =>
      destruct (sieve_result_add_action_impl h req) as [ret hs] eqn:Eadd;
      exists (if ret >=? 0 then 1 else 0);
      eexists; exists req, ret
  end.
  eexists. split; [reflexivity |].
  cbn [w_trace]. rewrite <- !app_assoc.
  repeat split; reflexivity.
Qed.

End VacationOperationMore.

Lemma vacation_operation_outcomes_witness :
  exists w' errs req ret,
    @Vacation.ext_vacation_operation_execute Demo.externals Demo.reader
      10 Demo.vacation_code 0%N Demo.world0 = Some (1, w')
    /\ w_trace w'
       = w_trace Demo.world0
         ++ EvTrace "VACATION action" :: errs ++ [EvAddAction req ret]
    /\ req_action req = @Vacation.act_vacation Demo.externals.
Proof.
  match eval vm_compute in
    (@Vacation.ext_vacation_operation_execute Demo.externals Demo.reader
       10 Demo.vacation_code 0%N Demo.world0) with
  | Some (_, ?w1) =>
      assert (Hrun : @Vacation.ext_vacation_operation_execute Demo.externals
                       Demo.reader 10 Demo.vacation_code 0%N Demo.world0
                     = Some (1, w1))
        by (vm_compute; reflexivity);
      exists w1
  end.
  destruct (@vacation_operation_outcomes Demo.externals Demo.reader
              10 Demo.vacation_code 0%N Demo.world0 1 _ Hrun)
    as [(Hr & _) | (errs & req & ret & Htr & _ & Hact & _)].
  - discriminate Hr.
  - exists errs, req, ret. split; [exact Hrun |]. split; assumption.
Defined.

Lemma vacation_operation_decodes_witness :
  @Vacation.ext_vacation_operation_execute Demo.externals Demo.reader
    10 Demo.vacation_code 0%N Demo.world0
  = Some (1,
          emitted Demo.world0
            [EvTrace "VACATION action";
             EvAddAction
               {| req_action := @Vacation.act_vacation Demo.externals;
                  req_source_line := Some 3%N;
                  req_context :=
                    CtxVacation
                      {| Vac.reason := "I am away"; Vac.days := 1%N;
                         Vac.subject := Some "Away"; Vac.handle := "h1";
                         Vac.mime := false; Vac.from := None;
                         Vac.from_normalized := None;
                         Vac.addresses := None |} |} 0]).
Proof.
  exact (@vacation_operation_decodes Demo.externals Demo.reader
           10 Demo.vacation_code 0%N 3%N 1%N 2%N 6%N 7%N 8%N 9%N
           [Vacation.PairDays 0; Vacation.PairSubject "Away"] "I am away" "h1"
           Demo.world0 eq_refl eq_refl
           (ex_intro _ 4%N
              (conj (ex_intro _ 3%N (conj eq_refl eq_refl))
                 (ex_intro _ 6%N
                    (conj (ex_intro _ 5%N (conj eq_refl eq_refl)) eq_refl))))
           eq_refl ltac:(simpl; lia) eq_refl eq_refl eq_refl).
Defined.

Lemma vacation_invalid_from_still_added_witness :
  exists r w' req ret ctx,
    @Vacation.ext_vacation_operation_execute Demo2.strict_externals Demo.reader
      10 Demo2.invalid_from_code 0%N Demo2.strict_world0 = Some (r, w')
    /\ w_trace w'
       = w_trace Demo2.strict_world0
         ++ [EvTrace "VACATION action";
             EvRuntimeError "line"
               "specified :from address 'nobody' is invalid for vacation action: no domain";
             EvAddAction req ret]
    /\ req_context req = CtxVacation ctx
    /\ Vac.from ctx = Some "nobody" /\ Vac.from_normalized ctx = None
    /\ r = (if ret >=? 0 then 1 else 0).
Proof.
  exact (@vacation_invalid_from_still_added Demo2.strict_externals Demo.reader
           10 Demo2.invalid_from_code 0%N 3%N 1%N 2%N 4%N 5%N 6%N 7%N
           [Vacation.PairFrom "nobody"] "I am away" "h1" "nobody" "no domain"
           Demo2.strict_world0 eq_refl eq_refl
           (ex_intro _ 4%N
              (conj (ex_intro _ 3%N (conj eq_refl eq_refl)) eq_refl))
           eq_refl ltac:(simpl; lia) eq_refl eq_refl eq_refl eq_refl).
Defined.
(* ===================================================================== *)
(** * Further properties: the default handle of a vacation command *)
(* ===================================================================== *)

Lemma string_length_append (a b : string) :
  String.length (a ++ b) = (String.length a + String.length b)%nat.
Proof. induction a as [| c a IH]; simpl; [reflexivity | now rewrite IH]. Qed.

Lemma string_append_assoc (a b c : string) :
  ((a ++ b) ++ c)%string = (a ++ b ++ c)%string.
Proof. induction a as [| x a IH]; simpl; [reflexivity | now rewrite IH]. Qed.

Lemma mime_markers_differ : forall y x : string,
  (x ++ "<MIME>")%string <> (y ++ "<NO-MIME>")%string.
Proof.
  induction y as [| c y IH]; intros x E.
  - pose proof (f_equal String.length E) as Hlen.
    rewrite string_length_append in Hlen. simpl in Hlen.
    destruct x as [| a [| b [| d [| e x]]]]; simpl in Hlen; try lia.
    simpl in E. discriminate.
  - pose proof (f_equal String.length E) as Hlen.
    rewrite !string_length_append in Hlen. simpl in Hlen.
    destruct x as [| a x]; simpl in Hlen; [lia |].
    simpl in E. injection E as _ E. exact (IH x E).
Qed.

Section VacationHandle.
Context `{VacationCommand.ValidatorServices}.
Import VacationCommand.

(** The handle that [cmd_vacation_validate] constructs. *)
Lemma validate_handle arg ctx_data ctx' :
  cmd_vacation_validate arg ctx_data = Some ctx' ->
  handle ctx_data = None ->
  handle ctx'
  = Some (sieve_ast_argument_str arg
          ++ match subject ctx_data with
             | Some s => s
             | None => _handle_empty_subject
             end
          ++ match from ctx_data with
             | Some f => f
             | None => _handle_empty_from
             end
          ++ (if mime ctx_data then _handle_mime_enabled
              else _handle_mime_disabled))%string.
Proof.
  unfold cmd_vacation_validate. intros E Hnone. rewrite Hnone in E.
  destruct (sieve_validate_positional_argument arg "reason" 1 Ast.SAAT_STRING);
    [| discriminate].
  destruct (sieve_validator_argument_activate arg); [| discriminate].
  cbn [negb] in E. injection E as <-. cbn [handle].
  unfold str_append_str, str_append, str_new. cbn [String.append].
  destruct (subject ctx_data), (from ctx_data);
    rewrite !string_append_assoc; reflexivity.
Qed.

(** X13.  The size that [cmd_vacation_validate] computes in advance for
    the default handle is the length of the handle it then builds, as an
    [unsigned int]: the buffer it asks for is exactly as long as the
    string. *)
Theorem vacation_handle_size_exact
    (arg : option Ast.sieve_ast_argument)
    (ctx_data ctx' : cmd_vacation_context_data) :
  cmd_vacation_validate arg ctx_data = Some ctx' ->
  handle ctx_data = None ->
  exists h,
    handle ctx' = Some h /\
    handle_size (sieve_ast_argument_str arg) ctx_data
    = Z.of_nat (String.length h) mod 2 ^ 32.
Proof.
  intros E Hnone. rewrite (validate_handle arg ctx_data ctx' E Hnone).
  eexists. split; [reflexivity |].
  unfold handle_size, to_unsigned_int, str_len, sizeof.
  rewrite !string_length_append, !Nat2Z.inj_add.
  assert (Hm : 2 ^ 32 <> 0) by (apply Z.pow_nonzero; lia).
  rewrite Z.add_mod_idemp_l, <- Z.add_assoc by exact Hm.
  rewrite Z.add_mod_idemp_l, <- Z.add_assoc by exact Hm.
  rewrite Z.add_mod_idemp_l by exact Hm.
  f_equal.
  destruct (subject ctx_data), (from ctx_data), (mime ctx_data); lia.
Qed.

(** X14.  The default handle tells a MIME reply from a plain one: a
    command validated with [:mime] and one validated without it never get
    the same default handle, whatever their reasons, subjects and [:from]
    addresses. *)
Theorem vacation_default_handle_tells_mime
    (arg1 arg2 : option Ast.sieve_ast_argument)
    (ctx1 ctx2 ctx1' ctx2' : cmd_vacation_context_data) :
  cmd_vacation_validate arg1 ctx1 = Some ctx1' ->
  cmd_vacation_validate arg2 ctx2 = Some ctx2' ->
  handle ctx1 = None -> handle ctx2 = None ->
  mime ctx1 = true -> mime ctx2 = false ->
  handle ctx1' <> handle ctx2'.
Proof.
  intros E1 E2 H1 H2 Hm1 Hm2.
  rewrite (validate_handle _ _ _ E1 H1), (validate_handle _ _ _ E2 H2), Hm1, Hm2.
  intros E. injection E as E.
  rewrite <- !string_append_assoc in E.
  exact (mime_markers_differ _ _ E).
Qed.

(** X15.  Nothing separates the parts of the default handle.  A command
    whose reason ends with the text [x] and a command whose subject starts
    with it get the same default handle when they agree otherwise, so two
    different commands can share one handle. *)
Theorem vacation_default_handle_not_delimited
    (reason x s : string) (f : option string) (m : bool)
    (ctx1' ctx2' : cmd_vacation_context_data) :
  cmd_vacation_validate (Some (Ast.ArgString (reason ++ x)))
    {| from := f; subject := Some s; mime := m; handle := None |} = Some ctx1' ->
  cmd_vacation_validate (Some (Ast.ArgString reason))
    {| from := f; subject := Some (x ++ s)%string; mime := m; handle := None |}
  = Some ctx2' ->
  handle ctx1' = handle ctx2'.
Proof.
  intros E1 E2.
  rewrite (validate_handle _ _ _ E1 eq_refl), (validate_handle _ _ _ E2 eq_refl).
  cbn [sieve_ast_argument_str subject from mime].
  now rewrite !string_append_assoc.
Qed.

End VacationHandle.

Lemma vacation_handle_size_exact_witness :
  exists h,
    VacationCommand.handle
      {| VacationCommand.from := None; VacationCommand.subject := Some "Away";
         VacationCommand.mime := false;
         VacationCommand.handle := Some "I am awayAway<default-from><NO-MIME>" |}
    = Some h
    /\ VacationCommand.handle_size "I am away"
         {| VacationCommand.from := None; VacationCommand.subject := Some "Away";
            VacationCommand.mime := false; VacationCommand.handle := None |}
       = Z.of_nat (String.length h) mod 2 ^ 32.
Proof.
  exact (@vacation_handle_size_exact Demo2.validator
           (Some (Ast.ArgString "I am away"))
           {| VacationCommand.from := None; VacationCommand.subject := Some "Away";
              VacationCommand.mime := false; VacationCommand.handle := None |}
           _ eq_refl eq_refl).
Defined.

Lemma vacation_default_handle_tells_mime_witness :
  Some "I am away<default-subject><default-from><MIME>"
  <> Some "I am away<default-subject><default-from><NO-MIME>".
Proof.
  exact (@vacation_default_handle_tells_mime Demo2.validator
           (Some (Ast.ArgString "I am away")) (Some (Ast.ArgString "I am away"))
           {| VacationCommand.from := None; VacationCommand.subject := None;
              VacationCommand.mime := true; VacationCommand.handle := None |}
           {| VacationCommand.from := None; VacationCommand.subject := None;
              VacationCommand.mime := false; VacationCommand.handle := None |}
           _ _ eq_refl eq_refl eq_refl eq_refl eq_refl eq_refl).
Defined.

Lemma vacation_default_handle_not_delimited_witness :
  Some "Gone fishing<default-from><NO-MIME>"
  = Some "Gone fishing<default-from><NO-MIME>".
Proof.
  exact (@vacation_default_handle_not_delimited Demo2.validator
           "Gone" " fish" "ing" None false _ _ eq_refl eq_refl).
Defined.
(* ===================================================================== *)
(** * Further properties: the duplicate test *)
(* ===================================================================== *)

(** Unfold a call of [ext_duplicate_check] down to the worlds. *)
Ltac unfold_check :=
  unfold Duplicate.ext_duplicate_check, sieve_runtime_warning,
    Duplicate.sieve_action_duplicate_check, sieve_result_add_action,
    bind, ret, emit, on_host, get_msgctx, set_msgctx.

Section DuplicateMore.
Context `{Externals}.
Import Duplicate.

(** A call that finds no verdict cached, on a host with a database: the
    lookups it makes, the request it makes, and what it returns. *)
Lemma check_miss_run senv handle value period last w chk :
  sieve_action_duplicate_check_available senv = true ->
  duplicate_check senv = Some chk ->
  cached_verdict (context_of w) handle last = None ->
  ext_duplicate_check senv handle (Some value) period last w =
  let hash := ext_duplicate_hash handle value last in
  let user := username senv in
  let q1 := chk (w_host w) hash user in
  let dup := fst q1 in
  let again := (negb dup && last)%bool in
  let q2 :=
    if again then chk (snd q1) (ext_duplicate_hash handle value false) user
    else (false, snd q1) in
  let defer := (negb dup || last)%bool in
  let req := mark_request handle value period last in
  let add :=
    if defer then sieve_result_add_action_impl (snd q2) req else (0, snd q2) in
  let failed := (defer && (fst add <? 0))%bool in
  Some (if failed then -1 else bool_to_int dup,
        {| w_host := snd add;
           w_trace :=
             w_trace w
             ++ EvDuplicateCheck hash user dup
                :: (if again
                    then [EvDuplicateCheck (ext_duplicate_hash handle value false)
                            user (fst q2)]
                    else [])
                ++ (if defer then [EvAddAction req (fst add)] else []);
           w_msgctx :=
             Some (if failed then context_of w
                   else cache_result (context_of w) handle last dup);
           ioloop_time := ioloop_time w |}).
Proof.
  intros Havail Hchk Hmiss. unfold context_of in *.
  unfold mark_request.
  unfold_check. rewrite Havail, Hchk. cbn [negb].
  destruct (w_msgctx w) as [rctx |] eqn:Ectx; cbn [w_msgctx w_host w_trace ioloop_time];
    [rewrite Hmiss |];
    (destruct (chk (w_host w) _ _) as [dup hst]; cbn [fst snd w_msgctx w_host w_trace ioloop_time];
     destruct dup, last; cbn [negb andb orb fst snd w_msgctx w_host w_trace ioloop_time];
     repeat match goal with
            | |- context [let (_, _) := ?f ?a ?b ?c in _] =>
                destruct (f a b c) as [? ?];
                cbn [negb andb orb fst snd w_msgctx w_host w_trace ioloop_time]
            | |- context [let (_, _) := ?f ?a ?b in _] =>
                destruct (f a b) as [? ?];
                cbn [negb andb orb fst snd w_msgctx w_host w_trace ioloop_time]
            | |- context [if ?z <? 0 then _ else _] =>
                destruct (z <? 0);
                cbn [negb andb orb fst snd w_msgctx w_host w_trace ioloop_time]
            end;
     rewrite <- ?app_assoc, ?Ectx; reflexivity).
Qed.



(** X16.  The verdict cached for tests without a handle is kept under no
    key at all: once a call without handle has answered with a verdict, a
    later call without handle answers the same verdict and does nothing
    else, also when its [:last] flag, its value or its period differ, for
    which another hash would have to be looked up. *)
Theorem duplicate_default_verdict_ignores_last
    (senv senv' : sieve_script_env host_state)
    (value value' : string) (period period' : N) (last last' : bool)
    (w w1 w2 : world) (r : Z) :
  sieve_action_duplicate_check_available senv = true ->
  ext_duplicate_check senv None (Some value) period last w = Some (r, w1) ->
  r <> -1 ->
  later w1 w2 ->
  sieve_action_duplicate_check_available senv' = true ->
  ext_duplicate_check senv' None (Some value') period' last' w2 = Some (r, w2).
Proof.
  intros Havail E Hr Hlater Havail'.
  destruct (check_caches _ _ _ _ _ _ _ _ Havail E Hr) as (rctx & d & Hctx & Hd & ->).
  assert (Hd' : cached_verdict rctx None last' = Some d) by exact Hd.
  destruct (later_keeps_cache _ _ Hlater _ _ _ _ Hctx Hd') as (rctx2 & Hctx2 & Hd2).
  eapply check_cached; eauto.
Qed.

(** X17.  On a host with a database, a call that finds no verdict cached
    asks the result engine for the deferred duplicate_mark action of its
    key exactly when the database does not know the message or [:last] is
    given, and then for that one action only; the call fails with -1
    exactly when the engine refuses it.  For a message the database knows
    and no [:last], it asks for nothing, so the stored entry is not
    renewed, and answers 1. *)
Theorem duplicate_mark_when_new_or_last
    (senv : sieve_script_env host_state) (handle : option string)
    (value : string) (period : N) (last : bool) (w : world)
    (chk : host_state -> hash_t -> option string -> bool * host_state)
    (r : Z) (w' : world) :
  sieve_action_duplicate_check_available senv = true ->
  duplicate_check senv = Some chk ->
  cached_verdict (context_of w) handle last = None ->
  ext_duplicate_check senv handle (Some value) period last w = Some (r, w') ->
  exists evs,
    w_trace w' = w_trace w ++ evs /\
    if (negb (fst (chk (w_host w) (ext_duplicate_hash handle value last)
                     (username senv)))
        || last)%bool
    then exists ret,
           filter is_add_action evs
           = [EvAddAction (mark_request handle value period last) ret]
           /\ (r = -1 <-> ret < 0)
    else filter is_add_action evs = [] /\ r = 1.
Proof.
  intros Havail Hchk Hmiss E.
  rewrite (check_miss_run senv handle value period last w chk Havail Hchk Hmiss)
    in E.
  cbv zeta in E. injection E as Hr Hw. subst w'. cbn [w_trace].
  eexists. split; [reflexivity |].
  destruct (chk (w_host w) _ _) as [dup hst]. cbn [fst snd] in *.
  destruct dup, last; cbn [negb andb orb] in *.
  - match goal with
    | |- context [sieve_result_add_action_impl ?h ?q] =>
        destruct (sieve_result_add_action_impl h q) as [ret hs]
    end.
    cbn [fst snd] in *. exists ret. split; [reflexivity |].
    destruct (ret <? 0) eqn:Elt; subst r;
      [apply Z.ltb_lt in Elt | apply Z.ltb_ge in Elt];
      split; intros; try lia; try reflexivity; simpl in *; lia.
  - split; [reflexivity |]. subst r. reflexivity.
  - destruct (chk hst _ _) as [d2 hs2]. cbn [fst snd] in *.
    match goal with
    | |- context [sieve_result_add_action_impl ?h ?q] =>
        destruct (sieve_result_add_action_impl h q) as [ret hs]
    end.
    cbn [fst snd] in *. exists ret. split; [reflexivity |].
    destruct (ret <? 0) eqn:Elt; subst r;
      [apply Z.ltb_lt in Elt | apply Z.ltb_ge in Elt];
      split; intros; try lia; try reflexivity; simpl in *; lia.
  - match goal with
    | |- context [sieve_result_add_action_impl ?h ?q] =>
        destruct (sieve_result_add_action_impl h q) as [ret hs]
    end.
    cbn [fst snd] in *. exists ret. split; [reflexivity |].
    destruct (ret <? 0) eqn:Elt; subst r;
      [apply Z.ltb_lt in Elt | apply Z.ltb_ge in Elt];
      split; intros; try lia; try reflexivity; simpl in *; lia.
Qed.



(** X19.  With a database that finds what was marked in it, a message is
    recognised the next time.  After the finish hook has marked the key of
    a call (SIEVE_EXEC_OK), the same test on the next delivery, which
    starts without cached verdicts from the host state the mark left,
    answers 1.  It can only fail with -1, and only with [:last], when the
    result engine refuses the renewed mark. *)
Theorem duplicate_seen_next_time
    (senv : sieve_script_env host_state) (handle : option string)
    (value : string) (period period' : N) (last : bool)
    (chk : host_state -> hash_t -> option string -> bool * host_state)
    (mark : host_state -> hash_t -> option string -> Z -> host_state)
    (w2 w3 w4 : world) :
  sieve_action_duplicate_check_available senv = true ->
  duplicate_check senv = Some chk ->
  duplicate_mark senv = Some mark ->
  store_remembers chk mark ->
  act_duplicate_mark_finish senv
    {| Dup.handle := handle; Dup.period := Z.of_N period mod 2 ^ 32;
       Dup.hash := ext_duplicate_hash handle value last; Dup.last := last |}
    SIEVE_EXEC_OK w2 = Some (tt, w3) ->
  w_host w4 = w_host w3 ->
  w_msgctx w4 = None ->
  exists r w5,
    ext_duplicate_check senv handle (Some value) period' last w4 = Some (r, w5)
    /\ (r = 1 \/ (r = -1 /\ last = true))
    /\ (last = false ->
        w_trace w5
        = w_trace w4
          ++ [EvDuplicateCheck (ext_duplicate_hash handle value last)
                (username senv) true]).
Proof.
  intros Havail Hchk Hmark Hstore Efin Hhost Hctx.
  unfold act_duplicate_mark_finish in Efin. rewrite Z.eqb_refl in Efin.
  unfold sieve_action_duplicate_mark in Efin. rewrite Hmark in Efin.
  repeat step (fun _ : event => True) Efin.
  apply emit_inv in Efin. subst w3.
  injection Eh as _ Eh. subst h.
  cbn [w_host emitted with_host Dup.hash Dup.period] in Hhost.
  assert (Hmiss : cached_verdict (context_of w4) handle last = None).
  { unfold context_of. rewrite Hctx. apply empty_context_miss. }
  rewrite (check_miss_run senv handle value period' last w4 chk Havail Hchk Hmiss).
  cbv zeta. rewrite Hhost.
  pose proof (Hstore (w_host w2) (ext_duplicate_hash handle value last)
                (username senv) (ioloop_time w2 + Z.of_N period mod 2 ^ 32))
    as Hseen.
  destruct (chk _ _ _) as [dup hst]. cbn [fst snd] in *. subst dup.
  cbn [negb andb orb].
  destruct last; cbn [fst snd].
  - match goal with
    | |- context [sieve_result_add_action_impl ?h ?q] =>
        destruct (sieve_result_add_action_impl h q) as [ret hs]
    end.
    cbn [fst snd]. eexists. eexists. split; [reflexivity |].
    split; [| discriminate].
    destruct (ret <? 0); cbn [andb]; auto.
  - eexists. eexists. split; [reflexivity |]. split; [left; reflexivity |].
    intros _. reflexivity.
Qed.

(** X20.  A request that the result engine refuses leaves no verdict
    behind: a call that returned -1 has cached nothing for its key, so the
    same test, made again, consults the database again. *)
Theorem duplicate_refused_mark_not_cached
    (senv : sieve_script_env host_state) (handle : option string)
    (value : string) (period : N) (last : bool) (w : world)
    (chk : host_state -> hash_t -> option string -> bool * host_state)
    (w' : world) :
  sieve_action_duplicate_check_available senv = true ->
  duplicate_check senv = Some chk ->
  cached_verdict (context_of w) handle last = None ->
  ext_duplicate_check senv handle (Some value) period last w = Some (-1, w') ->
  cached_verdict (context_of w') handle last = None
  /\
  forall r2 w2,
    ext_duplicate_check senv handle (Some value) period last w' = Some (r2, w2) ->
    exists evs,
      w_trace w2 = w_trace w' ++ evs /\
      In (EvDuplicateCheck (ext_duplicate_hash handle value last) (username senv)
            (fst (chk (w_host w') (ext_duplicate_hash handle value last)
                    (username senv)))) evs.
Proof.
  intros Havail Hchk Hmiss E.
  assert (Hmiss' : cached_verdict (context_of w') handle last = None).
  { rewrite (check_miss_run senv handle value period last w chk Havail Hchk Hmiss)
      in E.
    cbv zeta in E. injection E as Hr Hw. subst w'.
    unfold context_of at 1. cbn [w_msgctx].
    match type of Hr with
    | (if ?f then _ else _) = _ => destruct f
    end; [exact Hmiss |].
    exfalso. destruct (fst (chk _ _ _)); discriminate. }
  split; [exact Hmiss' |]. intros r2 w2 E2.
  rewrite (check_miss_run senv handle value period last w' chk Havail Hchk Hmiss')
    in E2.
  cbv zeta in E2. injection E2 as _ Hw. subst w2. cbn [w_trace].
  eexists. split; [reflexivity |]. left. reflexivity.
Qed.

(** X21.  What keeps the keys of the duplicate database apart.  The hash
    of a test is the MD5 of "sieve duplicate", a mark for [:last], the
    handle and the value.  The text hashed for a test with [:last] is never
    the text hashed for a test without it, and the text hashed for a test
    with a handle is never the text hashed for a test without one.  But
    nothing separates the handle from the value: moving text from the end
    of the handle to the start of the value leaves the hash unchanged. *)
Theorem duplicate_hash_separation :
  (forall handle value last,
     ext_duplicate_hash handle value last
     = md5 (ext_duplicate_hash_input handle value last))
  /\ (forall handle value handle' value',
        ext_duplicate_hash_input handle value true
        <> ext_duplicate_hash_input handle' value' false)
  /\ (forall h value value' last last',
        ext_duplicate_hash_input (Some h) value last
        <> ext_duplicate_hash_input None value' last')
  /\ (forall (h x value : string) last,
        ext_duplicate_hash (Some (h ++ x)%string) value last
        = ext_duplicate_hash (Some h) (x ++ value)%string last).
Proof.
  split; [reflexivity |]. split; [| split].
  - intros handle value handle' value' E. discriminate E.
  - intros h value value' last last' E. unfold ext_duplicate_hash_input in E.
    destruct last, last'; discriminate E.
  - intros h x value last. unfold ext_duplicate_hash. f_equal.
    destruct last; cbn [String.append]; do 18 f_equal;
      now rewrite string_append_assoc.
Qed.

End DuplicateMore.
Lemma duplicate_default_verdict_ignores_last_witness :
  exists w1,
    @Duplicate.ext_duplicate_check Demo.externals Demo.full_senv
      None (Some "v") 10%N false Demo.world0 = Some (0, w1)
    /\ @Duplicate.ext_duplicate_check Demo.externals Demo.full_senv
         None (Some "another value") 99%N true w1 = Some (0, w1).
Proof.
  match eval vm_compute in
    (@Duplicate.ext_duplicate_check Demo.externals Demo.full_senv
       None (Some "v") 10%N false Demo.world0) with
  | Some (_, ?w1) =>
      assert (Hrun : @Duplicate.ext_duplicate_check Demo.externals
                       Demo.full_senv None (Some "v") 10%N false Demo.world0
                     = Some (0, w1))
        by (vm_compute; reflexivity);
      exists w1
  end.
  split; [exact Hrun |].
  exact (@duplicate_default_verdict_ignores_last Demo.externals
           Demo.full_senv Demo.full_senv "v" "another value" 10%N 99%N
           false true Demo.world0 _ _ 0 eq_refl Hrun ltac:(discriminate)
           (@Duplicate.later_refl Demo.externals _) eq_refl).
Defined.

Lemma duplicate_mark_when_new_or_last_witness :
  exists w' evs ret,
    @Duplicate.ext_duplicate_check Demo.externals Demo.full_senv
      (Some "h") (Some "v") 10%N false Demo.world0 = Some (0, w')
    /\ w_trace w' = w_trace Demo.world0 ++ evs
    /\ filter is_add_action evs
       = [EvAddAction (@mark_request Demo.externals (Some "h") "v" 10%N false) ret].
Proof.
  match eval vm_compute in
    (@Duplicate.ext_duplicate_check Demo.externals Demo.full_senv
       (Some "h") (Some "v") 10%N false Demo.world0) with
  | Some (_, ?w1) =>
      assert (Hrun : @Duplicate.ext_duplicate_check Demo.externals
                       Demo.full_senv (Some "h") (Some "v") 10%N false
                       Demo.world0 = Some (0, w1))
        by (vm_compute; reflexivity);
      exists w1
  end.
  destruct (@duplicate_mark_when_new_or_last Demo.externals Demo.full_senv
              (Some "h") "v" 10%N false Demo.world0 Demo.db_check 0 _
              eq_refl eq_refl eq_refl Hrun)
    as (evs & Hevs & ret & Hreq & _).
  exists evs, ret. split; [exact Hrun |]. split; assumption.
Defined.


Lemma duplicate_seen_next_time_witness :
  exists r w5,
    @Duplicate.ext_duplicate_check Demo.externals Demo.full_senv
      (Some "h") (Some "v") 20%N false
      (@Build_world Demo.externals
         [("sieve duplicate+h-hv", Some "jane", 1010)] [] None 3000)
    = Some (r, w5)
    /\ (r = 1 \/ (r = -1 /\ false = true)).
Proof.
  destruct (@duplicate_seen_next_time Demo.externals Demo.full_senv
              (Some "h") "v" 10%N 20%N false Demo.db_check Demo.db_mark
              Demo.world0 _
              (@Build_world Demo.externals
                 [("sieve duplicate+h-hv", Some "jane", 1010)] [] None 3000)
              eq_refl eq_refl eq_refl demo_store_remembers eq_refl eq_refl
              eq_refl)
    as (r & w5 & Hrun & Hr & _).
  exists r, w5. split; assumption.
Defined.

Lemma duplicate_refused_mark_not_cached_witness :
  exists w',
    @Duplicate.ext_duplicate_check Demo2.strict_externals Demo.full_senv
      (Some "h") (Some "v") 10%N false Demo2.strict_world0 = Some (-1, w')
    /\ @Duplicate.cached_verdict (@context_of Demo2.strict_externals w')
         (Some "h") false = None.
Proof.
  match eval vm_compute in
    (@Duplicate.ext_duplicate_check Demo2.strict_externals Demo.full_senv
       (Some "h") (Some "v") 10%N false Demo2.strict_world0) with
  | Some (_, ?w1) =>
      assert (Hrun : @Duplicate.ext_duplicate_check Demo2.strict_externals
                       Demo.full_senv (Some "h") (Some "v") 10%N false
                       Demo2.strict_world0 = Some (-1, w1))
        by (vm_compute; reflexivity);
      exists w1
  end.
  split; [exact Hrun |].
  exact (proj1 (@duplicate_refused_mark_not_cached Demo2.strict_externals
                  Demo.full_senv (Some "h") "v" 10%N false Demo2.strict_world0
                  Demo.db_check _ eq_refl eq_refl eq_refl Hrun)).
Defined.
(* ===================================================================== *)
(** * Further properties: the LDA plugin *)
(* ===================================================================== *)

Ltac in_log :=
  repeat first [apply in_eq | apply in_cons | apply in_or_app; right].

Section LdaPlugin.
Context `{LdaSieve.Deliver}.
Import LdaSieve.
Variable proc : process.

Lemma script_or_global_found script_path log p :
  script_or_global proc script_path = (log, Some p) ->
  (p = script_path /\ stat proc p = None /\ log = [])
  \/ (stat proc script_path <> None /\
      (getenv proc "SIEVE_GLOBAL_PATH" = Some p
       \/ (getenv proc "SIEVE_GLOBAL_PATH" = None
           /\ getenv proc "GLOBAL_SCRIPT_PATH" = Some p))).
Proof.
  unfold script_or_global.
  destruct (stat proc script_path) as [errno |] eqn:Estat; intros E.
  - right. split; [discriminate |].
    injection E as _ E.
    destruct (getenv proc "SIEVE_GLOBAL_PATH"); [left | right; split]; congruence.
  - left. injection E as <- <-. auto.
Qed.

(** X22.  The script that [lda_sieve_get_path] returns is the per-user
    script only when [stat] found it, and then nothing was logged.
    Otherwise it is the global script: the path in SIEVE_GLOBAL_PATH, or,
    when that variable is not set, the one in GLOBAL_SCRIPT_PATH, as the
    environment gives it. *)
Theorem lda_script_is_found_or_global (log : list lda_event) (p : string) :
  lda_sieve_get_path proc = Some (log, Some p) ->
  (stat proc p = None /\ log = [])
  \/ getenv proc "SIEVE_GLOBAL_PATH" = Some p
  \/ (getenv proc "SIEVE_GLOBAL_PATH" = None
      /\ getenv proc "GLOBAL_SCRIPT_PATH" = Some p).
Proof.
  unfold lda_sieve_get_path. intros E.
  assert (Hs : forall sp, Some (script_or_global proc sp) = Some (log, Some p) ->
                 (stat proc p = None /\ log = [])
                 \/ getenv proc "SIEVE_GLOBAL_PATH" = Some p
                 \/ (getenv proc "SIEVE_GLOBAL_PATH" = None
                     /\ getenv proc "GLOBAL_SCRIPT_PATH" = Some p)).
  { intros sp Es. injection Es as Es.
    destruct (script_or_global_found _ _ _ Es) as [(-> & Hst & Hl) | (_ & Hg)];
      [left; auto | right; exact Hg]. }
  destruct (getenv proc "SIEVE") as [sp |].
  - destruct (is_empty sp); [discriminate |].
    destruct (negb (first_char_is (home_expand sp) "/")
              && negb (is_empty (home_expand sp)))%bool.
    + destruct (getenv proc "HOME"); [eapply Hs; eauto | discriminate].
    + eapply Hs; eauto.
  - destruct (getenv proc "HOME"); [eapply Hs; eauto | discriminate].
Qed.

(** X23.  Two settings switch Sieve off for a delivery, whatever global
    script the environment names.  With SIEVE set to the empty string, and
    with neither SIEVE nor HOME set, [lda_sieve_deliver_mail] returns 0
    and the Sieve library is not called; in the first case nothing is
    logged, in the second the error that the per-user script path is
    unknown. *)
Theorem lda_sieve_switched_off
    (namespaces : mail_namespaces) (m : mail) (destaddr mailbox : option string) :
  (getenv proc "SIEVE" = Some "" ->
   lda_sieve_deliver_mail proc namespaces m destaddr mailbox = Some ([], 0))
  /\
  (getenv proc "SIEVE" = None -> getenv proc "HOME" = None ->
   lda_sieve_deliver_mail proc namespaces m destaddr mailbox
   = Some ([I_error ("Per-user script path is unknown. See "
                     ++ "http://wiki.dovecot.org/LDA/Sieve#location")],
           0)).
Proof.
  unfold lda_sieve_deliver_mail, lda_sieve_get_path. split.
  - intros ->. reflexivity.
  - intros -> ->. reflexivity.
Qed.

(** X24.  What [lda_sieve_deliver_mail] tells the LDA is 0, 1 or -1.  It
    returns 0 only when no script was found, and then the Sieve library
    was not called.  It returns 1 only when the script was opened and its
    execution returned a value that is not negative; the execution was
    given the delivery address as [to_address], the return address of the
    mail as [return_path] and an environment with all four callbacks.  It
    returns -1 only when the script could not be opened or its execution
    returned a negative value, and then an error line was logged. *)
Theorem lda_deliver_mail_result
    (namespaces : mail_namespaces) (m : mail) (destaddr mailbox : option string)
    (log : list lda_event) (r : Z) :
  lda_sieve_deliver_mail proc namespaces m destaddr mailbox = Some (log, r) ->
  (r = 0 /\ (exists l, lda_sieve_get_path proc = Some (l, None))
   /\ forall p opened, ~ In (SieveOpen p opened) log)
  \/
  (r = 1 /\
   exists p msgdata scriptenv ret,
     In (SieveOpen p true) log /\
     In (SieveExecute p msgdata scriptenv ret) log /\ 0 <= ret /\
     msg_to_address msgdata = destaddr /\
     msg_return_path msgdata = deliver_get_return_address m /\
     env_smtp_open scriptenv <> None /\ env_smtp_close scriptenv <> None /\
     env_duplicate_mark scriptenv <> None /\
     env_duplicate_check scriptenv <> None)
  \/
  (r = -1 /\ exists p msg,
     In (I_error msg) log /\
     (In (SieveOpen p false) log
      \/ exists msgdata scriptenv ret,
           In (SieveExecute p msgdata scriptenv ret) log /\ ret < 0)).
Proof.
  unfold lda_sieve_deliver_mail. intros E.
  destruct (lda_sieve_get_path proc) as [[l [p |]] |] eqn:Epath; [| | discriminate].
  - unfold lda_sieve_run in E.
    destruct (sieve_open p) eqn:Eopen; cbn [negb] in E.
    + match type of E with
      | context [sieve_execute p ?md ?env] =>
          remember md as msgdata eqn:Emd; remember env as scriptenv eqn:Eenv;
          destruct (sieve_execute p msgdata scriptenv <? 0) eqn:Eret
      end.
      * right. right. apply Z.ltb_lt in Eret.
        assert (Hge : (sieve_execute p msgdata scriptenv >=? 0) = false)
          by (rewrite Z.geb_leb; apply Z.leb_gt; exact Eret).
        rewrite Hge in E. injection E as <- <-.
        split; [reflexivity |].
        exists p, ("sieve: Failed to execute script " ++ p)%string. split.
        -- in_log.
        -- right. exists msgdata, scriptenv, (sieve_execute p msgdata scriptenv).
           split; [| exact Eret].
           in_log.
      * right. left. apply Z.ltb_ge in Eret.
        assert (Hge : (sieve_execute p msgdata scriptenv >=? 0) = true)
          by (rewrite Z.geb_leb; apply Z.leb_le; exact Eret).
        rewrite Hge in E. injection E as <- <-.
        split; [reflexivity |].
        exists p, msgdata, scriptenv, (sieve_execute p msgdata scriptenv).
        split; [in_log |].
        split; [in_log |].
        split; [exact Eret |].
        subst msgdata scriptenv. cbn. repeat split; discriminate.
    + right. right. injection E as <- <-. split; [reflexivity |].
      exists p, ("sieve: Failed to open script. "
                 ++ "Log should be available as " ++ (p ++ ".log"))%string.
      split.
      * in_log.
      * left. in_log.
  - left. injection E as <- <-. split; [reflexivity |].
    split; [eauto |].
    intros p opened Hin.
    unfold lda_sieve_get_path in Epath.
    assert (Hs : forall sp l0 o, script_or_global proc sp = (l0, o) ->
                   ~ In (SieveOpen p opened) l0).
    { intros sp l0 o Es. unfold script_or_global in Es.
      destruct (stat proc sp) as [errno |]; injection Es as <- _;
        [destruct (negb (errno =? ENOENT)) |]; simpl; intuition discriminate. }
    destruct (getenv proc "SIEVE") as [sp |].
    + destruct (is_empty sp).
      * injection Epath as <-. destruct Hin.
      * destruct (negb (first_char_is (home_expand sp) "/")
                  && negb (is_empty (home_expand sp)))%bool.
        -- destruct (getenv proc "HOME"); [| discriminate].
           injection Epath as Epath. exact (Hs _ _ _ Epath Hin).
        -- injection Epath as Epath. exact (Hs _ _ _ Epath Hin).
    + destruct (getenv proc "HOME").
      * injection Epath as Epath. exact (Hs _ _ _ Epath Hin).
      * injection Epath as <-. destruct Hin as [Hin | []]. discriminate.
Qed.

End LdaPlugin.

(** X25.  The plugin puts its function in the LDA's [deliver_mail] hook and
    takes it out again: after [sieve_plugin_init] the hook is
    [lda_sieve_deliver_mail], and [sieve_plugin_deinit] after it restores
    the function that was there before.  One slot is all it has to
    remember that function: initialised twice, the plugin remembers only
    itself, and deinitialising, however often, leaves its own function
    in the hook. *)
Theorem lda_plugin_hook_roundtrip (s : LdaSieve.hooks) :
  LdaSieve.deliver_mail (LdaSieve.sieve_plugin_init s)
  = LdaSieve.lda_sieve_deliver_mail_func
  /\ LdaSieve.deliver_mail
       (LdaSieve.sieve_plugin_deinit (LdaSieve.sieve_plugin_init s))
     = LdaSieve.deliver_mail s
  /\ forall n,
       LdaSieve.deliver_mail
         (Nat.iter n LdaSieve.sieve_plugin_deinit
            (LdaSieve.sieve_plugin_init (LdaSieve.sieve_plugin_init s)))
       = LdaSieve.lda_sieve_deliver_mail_func.
Proof.
  split; [reflexivity |]. split; [reflexivity |].
  intros n.
  assert (Hinv : forall k,
            LdaSieve.deliver_mail
              (Nat.iter k LdaSieve.sieve_plugin_deinit
                 (LdaSieve.sieve_plugin_init (LdaSieve.sieve_plugin_init s)))
            = LdaSieve.lda_sieve_deliver_mail_func
            /\ LdaSieve.next_deliver_mail
                 (Nat.iter k LdaSieve.sieve_plugin_deinit
                    (LdaSieve.sieve_plugin_init (LdaSieve.sieve_plugin_init s)))
               = LdaSieve.lda_sieve_deliver_mail_func).
  { induction k as [| k [IH1 IH2]]; [split; reflexivity |].
    simpl. split; exact IH2. }
  exact (proj1 (Hinv n)).
Qed.

Lemma lda_script_is_found_or_global_witness :
  @LdaSieve.lda_sieve_get_path Demo2.deliver
    (Demo2.process_of [("HOME", "/home/jane"); ("SIEVE", "sieve")])
  = Some ([], Some "/home/jane/sieve")
  /\
  ((LdaSieve.stat
      (Demo2.process_of [("HOME", "/home/jane"); ("SIEVE", "sieve")])
      "/home/jane/sieve" = None /\ @nil (@LdaSieve.lda_event Demo2.deliver) = [])
   \/ LdaSieve.getenv
        (Demo2.process_of [("HOME", "/home/jane"); ("SIEVE", "sieve")])
        "SIEVE_GLOBAL_PATH" = Some "/home/jane/sieve"
   \/ (LdaSieve.getenv
         (Demo2.process_of [("HOME", "/home/jane"); ("SIEVE", "sieve")])
         "SIEVE_GLOBAL_PATH" = None
       /\ LdaSieve.getenv
            (Demo2.process_of [("HOME", "/home/jane"); ("SIEVE", "sieve")])
            "GLOBAL_SCRIPT_PATH" = Some "/home/jane/sieve")).
Proof.
  split; [reflexivity |].
  exact (@lda_script_is_found_or_global Demo2.deliver
           (Demo2.process_of [("HOME", "/home/jane"); ("SIEVE", "sieve")])
           [] "/home/jane/sieve" eq_refl).
Defined.

Lemma lda_sieve_switched_off_witness :
  @LdaSieve.lda_sieve_deliver_mail Demo2.deliver
    (Demo2.process_of
       [("HOME", "/home/jane"); ("SIEVE", ""); ("SIEVE_GLOBAL_PATH", "/etc/sieve")])
    tt tt (Some "jane@example.org") (Some "INBOX")
  = Some ([], 0)
  /\
  @LdaSieve.lda_sieve_deliver_mail Demo2.deliver
    (Demo2.process_of [("SIEVE_GLOBAL_PATH", "/etc/sieve")])
    tt tt (Some "jane@example.org") (Some "INBOX")
  = Some ([@LdaSieve.I_error Demo2.deliver
             "Per-user script path is unknown. See http://wiki.dovecot.org/LDA/Sieve#location"],
          0).
Proof.
  split.
  - exact (proj1 (@lda_sieve_switched_off Demo2.deliver
                    (Demo2.process_of
                       [("HOME", "/home/jane"); ("SIEVE", "");
                        ("SIEVE_GLOBAL_PATH", "/etc/sieve")])
                    tt tt (Some "jane@example.org") (Some "INBOX")) eq_refl).
  - exact (proj2 (@lda_sieve_switched_off Demo2.deliver
                    (Demo2.process_of [("SIEVE_GLOBAL_PATH", "/etc/sieve")])
                    tt tt (Some "jane@example.org") (Some "INBOX"))
             eq_refl eq_refl).
Defined.

Lemma lda_deliver_mail_result_witness :
  exists log,
    @LdaSieve.lda_sieve_deliver_mail Demo2.deliver
      (Demo2.process_of [("HOME", "/home/jane"); ("SIEVE", "/broken");
                         ("SIEVE_GLOBAL_PATH", "/broken")])
      tt tt (Some "jane@example.org") (Some "INBOX")
    = Some (log, -1)
    /\ exists msg, In (@LdaSieve.I_error Demo2.deliver msg) log.
Proof.
  match eval vm_compute in
    (@LdaSieve.lda_sieve_deliver_mail Demo2.deliver
       (Demo2.process_of [("HOME", "/home/jane"); ("SIEVE", "/broken");
                          ("SIEVE_GLOBAL_PATH", "/broken")])
       tt tt (Some "jane@example.org") (Some "INBOX")) with
  | Some (?l, _) =>
      assert (Hrun : @LdaSieve.lda_sieve_deliver_mail Demo2.deliver
                       (Demo2.process_of
                          [("HOME", "/home/jane"); ("SIEVE", "/broken");
                           ("SIEVE_GLOBAL_PATH", "/broken")])
                       tt tt (Some "jane@example.org") (Some "INBOX")
                     = Some (l, -1))
        by (vm_compute; reflexivity);
      exists l
  end.
  split; [exact Hrun |].
  destruct (@lda_deliver_mail_result Demo2.deliver _ _ _ _ _ _ _ Hrun)
    as [(Hr & _) | [(Hr & _) | (_ & p & msg & Hin & _)]];
    [discriminate Hr | discriminate Hr | exists msg; exact Hin].
Defined.
(* ===================================================================== *)
(** * The days of the vacation action *)
(* ===================================================================== *)

Section VacationDays.
Context `{Externals} `{BinaryReader}.
Import Vacation.

(** What the pairs leave in [days]: the days operand read last, a 0
    replaced by 1. *)
Lemma days_of_pairs (ps : list opt_pair) : forall o,
  opt_days (fold_left apply_pair ps o)
  = match last_days ps with
    | Some d => if (d =? 0)%N then 1%N else d
    | None => opt_days o
    end.
Proof.
  induction ps as [| p ps IH]; intros o; [reflexivity |].
  cbn [fold_left last_days]. rewrite IH.
  destruct (last_days ps); [reflexivity |].
  destruct p; reflexivity.
Qed.

(** With forward readers, there are no more pairs than the binary has
    bytes. *)
Lemma reads_pairs_length sbin size (ps : list opt_pair) :
  forward_reader sbin size ->
  forall a a', reads_pairs sbin a ps a' ->
               ps <> [] -> (a + N.of_nat (List.length ps) <= size)%N.
Proof.
  intros (Hcode & Hnum & Hstr & Hlist).
  induction ps as [| p ps IH]; intros a a' Hr Hne; [congruence |].
  destruct Hr as (a1 & Hp & Hps).
  assert (Hstep : (a < a1)%N /\ (a < size)%N).
  { destruct p; cbn [reads_pair] in Hp;
      [destruct Hp as (a0 & Hc & Ho) .. |];
      try (pose proof (Hcode _ _ _ Hc)); try (pose proof (Hcode _ _ _ Hp));
      try (pose proof (Hnum _ _ _ Ho)); try (pose proof (Hstr _ _ _ Ho));
      try (pose proof (Hlist _ _ _ Ho)); lia. }
  destruct ps as [| q ps'].
  - cbn [List.length]. lia.
  - assert (Hq : q :: ps' <> []) by discriminate.
    specialize (IH _ _ Hps Hq).
    change (List.length (p :: q :: ps')) with (S (List.length (q :: ps'))).
    lia.
Qed.

(** C2.  The [:days] argument is clamped at both stages.  The tag
    validator, given [:days n], leaves the number [1] in the AST when [n]
    is [0] (and [n] otherwise).  The operation, run on code whose operands
    can all be read, asks the result engine for one vacation action, and
    the [days] of that action is the days operand that the code holds
    last, with [1] in the place of a [0], or [7] when the code holds no
    days operand: so it is at least 1.  And on any code at all (with
    forward readers and more fuel than the binary has bytes) the operation
    returns, and every vacation action it hands to the result engine has
    [days >= 1]. *)
Theorem vacation_days_at_least_one
    (before rest : list Ast.sieve_ast_argument) (n : N)
    (fuel : nat) (sbin : sieve_binary) (size address : N)
    (source_line a1 a2 a3 a4 a5 a6 : N) (ps : list opt_pair)
    (reason handle : string) (w : world) :
  forward_reader sbin size ->
  (N.to_nat size < fuel)%nat ->
  sieve_code_source_line_read sbin address = Some (source_line, a1) ->
  sieve_operand_optional_present sbin a1 = (true, a2) ->
  reads_pairs sbin a2 ps a3 ->
  sieve_operand_optional_read sbin a3 = Some (OPT_END, a4) ->
  sieve_opr_string_read sbin a4 = Some (reason, a5) ->
  sieve_opr_string_read sbin a5 = Some (handle, a6) ->
  cmd_vacation_validate_number_tag
    (before, Ast.ArgTag "days" :: Ast.ArgNumber n :: rest)
  = Some (before ++ [Ast.ArgNumber (if (n =? 0)%N then 1%N else n)], rest)
  /\
  (exists r w' errs req ret ctx,
     ext_vacation_operation_execute fuel sbin address w = Some (r, w') /\
     w_trace w' = w_trace w ++ EvTrace "VACATION action" :: errs
                              ++ [EvAddAction req ret] /\
     Forall (fun e => is_add_action e = false) errs /\
     req_action req = act_vacation /\
     req_context req = CtxVacation ctx /\
     Vac.days ctx = match last_days ps with
                    | Some d => if (d =? 0)%N then 1%N else d
                    | None => 7%N
                    end /\
     (1 <= Vac.days ctx)%N)
  /\
  (forall address0 w0,
     exists r w' evs,
       ext_vacation_operation_execute fuel sbin address0 w0 = Some (r, w') /\
       w_trace w' = w_trace w0 ++ evs /\
       forall req ret,
         In (EvAddAction req ret) evs ->
         exists ctx, req_context req = CtxVacation ctx /\ (1 <= Vac.days ctx)%N).
Proof.
  intros Hfwd Hfuel Hline Hpresent Hpairs Hend Hreason Hhandle.
  split; [| split].
  - unfold cmd_vacation_validate_number_tag, Ast.sieve_ast_arguments_detach,
      Ast.sieve_validate_tag_parameter, Ast.sieve_ast_argument_number,
      Ast.sieve_ast_argument_number_set, Ast.sieve_ast_argument_next.
    simpl. destruct (n =? 0)%N; reflexivity.
  - assert (Hlen : (List.length ps < fuel)%nat).
    { destruct ps as [| p ps']; [simpl; lia |].
      assert (Hne : p :: ps' <> []) by discriminate.
      pose proof (reads_pairs_length sbin size _ Hfwd _ _ Hpairs Hne). lia. }
    assert (Hdays : forall d,
              d = match last_days ps with
                  | Some d => if (d =? 0)%N then 1%N else d
                  | None => 7%N
                  end -> (1 <= d)%N).
    { intros d ->. destruct (last_days ps) as [d |]; [| lia].
      destruct (d =? 0)%N eqn:E; [lia | apply N.eqb_neq in E; lia]. }
    rewrite (execute_reads fuel sbin address source_line a1 a2 a3 a4 a5 a6 ps
               reason handle Hline Hpresent Hpairs Hend Hlen Hreason Hhandle).
    cbv zeta.
    pose proof (days_of_pairs ps optional_defaults) as Ho.
    change (opt_days optional_defaults) with 7%N in Ho.
    destruct (opt_from (fold_left apply_pair ps optional_defaults)) as [from |];
      [destruct (sieve_address_normalize from) as [normalized | error] |];
      unfold sieve_runtime_trace, sieve_runtime_error, sieve_result_add_action,
        bind, emit, on_host, ret;
      cbn [w_host w_trace w_msgctx ioloop_time];
      match goal with
      | |- context [sieve_result_add_action_impl ?h ?req] =>
          destruct (sieve_result_add_action_impl h req) as [ret hs];
          exists (if ret >=? 0 then 1 else 0); eexists
      end;
      [exists []
      | exists [EvRuntimeError (sieve_error_script_location source_line)
                  ("specified :from address '" ++ str_sanitize from 128
                   ++ "' is invalid for vacation action: " ++ error)]
      | exists []];
      (do 3 eexists; split; [reflexivity |]);
      cbn [w_trace req_action req_context Vac.days];
      (split; [rewrite <- ?app_assoc; reflexivity |]);
      (split; [repeat constructor |]);
      (split; [reflexivity |]); (split; [reflexivity |]);
      (split; [exact Ho | apply Hdays; exact Ho]).
  - intros address0 w0.
    destruct (execute_returns sbin size fuel address0 w0 Hfwd Hfuel)
      as (r & w' & Hexec).
    destruct (execute_yields _ _ _ _ _ _ Hexec) as (_ & _ & evs & Hevs & HF).
    exists r, w', evs. split; [exact Hexec |]. split; [exact Hevs |].
    intros req ret Hin. rewrite Forall_forall in HF. exact (HF _ Hin).
Qed.

End VacationDays.

Lemma vacation_days_at_least_one_witness :
  exists r w' errs req ret ctx,
    @Vacation.ext_vacation_operation_execute Demo.externals Demo.reader
      10 Demo.vacation_code 0%N Demo.world0 = Some (r, w')
    /\ w_trace w'
       = w_trace Demo.world0
         ++ EvTrace "VACATION action" :: errs ++ [EvAddAction req ret]
    /\ req_context req = CtxVacation ctx
    /\ Vac.days ctx = 1%N.
Proof.
  destruct (proj1 (proj2
    (@vacation_days_at_least_one Demo.externals Demo.reader
       [] [] 0%N 10%nat Demo.vacation_code 9%N 0%N 3%N 1%N 2%N 6%N 7%N 8%N 9%N
       [Vacation.PairDays 0; Vacation.PairSubject "Away"] "I am away" "h1"
       Demo.world0
       (demo_reader_forward Demo.vacation_code) ltac:(vm_compute; lia)
       eq_refl eq_refl
       (ex_intro _ 4%N
          (conj (ex_intro _ 3%N (conj eq_refl eq_refl))
             (ex_intro _ 6%N
                (conj (ex_intro _ 5%N (conj eq_refl eq_refl)) eq_refl))))
       eq_refl eq_refl eq_refl)))
    as (r & w' & errs & req & ret & ctx & Hrun & Htrace & _ & _ & Hctx & Hdays & _).
  exists r, w', errs, req, ret, ctx.
  split; [exact Hrun |]. split; [exact Htrace |]. split; [exact Hctx |].
  exact Hdays.
Defined.
